(** * gcode-combiner: archive extraction, time estimates and the work queue

    A shallow embedding of [src/utils/fileProcessor.ts] and of the queue
    callbacks of [App.tsx] / [FileList.tsx], with the properties the
    specification states about them.

    Conventions of the embedding.
    - A JavaScript string is a [string]; a character is a code unit in the
      range 0..255 ([ascii]).
    - [string | null] is [option string]; a thrown error is the left
      summand of a sum.
    - JSZip is an external library: a loaded archive is its [files] table,
      an association list from member names to entries;
      [JSZip.loadAsync] is a parameter of the development.
    - The source is read at two levels.  The first reads a number as an
      exact integer ([Z]) and an archive member as its decoded text: this
      is what the code computes as long as every integer involved is below
      2^53 and every member it awaits decodes.  The second ([Double],
      [Js]) computes on IEEE 754 doubles (rounding, infinities, NaN, the
      printing of large numbers) and lets [async('string')] reject.  The
      lemmas [formatSeconds_agrees], [parseTimeToSeconds_agrees],
      [parseEstimatedTime_agrees], [calculateTotalTime_agrees],
      [copies_of_input_agrees] and [extraction_agrees] relate the two. *)

From Stdlib Require Import ZArith List String Ascii Bool Lia Permutation Sorted.
Import ListNotations.

Open Scope string_scope.
Open Scope Z_scope.

(** ** Characters *)

Module Char.

Definition code (c : ascii) : N := N_of_ascii c.

(** [\d] *)
Definition is_digit (c : ascii) : bool :=
  ((48 <=? code c) && (code c <=? 57))%N.

(** [\s], which is also the set [String.prototype.trim] strips: TAB, LF, VT,
    FF, CR, SPACE and NBSP are the members below 256. *)
Definition is_space (c : ascii) : bool :=
  (((9 <=? code c) && (code c <=? 13)) || (code c =? 32) || (code c =? 160))%N.

(** [.] without the [s] flag: anything but a line terminator. *)
Definition is_dot (c : ascii) : bool :=
  negb ((code c =? 10) || (code c =? 13))%N.

(** Canonicalisation under the [i] flag (no [u] flag), as far as comparing
    with an ASCII literal goes: ASCII letters are upper-cased, and a code
    unit >= 128 never canonicalises to one below 128. *)
Definition upper (c : ascii) : ascii :=
  if ((97 <=? code c) && (code c <=? 122))%N
  then ascii_of_N (code c - 32) else c.

(** Does [c] match the ASCII literal [lit] up to case? *)
Definition eq_ci (lit c : ascii) : bool := Ascii.eqb (upper lit) (upper c).

Definition digit_val (c : ascii) : Z := Z.of_N (code c) - 48.

Definition of_digit (d : Z) : ascii := ascii_of_N (Z.to_N (48 + d)).

Definition LF : ascii := ascii_of_N 10.

End Char.

(** ** Strings *)

Module Str.

Fixpoint all (p : ascii -> bool) (s : string) : bool :=
  match s with
  | EmptyString => true
  | String c t => p c && all p t
  end.

Fixpoint drop_while (p : ascii -> bool) (s : string) : string :=
  match s with
  | EmptyString => EmptyString
  | String c t => if p c then drop_while p t else s
  end.

Fixpoint take_while (p : ascii -> bool) (s : string) : string :=
  match s with
  | EmptyString => EmptyString
  | String c t => if p c then String c (take_while p t) else EmptyString
  end.

Definition is_empty (s : string) : bool :=
  match s with EmptyString => true | _ => false end.

(** Strips the trailing characters satisfying [p]. *)
Fixpoint drop_while_end (p : ascii -> bool) (s : string) : string :=
  match s with
  | EmptyString => EmptyString
  | String c t =>
      let t' := drop_while_end p t in
      if p c && is_empty t' then EmptyString else String c t'
  end.

(** [s.trim()] *)
Definition trim (s : string) : string :=
  drop_while_end Char.is_space (drop_while Char.is_space s).

(** [s.endsWith(suffix)] *)
Fixpoint endsWith (s suffix : string) : bool :=
  String.eqb s suffix ||
  match s with
  | EmptyString => false
  | String _ t => endsWith t suffix
  end.

(** [s.split(sep)] for a one-character separator: never empty. *)
Fixpoint split (sep : ascii) (s : string) : list string :=
  match s with
  | EmptyString => [EmptyString]
  | String c t =>
      if Ascii.eqb c sep then EmptyString :: split sep t
      else match split sep t with
           | seg :: segs => String c seg :: segs
           | [] => [String c EmptyString]
           end
  end.

(** [parts.join(sep)] *)
Fixpoint join (sep : string) (parts : list string) : string :=
  match parts with
  | [] => EmptyString
  | [p] => p
  | p :: rest => p ++ sep ++ join sep rest
  end.

Fixpoint count (c : ascii) (s : string) : nat :=
  match s with
  | EmptyString => O
  | String d t => if Ascii.eqb d c then S (count c t) else count c t
  end.

(** [s.includes(sub)] *)
Fixpoint includes (s sub : string) : bool :=
  String.prefix sub s ||
  match s with
  | EmptyString => false
  | String _ t => includes t sub
  end.

(** JavaScript truthiness of a string. *)
Definition truthy (s : string) : bool := negb (is_empty s).

End Str.

(** ** Numbers as text *)

Module Num.

(** Decimal digits of a non-negative integer, as in [`${n}`]; [fuel] bounds
    the number of digits. *)
Fixpoint digits (fuel : nat) (n : Z) : string :=
  match fuel with
  | O => String (Char.of_digit (n mod 10)) EmptyString
  | S f =>
      if n <? 10 then String (Char.of_digit n) EmptyString
      else digits f (n / 10) ++ String (Char.of_digit (n mod 10)) EmptyString
  end.

(** [`${n}`] for an integer [n]. *)
Definition toString (n : Z) : string :=
  if n <? 0 then String "-" (digits (Z.to_nat (Z.log2 (- n))) (- n))
  else digits (Z.to_nat (Z.log2 n)) n.

(** Value of the leading run of decimal digits, folded from the left. *)
Fixpoint digits_value (acc : Z) (s : string) : Z :=
  match s with
  | EmptyString => acc
  | String c t =>
      if Char.is_digit c then digits_value (10 * acc + Char.digit_val c) t
      else acc
  end.

Definition starts_with_digit (s : string) : bool :=
  match s with
  | String c _ => Char.is_digit c
  | EmptyString => false
  end.

(** [Number.parseInt(s, 10)], before the result is rounded to a double:
    leading white space is skipped, one sign is accepted, the longest run
    of digits is read and the integer it denotes is returned; [None] is
    [NaN].  [Double.parseInt] is the number the code gets. *)
Definition parseInt (s : string) : option Z :=
  match Str.drop_while Char.is_space s with
  | EmptyString => None
  | String c t =>
      if Ascii.eqb c "-" then
        if starts_with_digit t then Some (- digits_value 0 t) else None
      else if Ascii.eqb c "+" then
        if starts_with_digit t then Some (digits_value 0 t) else None
      else if Char.is_digit c then Some (digits_value 0 (String c t))
      else None
  end.

End Num.

(** ** [formatSeconds] *)

Definition push_if {A} (b : bool) (x : A) (parts : list A) : list A :=
  if b then parts ++ [x] else parts.

(** [formatSeconds] on exact integers: [%] is the truncating remainder,
    [Math.floor(a / b)] the floor of the quotient.  This is what the code
    prints for [0 <= totalSeconds < 2^53]; [Js.formatSeconds] is the
    function on doubles. *)
Definition formatSeconds (totalSeconds : Z) : string :=
  let hours := totalSeconds / 3600 in
  let minutes := Z.rem totalSeconds 3600 / 60 in
  let seconds := Z.rem totalSeconds 60 in
  let parts := [] in
  let parts := push_if (hours >? 0) (Num.toString hours ++ "h") parts in
  let parts := push_if (minutes >? 0) (Num.toString minutes ++ "m") parts in
  let parts :=
    push_if ((seconds >? 0) || (Nat.eqb (List.length parts) 0))
            (Num.toString seconds ++ "s") parts in
  Str.join " " parts.

(** ** Regular expressions

    The fragment of ECMAScript regular expressions the source uses, with
    the backtracking semantics of the language: alternatives and
    quantifiers are tried in priority order and the first overall success
    is kept.  Quantifiers only ever apply to a single character class.
    Every capturing pattern of the source has the shape
    [before (group) after] with one group. *)

Module Regex.

Inductive regex : Type :=
| Eps                                        (* empty *)
| Chr (p : ascii -> bool)                    (* one character of a class *)
| Star (greedy : bool) (p : ascii -> bool)   (* c* and c*? *)
| Seq (r1 r2 : regex)
| Alt (r1 r2 : regex)                        (* r1|r2, r1 first *)
| Eoi.                                       (* $ without the m flag *)

(** c+ and c+? *)
Definition Plus (greedy : bool) (p : ascii -> bool) : regex :=
  Seq (Chr p) (Star greedy p).

(** c? (greedy) *)
Definition Opt (p : ascii -> bool) : regex := Alt (Chr p) Eps.

(** A literal, compared up to case when [ci] (the [i] flag). *)
Fixpoint Lit (ci : bool) (s : string) : regex :=
  match s with
  | EmptyString => Eps
  | String c t =>
      Seq (Chr (if ci then Char.eq_ci c else Ascii.eqb c)) (Lit ci t)
  end.

Section Matcher.
Context {R : Type}.

Fixpoint star (greedy : bool) (p : ascii -> bool) (inp : string)
         (k : string -> option R) : option R :=
  match inp with
  | EmptyString => k inp
  | String c t =>
      if greedy then
        if p c then
          match star greedy p t k with
          | Some r => Some r
          | None => k inp
          end
        else k inp
      else
        match k inp with
        | Some r => Some r
        | None => if p c then star greedy p t k else None
        end
  end.

(** [run r inp k]: match [r] at the head of [inp] and hand the rest of
    the input to the continuation; [None] makes the matcher backtrack. *)
Fixpoint run (r : regex) (inp : string) (k : string -> option R)
  : option R :=
  match r with
  | Eps => k inp
  | Chr p =>
      match inp with
      | String c t => if p c then k t else None
      | EmptyString => None
      end
  | Star g p => star g p inp k
  | Seq r1 r2 => run r1 inp (fun rest => run r2 rest k)
  | Alt r1 r2 =>
      match run r1 inp k with
      | Some x => Some x
      | None => run r2 inp k
      end
  | Eoi =>
      match inp with
      | EmptyString => k inp
      | String _ _ => None
      end
  end.
End Matcher.

Record pattern : Type := Pattern {
  before : regex;
  group : regex;
  after : regex
}.

(** The text consumed between two suffixes of the same input. *)
Definition consumed (from rest : string) : string :=
  substring 0 (String.length from - String.length rest) from.

(** A match attempt at the head of [inp]; the result is capture group 1. *)
Definition match_here (p : pattern) (inp : string) : option string :=
  run (before p) inp (fun s1 =>
    run (group p) s1 (fun s2 =>
      run (after p) s2 (fun _ => Some (consumed s1 s2)))).

(** [str.match(p)] without the [g] flag: the leftmost start position that
    admits a match; [match[1]] is returned. *)
Fixpoint exec (p : pattern) (inp : string) : option string :=
  match match_here p inp with
  | Some cap => Some cap
  | None =>
      match inp with
      | EmptyString => None
      | String _ t => exec p t
      end
  end.

(** [/^\d+$/.test(s)] *)
Definition test_all_digits (s : string) : bool :=
  match run (Seq (Plus true Char.is_digit) Eoi) s (fun _ => Some tt) with
  | Some _ => true
  | None => false
  end.

End Regex.

Import Regex.

(** ** [parseEstimatedTime] *)

Definition colon_or_underscore (c : ascii) : bool :=
  Ascii.eqb c "_" || Ascii.eqb c ":".

Definition colon_or_space (c : ascii) : bool :=
  Ascii.eqb c ":" || Char.is_space c.

Definition line_end : regex := Alt (Chr (Ascii.eqb Char.LF)) Eoi.

(** [/;\s*estimated printing time.*?=\s*(.+?)(?:\n|$)/i] *)
Definition pat_estimated : pattern :=
  Pattern
    (Seq (Lit true ";") (Seq (Star true Char.is_space)
       (Seq (Lit true "estimated printing time")
          (Seq (Star false Char.is_dot)
             (Seq (Lit true "=") (Star true Char.is_space))))))
    (Plus false Char.is_dot)
    line_end.

(** [/;\s*TIME[_:]?\s*(\d+)/i] *)
Definition pat_time : pattern :=
  Pattern
    (Seq (Lit true ";") (Seq (Star true Char.is_space)
       (Seq (Lit true "TIME")
          (Seq (Opt colon_or_underscore) (Star true Char.is_space)))))
    (Plus true Char.is_digit)
    Eps.

(** [/;\s*total estimated time[:\s]*(.+?)(?:\n|$)/i] *)
Definition pat_total : pattern :=
  Pattern
    (Seq (Lit true ";") (Seq (Star true Char.is_space)
       (Seq (Lit true "total estimated time") (Star true colon_or_space))))
    (Plus false Char.is_dot)
    line_end.

Definition timePatterns : list pattern :=
  [pat_estimated; pat_time; pat_total].

(** What the loop body does with [match[1]]. *)
Definition render_capture (cap : string) : string :=
  let value := Str.trim cap in
  if test_all_digits value then
    match Num.parseInt value with
    | Some seconds => formatSeconds seconds
    | None => "NaNs"
    end
  else value.

Fixpoint first_match (patterns : list pattern) (gcode : string)
  : option string :=
  match patterns with
  | [] => None
  | pattern :: rest =>
      match exec pattern gcode with
      | Some cap => Some (render_capture cap)
      | None => first_match rest gcode
      end
  end.

Definition parseEstimatedTime (gcode : string) : option string :=
  first_match timePatterns gcode.

(** ** [parseTimeToSeconds] *)

(** [/(\d+)\s*h/i], [/(\d+)\s*m/i], [/(\d+)\s*s/i] *)
Definition pat_unit (u : ascii) : pattern :=
  Pattern Eps (Plus true Char.is_digit)
          (Seq (Star true Char.is_space) (Lit true (String u EmptyString))).

(** [Number.parseInt] of a capture of [\d+] is never [NaN]. *)
Definition int_of_capture (cap : string) : Z :=
  match Num.parseInt cap with
  | Some n => n
  | None => 0
  end.

(** [parseTimeToSeconds] on exact integers: what the code returns as long
    as the sum is below 2^53; [Js.parseTimeToSeconds] adds doubles. *)
Definition parseTimeToSeconds (timeStr : string) : Z :=
  if test_all_digits (Str.trim timeStr) then
    int_of_capture (Str.trim timeStr)
  else
    let totalSeconds := 0 in
    let hourMatch := exec (pat_unit "h") timeStr in
    let minMatch := exec (pat_unit "m") timeStr in
    let secMatch := exec (pat_unit "s") timeStr in
    let totalSeconds :=
      match hourMatch with
      | Some h => totalSeconds + int_of_capture h * 3600
      | None => totalSeconds
      end in
    let totalSeconds :=
      match minMatch with
      | Some m => totalSeconds + int_of_capture m * 60
      | None => totalSeconds
      end in
    let totalSeconds :=
      match secMatch with
      | Some s => totalSeconds + int_of_capture s
      | None => totalSeconds
      end in
    totalSeconds.

Definition nl : string := String Char.LF EmptyString.

(** ** Data model ([types.ts]) *)

Definition ArrayBuffer : Type := list Byte.byte.

(** A browser [File]: [arrayBuffer] is [None] when reading it rejects. *)
Module File.
Record t : Type := Build {
  name : string;
  arrayBuffer : option ArrayBuffer
}.
End File.

Module ParsedGCodeInfo.
Record t : Type := Build {
  gcode : string;
  lineCount : Z;
  estimatedTime : option string;
  plateNumber : Z
}.
End ParsedGCodeInfo.

Module ExtractedPlates.
Record t : Type := Build {
  plates : list ParsedGCodeInfo.t;
  originalZip : ArrayBuffer;
  fileName : string
}.
End ExtractedPlates.

Module GCodeFile.
Record t : Type := Build {
  id : string;
  fileName : string;
  displayName : string;
  gcode : string;
  originalZip : ArrayBuffer;
  lineCount : Z;
  estimatedTime : option string;
  copies : Z;
  plateNumber : option Z;
  sourceFile : string
}.

(** [{ ...file, copies }] *)
Definition with_copies (file : t) (n : Z) : t :=
  Build (id file) (fileName file) (displayName file) (gcode file)
        (originalZip file) (lineCount file) (estimatedTime file) n
        (plateNumber file) (sourceFile file).

Definition with_id (file : t) (i : string) : t :=
  Build i (fileName file) (displayName file) (gcode file)
        (originalZip file) (lineCount file) (estimatedTime file) (copies file)
        (plateNumber file) (sourceFile file).
End GCodeFile.

(** What extraction throws when every member it awaits decodes;
    [Js.Thrown] has the other errors as well. *)
Inductive Error : Type :=
| FileProcessingError (message : string).

Definition message_of (e : Error) : string :=
  match e with FileProcessingError m => m end.

(** ** The archive as JSZip presents it

    Here every member decodes; [Js.Archive] has the members for which
    [async('string')] rejects. *)

Module JSZip.

Record ZipObject : Type := Entry {
  dir : bool;
  text : string      (* what [async('string')] resolves to *)
}.

(** [zip.files]: member names in the order [Object.keys] lists them. *)
Definition t : Type := list (string * ZipObject).

Fixpoint get (files : t) (name : string) : option ZipObject :=
  match files with
  | [] => None
  | (n, o) :: rest => if String.eqb n name then Some o else get rest name
  end.

(** [zip.file(name)]: the entry of that name unless it is a directory. *)
Definition file (zip : t) (name : string) : option ZipObject :=
  match get zip name with
  | Some o => if dir o then None else Some o
  | None => None
  end.

Definition keys (zip : t) : list string := map fst zip.

(** An object has each key once. *)
Definition wf (zip : t) : Prop := NoDup (keys zip).

End JSZip.

(** ** [Array.prototype.sort] on strings

    The default comparator orders strings by their code units; the sort is
    stable. *)

Fixpoint insert_sorted (x : string) (l : list string) : list string :=
  match l with
  | [] => [x]
  | y :: t => if String.leb x y then x :: l else y :: insert_sorted x t
  end.

Definition sort (l : list string) : list string :=
  fold_right insert_sorted [] l.

(** ** [extractAllPlatesFromZip] and [processUploadedFile] *)

Definition quote : string := String (ascii_of_N 34) EmptyString.

Definition invalid_archive_message (name : string) : string :=
  quote ++ name ++ quote ++
  " is not a valid ZIP archive. Make sure you're uploading a .gcode.3mf file.".

Definition no_gcode_message (name : string) : string :=
  quote ++ name ++ quote ++
  " doesn't contain any G-code. Make sure you exported it as " ++ quote ++
  "All plates sliced file" ++ quote ++ " or " ++ quote ++
  "Plate sliced file" ++ quote ++ " from Bambu Studio.".

(** The record both discovery loops push. *)
Definition plate_record (gcodeContent : string) (plateNum : Z)
  : ParsedGCodeInfo.t :=
  let lineCount := Z.of_nat (List.length (Str.split Char.LF gcodeContent)) in
  let estimatedTime := parseEstimatedTime gcodeContent in
  ParsedGCodeInfo.Build gcodeContent lineCount estimatedTime plateNum.

Definition gcodePath (plateNum : Z) : string :=
  "Metadata/plate_" ++ Num.toString plateNum ++ ".gcode".

(** [for (plateNum = ...; plateNum <= 16; plateNum++)], with [n] iterations
    left. *)
Fixpoint standard_loop (zip : JSZip.t) (n : nat) (plateNum : Z)
         (plates : list ParsedGCodeInfo.t) : list ParsedGCodeInfo.t :=
  match n with
  | O => plates
  | S n' =>
      let plates :=
        match JSZip.file zip (gcodePath plateNum) with
        | Some gcodeFile =>
            (plates ++ [plate_record (JSZip.text gcodeFile) plateNum])%list
        | None => plates
        end in
      standard_loop zip n' (plateNum + 1) plates
  end.

Definition is_gcode_member (zip : JSZip.t) (name : string) : bool :=
  Str.endsWith name ".gcode" &&
  match JSZip.get zip name with
  | Some o => negb (JSZip.dir o)
  | None => false
  end.

Definition gcodeFiles (zip : JSZip.t) : list string :=
  sort (filter (is_gcode_member zip) (JSZip.keys zip)).

(** [for (i = ...; i < gcodeFiles.length; i++)] over the names still to
    visit. *)
Fixpoint fallback_loop (zip : JSZip.t) (names : list string) (i : Z)
         (plates : list ParsedGCodeInfo.t) : list ParsedGCodeInfo.t :=
  match names with
  | [] => plates
  | name :: rest =>
      let plates :=
        match JSZip.file zip name with
        | Some o =>
            if Str.truthy (JSZip.text o)
            then (plates ++ [plate_record (JSZip.text o) (i + 1)])%list
            else plates
        | None => plates
        end in
      fallback_loop zip rest (i + 1) plates
  end.

Definition is_nil {A} (l : list A) : bool := Nat.eqb (List.length l) 0.

Section Extraction.

(** [JSZip.loadAsync]: [None] when the buffer is not a ZIP container. *)
Variable loadAsync : ArrayBuffer -> option JSZip.t.

(** The [try] block. *)
Definition open_archive (file : File.t) : option (ArrayBuffer * JSZip.t) :=
  match File.arrayBuffer file with
  | None => None
  | Some arrayBuffer =>
      match loadAsync arrayBuffer with
      | None => None
      | Some zip => Some (arrayBuffer, zip)
      end
  end.

Definition discover (zip : JSZip.t) : list ParsedGCodeInfo.t :=
  let plates := standard_loop zip 16 1 [] in
  if is_nil plates then fallback_loop zip (gcodeFiles zip) 0 plates
  else plates.

Definition extractAllPlatesFromZip (file : File.t)
  : Error + ExtractedPlates.t :=
  match open_archive file with
  | None =>
      inl (FileProcessingError (invalid_archive_message (File.name file)))
  | Some (arrayBuffer, zip) =>
      let plates := discover zip in
      if is_nil plates then
        inl (FileProcessingError (no_gcode_message (File.name file)))
      else
        inr (ExtractedPlates.Build plates arrayBuffer (File.name file))
  end.

(** [generateId] reads the clock and a random source: the [n]-th call of a
    session returns [generateId n]. *)
Variable generateId : nat -> string.

Definition to_file (fileName : string) (originalZip : ArrayBuffer)
           (isMultiPlate : bool) (i : string) (plate : ParsedGCodeInfo.t)
  : GCodeFile.t :=
  GCodeFile.Build
    i fileName
    (if isMultiPlate
     then fileName ++ " — Plate " ++
          Num.toString (ParsedGCodeInfo.plateNumber plate)
     else fileName)
    (ParsedGCodeInfo.gcode plate)
    originalZip
    (ParsedGCodeInfo.lineCount plate)
    (ParsedGCodeInfo.estimatedTime plate)
    1
    (Some (ParsedGCodeInfo.plateNumber plate))
    fileName.

(** [plates.map(...)], the [n]-th identifier going to the first plate. *)
Fixpoint map_plates (fileName : string) (originalZip : ArrayBuffer)
         (isMultiPlate : bool) (n : nat) (plates : list ParsedGCodeInfo.t)
  : list GCodeFile.t :=
  match plates with
  | [] => []
  | plate :: rest =>
      to_file fileName originalZip isMultiPlate (generateId n) plate
      :: map_plates fileName originalZip isMultiPlate (S n) rest
  end.

(** Returns the files and the number of identifiers drawn so far. *)
Definition processUploadedFile (file : File.t) (n : nat)
  : Error + (list GCodeFile.t * nat) :=
  match extractAllPlatesFromZip file with
  | inl e => inl e
  | inr e =>
      let plates := ExtractedPlates.plates e in
      let isMultiPlate := (1 <? List.length plates)%nat in
      inr (map_plates (ExtractedPlates.fileName e)
                      (ExtractedPlates.originalZip e) isMultiPlate n plates,
           (n + List.length plates)%nat)
  end.

End Extraction.

(** ** [calculateTotalTime] *)

(** Truthiness of a [string | null]. *)
Definition truthy_opt (s : option string) : bool :=
  match s with
  | Some e => Str.truthy e
  | None => false
  end.

(** The loop on exact integers: what the code accumulates as long as the
    sum is below 2^53; [Js.total_loop] accumulates doubles. *)
Fixpoint total_loop (files : list GCodeFile.t) (totalSeconds : Z)
         (hasAnyTime : bool) : Z * bool :=
  match files with
  | [] => (totalSeconds, hasAnyTime)
  | file :: rest =>
      match GCodeFile.estimatedTime file with
      | Some e =>
          if Str.truthy e then
            let seconds := parseTimeToSeconds e in
            total_loop rest (totalSeconds + seconds * GCodeFile.copies file)
                       true
          else total_loop rest totalSeconds hasAnyTime
      | None => total_loop rest totalSeconds hasAnyTime
      end
  end.

Definition calculateTotalTime (files : list GCodeFile.t) : option string :=
  let '(totalSeconds, hasAnyTime) := total_loop files 0 false in
  if negb hasAnyTime then None else Some (formatSeconds totalSeconds).

(** ** The work queue ([App.tsx], [FileList.tsx]) *)

Module ProcessingState.
Record t : Type := Build {
  isProcessing : bool;
  progress : Z;
  message : string
}.
Definition idle : t := Build false 0 EmptyString.
End ProcessingState.

(** The [useState] cells of [App] that the callbacks below write. *)
Module AppState.
Record t : Type := Build {
  files : list GCodeFile.t;
  processing : ProcessingState.t;
  error : option string
}.
Definition initial : t := Build [] ProcessingState.idle None.
End AppState.

(** [handleUpdateCopies] *)
Definition handleUpdateCopies (id : string) (copies : Z)
           (prev : list GCodeFile.t) : list GCodeFile.t :=
  map (fun file =>
         if String.eqb (GCodeFile.id file) id
         then GCodeFile.with_copies file copies else file) prev.

(** [handleRemove] *)
Definition handleRemove (id : string) (st : AppState.t) : AppState.t :=
  AppState.Build
    (filter (fun file => negb (String.eqb (GCodeFile.id file) id))
            (AppState.files st))
    (AppState.processing st) None.

(** [handleClearAll] *)
Definition handleClearAll (st : AppState.t) : AppState.t :=
  AppState.Build [] (AppState.processing st) None.

(** [handleReorder] *)
Definition handleReorder (reorderedFiles : list GCodeFile.t)
           (st : AppState.t) : AppState.t :=
  AppState.Build reorderedFiles (AppState.processing st) (AppState.error st).

(** The number [handleCopiesChange] passes on for the text of the input
    field: [Math.max(1, Math.min(99, Number.parseInt(value, 10) || 1))]. *)
Definition copies_of_input (value : string) : Z :=
  let parsed :=
    match Num.parseInt value with
    | Some n => if n =? 0 then 1 else n
    | None => 1
    end in
  Z.max 1 (Z.min 99 parsed).

Definition handleCopiesChange (file : GCodeFile.t) (value : string)
           (prev : list GCodeFile.t) : list GCodeFile.t :=
  handleUpdateCopies (GCodeFile.id file) (copies_of_input value) prev.

Definition incrementCopies (file : GCodeFile.t) (prev : list GCodeFile.t)
  : list GCodeFile.t :=
  if GCodeFile.copies file <? 99
  then handleUpdateCopies (GCodeFile.id file) (GCodeFile.copies file + 1) prev
  else prev.

Definition decrementCopies (file : GCodeFile.t) (prev : list GCodeFile.t)
  : list GCodeFile.t :=
  if GCodeFile.copies file >? 1
  then handleUpdateCopies (GCodeFile.id file) (GCodeFile.copies file - 1) prev
  else prev.

(** [a.splice(i, 1)] and [a.splice(j, 0, x)] *)
Definition remove_at {A} (i : nat) (l : list A) : list A :=
  (firstn i l ++ skipn (S i) l)%list.

Definition insert_at {A} (j : nat) (x : A) (l : list A) : list A :=
  (firstn j l ++ x :: skipn j l)%list.

(** [handleDragEnd]: the new order handed to [onReorder], if any.  The
    indices are those of rendered items, so [files[dragIndex]] exists. *)
Definition handleDragEnd (dragIndex dragOverIndex : option nat)
           (files : list GCodeFile.t) : option (list GCodeFile.t) :=
  match dragIndex, dragOverIndex with
  | Some i, Some j =>
      if negb (Nat.eqb i j) then
        match nth_error files i with
        | Some draggedItem =>
            Some (insert_at j draggedItem (remove_at i files))
        | None => None
        end
      else None
  | _, _ => None
  end.

Section Queue.

Variable loadAsync : ArrayBuffer -> option JSZip.t.
Variable generateId : nat -> string.

(** The loop of [handleFilesSelected], [n] identifiers drawn so far, on
    archives whose members decode: only a [FileProcessingError] is then
    thrown.  [Js.batch_loop] has the other branch of the [catch]. *)
Fixpoint batch_loop (selectedFiles : list File.t) (n : nat)
         (newFiles : list GCodeFile.t) (errors : list string)
  : list GCodeFile.t * list string * nat :=
  match selectedFiles with
  | [] => (newFiles, errors, n)
  | file :: rest =>
      match processUploadedFile loadAsync generateId file n with
      | inr (processedFiles, n') =>
          batch_loop rest n' (newFiles ++ processedFiles)%list errors
      | inl (FileProcessingError message) =>
          batch_loop rest n newFiles (errors ++ [message])%list
      end
  end.

Definition handleFilesSelected (selectedFiles : list File.t)
           (st : AppState.t) (n : nat) : AppState.t * nat :=
  let '(newFiles, errors, n') := batch_loop selectedFiles n [] [] in
  (AppState.Build
     (AppState.files st ++ newFiles)%list
     ProcessingState.idle
     (if (0 <? List.length errors)%nat
      then Some (Str.join nl errors) else None),
   n').

(** What the user can do to the queue; item events carry the position of
    the rendered item they come from. *)
Inductive event : Type :=
| FilesSelected (selectedFiles : list File.t)
| CopiesChange (index : nat) (value : string)
| IncrementCopies (index : nat)
| DecrementCopies (index : nat)
| Remove (index : nat)
| DragEnd (dragIndex dragOverIndex : option nat)
| ClearAll.

Definition set_files (st : AppState.t) (files : list GCodeFile.t)
  : AppState.t :=
  AppState.Build files (AppState.processing st) (AppState.error st).

Definition on_item (st : AppState.t) (index : nat)
           (h : GCodeFile.t -> AppState.t) : AppState.t :=
  match nth_error (AppState.files st) index with
  | Some file => h file
  | None => st
  end.

Definition step (s : AppState.t * nat) (e : event) : AppState.t * nat :=
  let '(st, n) := s in
  match e with
  | FilesSelected selectedFiles => handleFilesSelected selectedFiles st n
  | CopiesChange index value =>
      (on_item st index (fun file =>
         set_files st (handleCopiesChange file value (AppState.files st))),
       n)
  | IncrementCopies index =>
      (on_item st index (fun file =>
         set_files st (incrementCopies file (AppState.files st))), n)
  | DecrementCopies index =>
      (on_item st index (fun file =>
         set_files st (decrementCopies file (AppState.files st))), n)
  | Remove index =>
      (on_item st index (fun file => handleRemove (GCodeFile.id file) st),
       n)
  | DragEnd dragIndex dragOverIndex =>
      (match handleDragEnd dragIndex dragOverIndex (AppState.files st) with
       | Some reorderedFiles => handleReorder reorderedFiles st
       | None => st
       end, n)
  | ClearAll => (handleClearAll st, n)
  end.

Definition run_events (s : AppState.t * nat) (es : list event)
  : AppState.t * nat :=
  fold_left step es s.

End Queue.

(** Copy counts stay within [1, 99]. *)
Definition copies_ok (files : list GCodeFile.t) : Prop :=
  Forall (fun file => 1 <= GCodeFile.copies file <= 99) files.

(** ** Deterministic readings of the patterns

    What the backtracking matcher computes on the simplest patterns, written
    as a single left-to-right scan. *)

(** One attempt of [(\d+)\s*u] at the head of [inp]. *)
Definition unit_here (u : ascii) (inp : string) : option string :=
  match inp with
  | EmptyString => None
  | String c t =>
      if Char.is_digit c then
        let s2 := Str.drop_while Char.is_digit t in
        match Str.drop_while Char.is_space s2 with
        | String c' _ => if Char.eq_ci u c' then Some (consumed inp s2) else None
        | EmptyString => None
        end
      else None
  end.

(** A unit letter is neither a digit nor white space, even up to case. *)
Definition unit_letter (u : ascii) : Prop :=
  (forall c, Char.is_digit c = true -> Char.eq_ci u c = false) /\
  (forall c, Char.is_space c = true -> Char.eq_ci u c = false) /\
  Char.eq_ci u u = true.

(** ** Closed forms of the two discovery loops *)

(** [start; start + 1; ...], [len] numbers. *)
Fixpoint zseq (start : Z) (len : nat) : list Z :=
  match len with
  | O => []
  | S l => start :: zseq (start + 1) l
  end.

(** What one iteration of the probing loop contributes. *)
Definition probe (zip : JSZip.t) (plateNum : Z) : list ParsedGCodeInfo.t :=
  match JSZip.file zip (gcodePath plateNum) with
  | Some gcodeFile => [plate_record (JSZip.text gcodeFile) plateNum]
  | None => []
  end.

(** The decoded text of a member, empty when there is no such file. *)
Definition member_text (zip : JSZip.t) (name : string) : string :=
  match JSZip.file zip name with
  | Some o => JSZip.text o
  | None => EmptyString
  end.

(** Names paired with their 1-based positions, counted from [first]. *)
Fixpoint number_from (first : Z) (names : list string) : list (Z * string) :=
  match names with
  | [] => []
  | name :: rest => (first, name) :: number_from (first + 1) rest
  end.

(** What one iteration of the fallback loop contributes. *)
Definition fallback_record (zip : JSZip.t) (entry : Z * string)
  : list ParsedGCodeInfo.t :=
  match JSZip.file zip (snd entry) with
  | Some o =>
      if Str.truthy (JSZip.text o)
      then [plate_record (JSZip.text o) (fst entry)] else []
  | None => []
  end.


Definition newline_free (seg : string) : Prop := Str.count Char.LF seg = O.



(** ** Sample archives *)

Module Sample.

Definition upload (name : string) : File.t := File.Build name (Some []).

(** A loader that opens every buffer as the given archive. *)
Definition opens_as (zip : JSZip.t) : ArrayBuffer -> option JSZip.t :=
  fun _ => Some zip.

(** A loader that rejects every buffer. *)
Definition rejects : ArrayBuffer -> option JSZip.t := fun _ => None.

Definition member (name text : string) : string * JSZip.ZipObject :=
  (name, JSZip.Entry false text).

Definition folder (name : string) : string * JSZip.ZipObject :=
  (name, JSZip.Entry true EmptyString).

Definition two_plates : JSZip.t :=
  [ folder "Metadata/";
    member "Metadata/plate_1.gcode" ("G28" ++ nl ++ "G1 X1" ++ nl);
    member "Metadata/plate_2.gcode" ";TIME:90";
    member "Metadata/plate_1.png" "png" ].

Definition b_then_a : JSZip.t :=
  [ member "b.gcode" "G1 X2"; member "a.gcode" "G1 X1" ].

Definition a_then_b : JSZip.t :=
  [ member "a.gcode" "G1 X1"; member "b.gcode" "G1 X2" ].


Definition plate_17 : JSZip.t :=
  [ member "Metadata/plate_17.gcode" "G28"; member "3D/model.model" "xml" ].


End Sample.

(** ** Reference readings for the estimates *)

(** A non-empty run of digits. *)
Definition bare_integer (s : string) : bool :=
  Str.truthy s && Str.all Char.is_digit s.

(** The seconds one file adds to the total: its estimate read as a duration,
    once per copy; nothing when it has no estimate. *)
Definition estimate_seconds (file : GCodeFile.t) : Z :=
  match GCodeFile.estimatedTime file with
  | Some e => parseTimeToSeconds e * GCodeFile.copies file
  | None => 0
  end.

Definition sum_Z (l : list Z) : Z := fold_right Z.add 0 l.

(** A queue entry as [processUploadedFile] makes it, apart from its
    identifier. *)
Definition sample_file (estimate : option string) (copies : Z) : GCodeFile.t :=
  GCodeFile.Build "id" "job.3mf" "job.3mf" "G28" [] 1 estimate copies
                  (Some 1) "job.3mf".

Definition estimate_only_label : JSZip.t :=
  [ Sample.member "Metadata/plate_1.gcode" ";total estimated time: " ].

Definition carries_estimate (file : GCodeFile.t) : bool :=
  match GCodeFile.estimatedTime file with
  | Some _ => true
  | None => false
  end.

Definition carries_nonempty_estimate (file : GCodeFile.t) : bool :=
  truthy_opt (GCodeFile.estimatedTime file).

(** ** Reference readings for a batch of uploads *)

(** A queue entry without its identifier. *)
Definition strip (file : GCodeFile.t) : GCodeFile.t :=
  GCodeFile.with_id file EmptyString.

(** The entries one upload adds to the queue, identifiers apart. *)
Definition files_of_upload (loadAsync : ArrayBuffer -> option JSZip.t)
           (file : File.t) : list GCodeFile.t :=
  match extractAllPlatesFromZip loadAsync file with
  | inr e =>
      map (to_file (ExtractedPlates.fileName e) (ExtractedPlates.originalZip e)
                   (1 <? List.length (ExtractedPlates.plates e))%nat
                   EmptyString)
          (ExtractedPlates.plates e)
  | inl _ => []
  end.

(** The message one upload adds to the error list. *)
Definition errors_of_upload (loadAsync : ArrayBuffer -> option JSZip.t)
           (file : File.t) : list string :=
  match extractAllPlatesFromZip loadAsync file with
  | inr _ => []
  | inl e => [message_of e]
  end.

Definition fails (loadAsync : ArrayBuffer -> option JSZip.t) (file : File.t)
  : bool :=
  match extractAllPlatesFromZip loadAsync file with
  | inr _ => false
  | inl _ => true
  end.

Definition constant_id : nat -> string := fun _ => "id".

(** A loader for a batch: a buffer of one byte opens as two plates, any
    other is rejected. *)
Definition sample_loader (buf : ArrayBuffer) : option JSZip.t :=
  match buf with
  | [_] => Some Sample.two_plates
  | _ => None
  end.

Definition good_upload : File.t := File.Build "good.gcode.3mf" (Some [Byte.x00]).
Definition bad_upload : File.t := File.Build "bad.3mf" (Some []).

(** ** The drop zone ([DropZone.tsx]) *)

(** The filter of [handleDrop]. *)
Definition accepted (file : File.t) : bool :=
  Str.endsWith (File.name file) ".gcode.3mf" ||
  Str.endsWith (File.name file) ".3mf".

(** [handleDrop]: the argument [onFilesSelected] is called with, [None] when
    it is not called. *)
Definition handleDrop (disabled : bool) (dropped : list File.t)
  : option (list File.t) :=
  if disabled then None
  else
    let files := filter accepted dropped in
    if (0 <? List.length files)%nat then Some files else None.

(** [handleFileInput]: [e.target.files] may be [null]. *)
Definition handleFileInput (chosen : option (list File.t))
  : option (list File.t) :=
  let files := match chosen with Some l => l | None => [] end in
  if (0 <? List.length files)%nat then Some files else None.

(** ** Totals shown by [App] and [FileList] *)

(** [files.reduce((sum, f) => sum + f.copies, 0)] *)
Definition totalPrints (files : list GCodeFile.t) : Z :=
  fold_left (fun sum f => sum + GCodeFile.copies f) files 0.

(** [files.reduce((sum, f) => sum + f.lineCount * f.copies, 0)] *)
Definition totalLines (files : list GCodeFile.t) : Z :=
  fold_left
    (fun sum f => sum + GCodeFile.lineCount f * GCodeFile.copies f) files 0.

(** The name [handleCombineAndDownload] gives the download. *)
Definition combined_filename (files : list GCodeFile.t) : string :=
  "combined_" ++ Num.toString (totalPrints files) ++ "_prints.gcode.3mf".

(** ** Further reference readings *)

(** Is there a file member under the conventional name of plate [n]? *)
Definition conventional_present (zip : JSZip.t) (n : Z) : bool :=
  match JSZip.file zip (gcodePath n) with
  | Some _ => true
  | None => false
  end.

(** The files of a queue with the one at [index] replaced. *)
Definition replace_at {A} (index : nat) (x : A) (l : list A) : list A :=
  (firstn index l ++ x :: skipn (S index) l)%list.

(** No character that [.] matches is directly followed by a line feed or by
    the end of the text: every line, the last one included, ends in a
    carriage return and a line feed. *)
Fixpoint cr_before_line_ends (s : string) : bool :=
  match s with
  | EmptyString => true
  | String c t =>
      (negb (Char.is_dot c) ||
       match t with
       | EmptyString => false
       | String d _ => negb (Ascii.eqb d Char.LF)
       end) && cr_before_line_ends t
  end.

Definition CR : string := String (ascii_of_N 13) EmptyString.

Definition sample_queue : list GCodeFile.t :=
  [ GCodeFile.Build "a" "a.3mf" "a.3mf" "G1" [] 1 (Some "1h") 2 (Some 1) "a.3mf";
    GCodeFile.Build "b" "b.3mf" "b.3mf" "G2" [] 1 None 5 (Some 1) "b.3mf";
    GCodeFile.Build "c" "c.3mf" "c.3mf" "G3" [] 1 (Some "90") 1 (Some 1) "c.3mf" ].

Definition plates_1_and_3 : JSZip.t :=
  [ Sample.member "Metadata/plate_3.gcode" "G3";
    Sample.member "other.gcode" "G9";
    Sample.member "Metadata/plate_1.gcode" "G1" ].

(** Identifiers that differ from call to call. *)
Definition counting_id (n : nat) : string := Num.toString (Z.of_nat n).

Fixpoint last_char (s : string) : option ascii :=
  match s with
  | EmptyString => None
  | String c t =>
      match t with
      | EmptyString => Some c
      | String _ _ => last_char t
      end
  end.

(** Nothing in the archive counts as G-code: no file member under a
    conventional name, and every file member ending in [.gcode] is empty. *)
Definition no_gcode (zip : JSZip.t) : Prop :=
  (forall n, 1 <= n <= 16 -> JSZip.file zip (gcodePath n) = None) /\
  (forall name o,
     JSZip.get zip name = Some o -> Str.endsWith name ".gcode" = true ->
     JSZip.dir o = false -> JSZip.text o = EmptyString).

Definition distinct_ids (files : list GCodeFile.t) : Prop :=
  NoDup (map GCodeFile.id files).

(** The messages [handleFilesSelected] hands to [setError]. *)
Definition reported (messages : list string) : option string :=
  if is_nil messages then None else Some (Str.join nl messages).

(** * The code on doubles and on archives whose members can fail to decode

    The definitions above read a number as an exact integer and an archive
    member as its decoded text.  The definitions below do neither: numbers
    are IEEE 754 doubles, and decoding a member can fail.  As long as every
    integer involved stays below 2^53 and every member that is awaited
    decodes, the two levels compute the same. *)

(** ** Doubles

    Every number the code computes is an integer, an infinity or NaN: the
    only operation that leaves the integers is the division inside
    [Math.floor(x / d)], which is modelled together with the floor.  A
    finite value is given by the integer it is equal to; the two zeros are
    not told apart, as nothing in the code does (no division by a variable,
    and both print as "0").  Arithmetic rounds to the nearest double, ties
    to the even mantissa. *)

Module Double.

Inductive t : Type :=
| Int (z : Z)     (* the finite double equal to the integer [z] *)
| PosInf
| NegInf
| NaN.

(** The integer nearest to [a / b], ties to even, for [0 <= a] and
    [0 < b]. *)
Definition rne (a b : Z) : Z :=
  let q := a / b in
  let r := a mod b in
  if 2 * r <? b then q
  else if b <? 2 * r then q + 1
  else if Z.even q then q else q + 1.

(** The double nearest to the integer [z >= 0], as an integer: 53
    significant bits are kept.  The result is [2^1024] when [z] rounds
    beyond the largest double. *)
Definition nearest (z : Z) : Z :=
  let e := Z.log2 z in
  if e <=? 52 then z
  else rne z (2 ^ (e - 52)) * 2 ^ (e - 52).

(** The number an integer-valued computation yields when its exact result
    is [z]. *)
Definition of_Z (z : Z) : t :=
  let m := nearest (Z.abs z) in
  if 2 ^ 1024 <=? m then (if z <? 0 then NegInf else PosInf)
  else Int (Z.sgn z * m).

(** [x + y] *)
Definition add (x y : t) : t :=
  match x, y with
  | NaN, _ | _, NaN => NaN
  | Int a, Int b => of_Z (a + b)
  | PosInf, NegInf | NegInf, PosInf => NaN
  | PosInf, _ | _, PosInf => PosInf
  | NegInf, _ | _, NegInf => NegInf
  end.

Definition infinity (positive : bool) : t :=
  if positive then PosInf else NegInf.

(** [x * y] *)
Definition mul (x y : t) : t :=
  match x, y with
  | NaN, _ | _, NaN => NaN
  | Int a, Int b => of_Z (a * b)
  | Int a, PosInf | PosInf, Int a =>
      if a =? 0 then NaN else infinity (0 <? a)
  | Int a, NegInf | NegInf, Int a =>
      if a =? 0 then NaN else infinity (a <? 0)
  | PosInf, PosInf | NegInf, NegInf => PosInf
  | PosInf, NegInf | NegInf, PosInf => NegInf
  end.

(** The binary exponent of [a / d] for [a, d > 0]: the [e] with
    [2^e <= a / d < 2^(e+1)]. *)
Definition exponent (a d : Z) : Z :=
  let e := Z.log2 a - Z.log2 d in
  if (if 0 <=? e then d * 2 ^ e <=? a else d <=? a * 2 ^ (- e))
  then e else e - 1.

(** [Math.floor(a / d)] for an integer [a] and an integer [d > 0]: the
    quotient is rounded to a double with 53 significant bits, then
    floored. *)
Definition floor_quotient (a d : Z) : Z :=
  if a =? 0 then 0
  else
    let n := Z.abs a in
    let sh := exponent n d - 52 in
    if 0 <=? sh then Z.sgn a * (rne n (d * 2 ^ sh) * 2 ^ sh)
    else (Z.sgn a * rne (n * 2 ^ (- sh)) d) / 2 ^ (- sh).

(** [Math.floor(x / d)] for a constant [d > 0]. *)
Definition floor_div (x : t) (d : Z) : t :=
  match x with
  | Int a => Int (floor_quotient a d)
  | other => other
  end.

(** [x % d] for a constant [d > 0]: the remainder has the sign of [x] and
    is exact. *)
Definition rem (x : t) (d : Z) : t :=
  match x with
  | Int a => Int (Z.rem a d)
  | _ => NaN
  end.

(** [x > 0] *)
Definition gt0 (x : t) : bool :=
  match x with
  | Int a => 0 <? a
  | PosInf => true
  | NegInf | NaN => false
  end.

(** Truthiness of a number. *)
Definition truthy (x : t) : bool :=
  match x with
  | Int a => negb (a =? 0)
  | NaN => false
  | PosInf | NegInf => true
  end.

(** [Math.min(x, y)] and [Math.max(x, y)] *)
Definition min (x y : t) : t :=
  match x, y with
  | NaN, _ | _, NaN => NaN
  | NegInf, _ | _, NegInf => NegInf
  | PosInf, other | other, PosInf => other
  | Int a, Int b => Int (Z.min a b)
  end.

Definition max (x y : t) : t :=
  match x, y with
  | NaN, _ | _, NaN => NaN
  | PosInf, _ | _, PosInf => PosInf
  | NegInf, other | other, NegInf => other
  | Int a, Int b => Int (Z.max a b)
  end.

(** [Number.parseInt(s, 10)]: the integer the digits denote, rounded to a
    double (the engines read every digit, although the language lets them
    ignore the digits after the twentieth). *)
Definition parseInt (s : string) : t :=
  match Num.parseInt s with
  | Some n => of_Z n
  | None => NaN
  end.

(** *** Printing

    [`${x}`] prints the shortest decimal that reads back as [x]; of several
    of that length, the one nearest to [x].  Below 2^53 that is the integer
    itself.  From 10^21 on the exponent notation is used. *)

Definition reads_as (v x : Z) : bool :=
  match of_Z v with
  | Int y => y =? x
  | _ => false
  end.

(** The decimal with [k] significant digits that reads back as [x], if
    there is one; [nd] is the number of digits of [x]. *)
Definition candidate (x nd k : Z) : option Z :=
  let scale := 10 ^ (nd - k) in
  let lo := x / scale * scale in
  let hi := lo + scale in
  match reads_as lo x, reads_as hi x with
  | true, true =>
      Some (if x - lo <? hi - x then lo
            else if hi - x <? x - lo then hi
            else if Z.even (x / scale) then lo else hi)
  | true, false => Some lo
  | false, true => Some hi
  | false, false => None
  end.

(** Tries [k], [k + 1], ... significant digits. *)
Fixpoint shortest_from (fuel : nat) (x nd k : Z) : Z :=
  match fuel with
  | O => x
  | S f =>
      if nd <? k then x
      else match candidate x nd k with
           | Some v => v
           | None => shortest_from f x nd (k + 1)
           end
  end.

(** The value of the shortest decimal that reads back as [x]: seventeen
    significant digits always suffice. *)
Definition shortest (x : Z) : Z :=
  shortest_from 17 x (Z.of_nat (String.length (Num.toString x))) 1.

(** [d.ddde+n] *)
Definition exponent_notation (v : Z) : string :=
  let all := Num.toString v in
  let n := Z.of_nat (String.length all) in
  match Str.drop_while_end (Ascii.eqb "0") all with
  | EmptyString => all
  | String d EmptyString => String d ("e+" ++ Num.toString (n - 1))
  | String d rest => String d ("." ++ rest ++ "e+" ++ Num.toString (n - 1))
  end.

Definition toString_large (x : Z) : string :=
  let v := shortest x in
  if v <? 10 ^ 21 then Num.toString v else exponent_notation v.

(** [`${x}`] *)
Definition toString (x : t) : string :=
  match x with
  | Int z =>
      if Z.abs z <? 2 ^ 53 then Num.toString z
      else if z <? 0 then String "-" (toString_large (- z))
      else toString_large z
  | PosInf => "Infinity"
  | NegInf => "-Infinity"
  | NaN => "NaN"
  end.

(** A number that is not negative: zero, a positive integer or the
    positive infinity. *)
Definition nonneg (x : t) : Prop :=
  match x with
  | Int z => 0 <= z
  | PosInf => True
  | NegInf | NaN => False
  end.

End Double.

(** ** The functions of [fileProcessor.ts] and the queue on doubles and on
    archives whose members can fail to decode *)

Module Js.

Definition formatSeconds (totalSeconds : Double.t) : string :=
  let hours := Double.floor_div totalSeconds 3600 in
  let minutes := Double.floor_div (Double.rem totalSeconds 3600) 60 in
  let seconds := Double.rem totalSeconds 60 in
  let parts := [] in
  let parts :=
    push_if (Double.gt0 hours) (Double.toString hours ++ "h") parts in
  let parts :=
    push_if (Double.gt0 minutes) (Double.toString minutes ++ "m") parts in
  let parts :=
    push_if (Double.gt0 seconds || Nat.eqb (List.length parts) 0)
            (Double.toString seconds ++ "s") parts in
  Str.join " " parts.

Definition render_capture (cap : string) : string :=
  let value := Str.trim cap in
  if test_all_digits value then
    let seconds := Double.parseInt value in
    formatSeconds seconds
  else value.

Fixpoint first_match (patterns : list pattern) (gcode : string)
  : option string :=
  match patterns with
  | [] => None
  | pattern :: rest =>
      match exec pattern gcode with
      | Some cap => Some (render_capture cap)
      | None => first_match rest gcode
      end
  end.

Definition parseEstimatedTime (gcode : string) : option string :=
  first_match timePatterns gcode.

Definition parseTimeToSeconds (timeStr : string) : Double.t :=
  if test_all_digits (Str.trim timeStr) then
    Double.parseInt (Str.trim timeStr)
  else
    let totalSeconds := Double.Int 0 in
    let hourMatch := exec (pat_unit "h") timeStr in
    let minMatch := exec (pat_unit "m") timeStr in
    let secMatch := exec (pat_unit "s") timeStr in
    let totalSeconds :=
      match hourMatch with
      | Some h =>
          Double.add totalSeconds
                     (Double.mul (Double.parseInt h) (Double.Int 3600))
      | None => totalSeconds
      end in
    let totalSeconds :=
      match minMatch with
      | Some m =>
          Double.add totalSeconds
                     (Double.mul (Double.parseInt m) (Double.Int 60))
      | None => totalSeconds
      end in
    let totalSeconds :=
      match secMatch with
      | Some s => Double.add totalSeconds (Double.parseInt s)
      | None => totalSeconds
      end in
    totalSeconds.

Fixpoint total_loop (files : list GCodeFile.t) (totalSeconds : Double.t)
         (hasAnyTime : bool) : Double.t * bool :=
  match files with
  | [] => (totalSeconds, hasAnyTime)
  | file :: rest =>
      match GCodeFile.estimatedTime file with
      | Some e =>
          if Str.truthy e then
            let seconds := parseTimeToSeconds e in
            total_loop rest
              (Double.add totalSeconds
                 (Double.mul seconds (Double.Int (GCodeFile.copies file))))
              true
          else total_loop rest totalSeconds hasAnyTime
      | None => total_loop rest totalSeconds hasAnyTime
      end
  end.

Definition calculateTotalTime (files : list GCodeFile.t) : option string :=
  let '(totalSeconds, hasAnyTime) := total_loop files (Double.Int 0) false in
  if negb hasAnyTime then None else Some (formatSeconds totalSeconds).

(** [files.reduce((sum, f) => sum + f.copies, 0)] *)
Definition totalPrints (files : list GCodeFile.t) : Double.t :=
  fold_left
    (fun sum f => Double.add sum (Double.Int (GCodeFile.copies f)))
    files (Double.Int 0).

(** [files.reduce((sum, f) => sum + f.lineCount * f.copies, 0)] *)
Definition totalLines (files : list GCodeFile.t) : Double.t :=
  fold_left
    (fun sum f =>
       Double.add sum
         (Double.mul (Double.Int (GCodeFile.lineCount f))
                     (Double.Int (GCodeFile.copies f))))
    files (Double.Int 0).

(** [Math.max(1, Math.min(99, Number.parseInt(value, 10) || 1))] *)
Definition copies_of_input (value : string) : Double.t :=
  let parsed := Double.parseInt value in
  Double.max (Double.Int 1)
    (Double.min (Double.Int 99)
       (if Double.truthy parsed then parsed else Double.Int 1)).

(** *** Archives *)

(** What [await member.async('string')] does: it resolves to the decoded
    text, or it rejects; [message] is [err.message] when what it rejects
    with is an [Error]. *)
Inductive decoding : Type :=
| Resolves (text : string)
| Rejects (message : option string).

Module Archive.

Record ZipObject : Type := Member {
  dir : bool;
  async_string : decoding
}.

(** [zip.files] *)
Definition t : Type := list (string * ZipObject).

Fixpoint get (files : t) (name : string) : option ZipObject :=
  match files with
  | [] => None
  | (n, o) :: rest => if String.eqb n name then Some o else get rest name
  end.

(** [zip.file(name)] *)
Definition file (zip : t) (name : string) : option ZipObject :=
  match get zip name with
  | Some o => if dir o then None else Some o
  | None => None
  end.

Definition keys (zip : t) : list string := map fst zip.

End Archive.

(** What a call can throw: a [FileProcessingError], or anything else;
    [message] is then [err.message] if the value is an [Error]. *)
Inductive Thrown : Type :=
| FileProcessingError (message : string)
| OtherError (message : option string).

(** The outcome of a loop that awaits members: the plates, or the
    rejection that ended it. *)
Inductive attempt (A : Type) : Type :=
| Done (a : A)
| Fails (message : option string).

Arguments Done {A} a.
Arguments Fails {A} message.

Definition plate_record (gcodeContent : string) (plateNum : Z)
  : ParsedGCodeInfo.t :=
  let lineCount := Z.of_nat (List.length (Str.split Char.LF gcodeContent)) in
  let estimatedTime := parseEstimatedTime gcodeContent in
  ParsedGCodeInfo.Build gcodeContent lineCount estimatedTime plateNum.

Fixpoint standard_loop (zip : Archive.t) (n : nat) (plateNum : Z)
         (plates : list ParsedGCodeInfo.t)
  : attempt (list ParsedGCodeInfo.t) :=
  match n with
  | O => Done plates
  | S n' =>
      match Archive.file zip (gcodePath plateNum) with
      | Some gcodeFile =>
          match Archive.async_string gcodeFile with
          | Resolves gcodeContent =>
              standard_loop zip n' (plateNum + 1)
                (plates ++ [plate_record gcodeContent plateNum])%list
          | Rejects message => Fails message
          end
      | None => standard_loop zip n' (plateNum + 1) plates
      end
  end.

Definition is_gcode_member (zip : Archive.t) (name : string) : bool :=
  Str.endsWith name ".gcode" &&
  match Archive.get zip name with
  | Some o => negb (Archive.dir o)
  | None => false
  end.

Definition gcodeFiles (zip : Archive.t) : list string :=
  sort (filter (is_gcode_member zip) (Archive.keys zip)).

Fixpoint fallback_loop (zip : Archive.t) (names : list string) (i : Z)
         (plates : list ParsedGCodeInfo.t)
  : attempt (list ParsedGCodeInfo.t) :=
  match names with
  | [] => Done plates
  | name :: rest =>
      match Archive.file zip name with
      | Some o =>
          match Archive.async_string o with
          | Resolves gcodeContent =>
              fallback_loop zip rest (i + 1)
                (if Str.truthy gcodeContent
                 then (plates ++ [plate_record gcodeContent (i + 1)])%list
                 else plates)
          | Rejects message => Fails message
          end
      | None => fallback_loop zip rest (i + 1) plates
      end
  end.

Definition discover (zip : Archive.t) : attempt (list ParsedGCodeInfo.t) :=
  match standard_loop zip 16 1 [] with
  | Done plates =>
      if is_nil plates then fallback_loop zip (gcodeFiles zip) 0 plates
      else Done plates
  | Fails message => Fails message
  end.

Section Extraction.

Variable loadAsync : ArrayBuffer -> option Archive.t.

(** The [try] block. *)
Definition open_archive (file : File.t) : option (ArrayBuffer * Archive.t) :=
  match File.arrayBuffer file with
  | None => None
  | Some arrayBuffer =>
      match loadAsync arrayBuffer with
      | None => None
      | Some zip => Some (arrayBuffer, zip)
      end
  end.

Definition extractAllPlatesFromZip (file : File.t)
  : Thrown + ExtractedPlates.t :=
  match open_archive file with
  | None =>
      inl (FileProcessingError (invalid_archive_message (File.name file)))
  | Some (arrayBuffer, zip) =>
      match discover zip with
      | Fails message => inl (OtherError message)
      | Done plates =>
          if is_nil plates then
            inl (FileProcessingError (no_gcode_message (File.name file)))
          else
            inr (ExtractedPlates.Build plates arrayBuffer (File.name file))
      end
  end.

Variable generateId : nat -> string.

Definition processUploadedFile (file : File.t) (n : nat)
  : Thrown + (list GCodeFile.t * nat) :=
  match extractAllPlatesFromZip file with
  | inl e => inl e
  | inr e =>
      let plates := ExtractedPlates.plates e in
      let isMultiPlate := (1 <? List.length plates)%nat in
      inr (map_plates generateId (ExtractedPlates.fileName e)
                      (ExtractedPlates.originalZip e) isMultiPlate n plates,
           (n + List.length plates)%nat)
  end.

(** The message the [else] branch of the [catch] pushes. *)
Definition other_message (file : File.t) (message : option string)
  : string :=
  "Error processing " ++ quote ++ File.name file ++ quote ++ ": " ++
  match message with
  | Some m => m
  | None => "Unknown error"
  end.

(** The loop of [handleFilesSelected]. *)
Fixpoint batch_loop (selectedFiles : list File.t) (n : nat)
         (newFiles : list GCodeFile.t) (errors : list string)
  : list GCodeFile.t * list string * nat :=
  match selectedFiles with
  | [] => (newFiles, errors, n)
  | file :: rest =>
      match processUploadedFile file n with
      | inr (processedFiles, n') =>
          batch_loop rest n' (newFiles ++ processedFiles)%list errors
      | inl (FileProcessingError message) =>
          batch_loop rest n newFiles (errors ++ [message])%list
      | inl (OtherError message) =>
          batch_loop rest n newFiles
                     (errors ++ [other_message file message])%list
      end
  end.

Definition handleFilesSelected (selectedFiles : list File.t)
           (st : AppState.t) (n : nat) : AppState.t * nat :=
  let '(newFiles, errors, n') := batch_loop selectedFiles n [] [] in
  (AppState.Build
     (AppState.files st ++ newFiles)%list
     ProcessingState.idle
     (if (0 <? List.length errors)%nat
      then Some (Str.join nl errors) else None),
   n').

Definition step (s : AppState.t * nat) (e : event) : AppState.t * nat :=
  let '(st, n) := s in
  match e with
  | FilesSelected selectedFiles => handleFilesSelected selectedFiles st n
  | CopiesChange index value =>
      (on_item st index (fun file =>
         set_files st (handleCopiesChange file value (AppState.files st))),
       n)
  | IncrementCopies index =>
      (on_item st index (fun file =>
         set_files st (incrementCopies file (AppState.files st))), n)
  | DecrementCopies index =>
      (on_item st index (fun file =>
         set_files st (decrementCopies file (AppState.files st))), n)
  | Remove index =>
      (on_item st index (fun file => handleRemove (GCodeFile.id file) st),
       n)
  | DragEnd dragIndex dragOverIndex =>
      (match handleDragEnd dragIndex dragOverIndex (AppState.files st) with
       | Some reorderedFiles => handleReorder reorderedFiles st
       | None => st
       end, n)
  | ClearAll => (handleClearAll st, n)
  end.

Definition run_events (s : AppState.t * nat) (es : list event)
  : AppState.t * nat :=
  fold_left step es s.

End Extraction.

(** *** Reference readings *)

(** The archive with every member decoded; a member that fails to decode
    is given the empty text. *)
Definition decoded_member (o : Archive.ZipObject) : JSZip.ZipObject :=
  JSZip.Entry (Archive.dir o)
    (match Archive.async_string o with
     | Resolves text => text
     | Rejects _ => EmptyString
     end).

Definition decoded (zip : Archive.t) : JSZip.t :=
  map (fun entry => (fst entry, decoded_member (snd entry))) zip.

(** A record with its estimate printed by the code's own arithmetic. *)
Definition retimed (plate : ParsedGCodeInfo.t) : ParsedGCodeInfo.t :=
  plate_record (ParsedGCodeInfo.gcode plate)
               (ParsedGCodeInfo.plateNumber plate).

(** The rejection of the file member [name], if it is one that fails to
    decode. *)
Definition rejection (zip : Archive.t) (name : string)
  : option (option string) :=
  match Archive.file zip name with
  | Some o =>
      match Archive.async_string o with
      | Rejects message => Some message
      | Resolves _ => None
      end
  | None => None
  end.

(** The first rejection met when the members are awaited in the order of
    [names]. *)
Fixpoint first_rejection (zip : Archive.t) (names : list string)
  : option (option string) :=
  match names with
  | [] => None
  | name :: rest =>
      match rejection zip name with
      | Some message => Some message
      | None => first_rejection zip rest
      end
  end.

(** The members extraction awaits, in order: the conventional ones, and
    the members ending in [.gcode] when no conventional one is a file. *)
Definition visited (zip : Archive.t) : list string :=
  (map gcodePath (zseq 1 16)
   ++ if is_nil (filter (conventional_present (decoded zip)) (zseq 1 16))
      then gcodeFiles zip else [])%list.

(** Some member that extraction awaits fails to decode. *)
Definition undecodable (zip : Archive.t) : Prop :=
  (exists n o message,
     1 <= n <= 16 /\ Archive.file zip (gcodePath n) = Some o /\
     Archive.async_string o = Rejects message) \/
  ((forall n, 1 <= n <= 16 -> Archive.file zip (gcodePath n) = None) /\
   exists name o message,
     Archive.get zip name = Some o /\ Str.endsWith name ".gcode" = true /\
     Archive.dir o = false /\ Archive.async_string o = Rejects message).

(** Nothing in the archive counts as G-code: no file member under a
    conventional name, and every file member ending in [.gcode] decodes to
    the empty text. *)
Definition no_gcode (zip : Archive.t) : Prop :=
  (forall n, 1 <= n <= 16 -> Archive.file zip (gcodePath n) = None) /\
  (forall name o,
     Archive.get zip name = Some o -> Str.endsWith name ".gcode" = true ->
     Archive.dir o = false ->
     Archive.async_string o = Resolves EmptyString).

(** The entries one upload adds to the queue, identifiers apart. *)
Definition files_of_upload (loadAsync : ArrayBuffer -> option Archive.t)
           (file : File.t) : list GCodeFile.t :=
  match extractAllPlatesFromZip loadAsync file with
  | inr e =>
      map (to_file (ExtractedPlates.fileName e) (ExtractedPlates.originalZip e)
                   (1 <? List.length (ExtractedPlates.plates e))%nat
                   EmptyString)
          (ExtractedPlates.plates e)
  | inl _ => []
  end.

(** The message one upload adds to the error list. *)
Definition errors_of_upload (loadAsync : ArrayBuffer -> option Archive.t)
           (file : File.t) : list string :=
  match extractAllPlatesFromZip loadAsync file with
  | inr _ => []
  | inl (FileProcessingError message) => [message]
  | inl (OtherError message) => [other_message file message]
  end.

Definition fails (loadAsync : ArrayBuffer -> option Archive.t)
           (file : File.t) : bool :=
  match extractAllPlatesFromZip loadAsync file with
  | inr _ => false
  | inl _ => true
  end.

(** A character that is not white space; such a character is not a line
    terminator either. *)
Definition visible (c : ascii) : bool := negb (Char.is_space c).

(** The seconds one file adds to the total, as the loop computes them. *)
Definition estimate_seconds (file : GCodeFile.t) : Double.t :=
  match GCodeFile.estimatedTime file with
  | Some e =>
      Double.mul (parseTimeToSeconds e) (Double.Int (GCodeFile.copies file))
  | None => Double.Int 0
  end.

(** A sum of doubles, added from left to right. *)
Definition sum_in_order (l : list Double.t) : Double.t :=
  fold_left Double.add l (Double.Int 0).

(** The seconds one file adds to the total, and the exact sum of them:
    [None] as soon as a file's estimate reads as an infinity. *)
Definition seconds_of (file : GCodeFile.t) : option Z :=
  match GCodeFile.estimatedTime file with
  | Some e =>
      if Str.truthy e then
        match parseTimeToSeconds e with
        | Double.Int seconds => Some (seconds * GCodeFile.copies file)
        | _ => None
        end
      else Some 0
  | None => Some 0
  end.

Fixpoint exact_total (files : list GCodeFile.t) : option Z :=
  match files with
  | [] => Some 0
  | file :: rest =>
      match seconds_of file, exact_total rest with
      | Some a, Some b => Some (a + b)
      | _, _ => None
      end
  end.

(** *** Sample archives *)

Module Sample.

Definition opens_as (zip : Archive.t) : ArrayBuffer -> option Archive.t :=
  fun _ => Some zip.

Definition member (name text : string) : string * Archive.ZipObject :=
  (name, Archive.Member false (Resolves text)).

Definition broken (name : string) (message : option string)
  : string * Archive.ZipObject :=
  (name, Archive.Member false (Rejects message)).

(** The second plate cannot be decoded. *)
Definition corrupt_plate : Archive.t :=
  [ member "Metadata/plate_1.gcode" "G28";
    broken "Metadata/plate_2.gcode" (Some "Corrupted zip : CRC32 mismatch") ].

(** A member that is not awaited cannot be decoded. *)
Definition corrupt_elsewhere : Archive.t :=
  [ member "Metadata/plate_1.gcode" "G28";
    broken "model.gcode" None ].

Definition only_empty : Archive.t :=
  [ member "Metadata/plate_17.gcode" EmptyString ].

(** A loader for a batch: one byte opens as one good plate, two bytes as
    the archive with a plate that cannot be decoded, anything else is
    rejected. *)
Definition loader (buf : ArrayBuffer) : option Archive.t :=
  match buf with
  | [_] => Some [ member "Metadata/plate_1.gcode" "G28" ]
  | [_; _] => Some corrupt_plate
  | _ => None
  end.

Definition good : File.t := File.Build "good.gcode.3mf" (Some [Byte.x00]).
Definition unreadable : File.t :=
  File.Build "broken.gcode.3mf" (Some [Byte.x00; Byte.x00]).
Definition no_zip : File.t := File.Build "notes.3mf" (Some []).

End Sample.

End Js.

(** * Properties *)

(** ** Characters and strings *)

(** Decides a statement about one character by running through all 256. *)
Ltac each_char c :=
  destruct c as [[|] [|] [|] [|] [|] [|] [|] [|]];
  try reflexivity; try discriminate.

Lemma digit_not_space c : Char.is_digit c = true -> Char.is_space c = false.
Proof. each_char c. Qed.

Lemma digit_not_sign c :
  Char.is_digit c = true -> Ascii.eqb c "-" = false /\ Ascii.eqb c "+" = false.
Proof. intros H; split; revert H; each_char c. Qed.

Lemma of_digit_is_digit d : 0 <= d < 10 -> Char.is_digit (Char.of_digit d) = true.
Proof.
  intros H.
  assert (d = 0 \/ d = 1 \/ d = 2 \/ d = 3 \/ d = 4 \/ d = 5 \/ d = 6 \/
          d = 7 \/ d = 8 \/ d = 9) as Hd by lia.
  repeat (destruct Hd as [-> | Hd]; [reflexivity |]); subst; reflexivity.
Qed.

Lemma digit_val_of_digit d : 0 <= d < 10 -> Char.digit_val (Char.of_digit d) = d.
Proof.
  intros H.
  assert (d = 0 \/ d = 1 \/ d = 2 \/ d = 3 \/ d = 4 \/ d = 5 \/ d = 6 \/
          d = 7 \/ d = 8 \/ d = 9) as Hd by lia.
  repeat (destruct Hd as [-> | Hd]; [reflexivity |]); subst; reflexivity.
Qed.

Lemma append_assoc (a b c : string) : (a ++ b) ++ c = a ++ (b ++ c).
Proof. induction a as [|x a IH]; simpl; [reflexivity | now rewrite IH]. Qed.

Lemma append_empty_r (a : string) : a ++ EmptyString = a.
Proof. induction a as [|x a IH]; simpl; [reflexivity | now rewrite IH]. Qed.

Lemma length_append (a b : string) :
  String.length (a ++ b) = (String.length a + String.length b)%nat.
Proof. induction a as [|x a IH]; simpl; [reflexivity | now rewrite IH]. Qed.

Lemma all_append p (a b : string) :
  Str.all p (a ++ b) = Str.all p a && Str.all p b.
Proof.
  induction a as [|x a IH]; simpl; [reflexivity |].
  now rewrite IH, andb_assoc.
Qed.

Lemma substring_prefix (a b : string) :
  substring 0 (String.length a) (a ++ b) = a.
Proof. induction a as [|x a IH]; simpl; [now destruct b | now rewrite IH]. Qed.

Lemma consumed_append (a b : string) : consumed (a ++ b) b = a.
Proof.
  unfold consumed. rewrite length_append.
  replace (String.length a + String.length b - String.length b)%nat
    with (String.length a) by lia.
  apply substring_prefix.
Qed.

Lemma drop_while_all p (a : string) c rest :
  Str.all p a = true -> p c = false ->
  Str.drop_while p (a ++ String c rest) = String c rest.
Proof.
  induction a as [|x a IH]; simpl; intros Ha Hc.
  - now rewrite Hc.
  - apply andb_true_iff in Ha as [Hx Ha]. rewrite Hx. now apply IH.
Qed.

Lemma drop_while_all_end p (a : string) :
  Str.all p a = true -> Str.drop_while p a = EmptyString.
Proof.
  induction a as [|x a IH]; simpl; intros Ha; [reflexivity |].
  apply andb_true_iff in Ha as [Hx Ha]. rewrite Hx. now apply IH.
Qed.

(** ** Decimal numerals *)

Lemma digits_all_digit fuel n :
  0 <= n -> Str.all Char.is_digit (Num.digits fuel n) = true.
Proof.
  revert n; induction fuel as [|f IH]; intros n Hn; simpl.
  - rewrite of_digit_is_digit; [reflexivity |].
    apply Z.mod_pos_bound; lia.
  - destruct (Z.ltb_spec n 10).
    + simpl. rewrite of_digit_is_digit by lia. reflexivity.
    + rewrite all_append, IH by (apply Z.div_pos; lia). simpl.
      rewrite of_digit_is_digit; [reflexivity |].
      apply Z.mod_pos_bound; lia.
Qed.

Lemma digits_nonempty fuel n : Num.digits fuel n <> EmptyString.
Proof.
  destruct fuel as [|f]; simpl; [discriminate |].
  destruct (n <? 10); [discriminate |].
  destruct (Num.digits f (n / 10)); discriminate.
Qed.

Lemma digits_value_snoc (s : string) c acc :
  Str.all Char.is_digit s = true -> Char.is_digit c = true ->
  Num.digits_value acc (s ++ String c EmptyString)
  = 10 * Num.digits_value acc s + Char.digit_val c.
Proof.
  revert acc; induction s as [|x s IH]; simpl; intros acc Hs Hc.
  - now rewrite Hc.
  - apply andb_true_iff in Hs as [Hx Hs]. rewrite Hx. now apply IH.
Qed.

Lemma digits_value_digits fuel n :
  0 <= n < 2 ^ Z.of_nat (S fuel) ->
  Num.digits_value 0 (Num.digits fuel n) = n.
Proof.
  revert n; induction fuel as [|f IH]; intros n Hn.
  - change (2 ^ Z.of_nat 1) with 2 in Hn. simpl.
    rewrite (Z.mod_small n 10) by lia.
    rewrite of_digit_is_digit, digit_val_of_digit by lia. lia.
  - simpl Num.digits. destruct (Z.ltb_spec n 10).
    + simpl. rewrite of_digit_is_digit, digit_val_of_digit by lia. lia.
    + assert (0 <= n / 10 < 2 ^ Z.of_nat (S f)) as Hq.
      { split; [apply Z.div_pos; lia |].
        apply Z.div_lt_upper_bound; [lia |].
        replace (Z.of_nat (S (S f))) with (Z.of_nat (S f) + 1) in Hn by lia.
        rewrite Z.pow_add_r in Hn by lia. lia. }
      assert (0 <= n mod 10 < 10) as Hr by (apply Z.mod_pos_bound; lia).
      rewrite digits_value_snoc.
      * rewrite IH by exact Hq. rewrite digit_val_of_digit by exact Hr.
        pose proof (Z.div_mod n 10). lia.
      * apply digits_all_digit; lia.
      * apply of_digit_is_digit; exact Hr.
Qed.

Lemma log2_fuel n : 0 <= n -> 0 <= n < 2 ^ Z.of_nat (S (Z.to_nat (Z.log2 n))).
Proof.
  intros Hn. split; [exact Hn |].
  rewrite Nat2Z.inj_succ, Z2Nat.id by apply Z.log2_nonneg.
  destruct (Z.eq_dec n 0) as [-> | Hz]; [reflexivity |].
  apply Z.log2_spec; lia.
Qed.

(** A non-negative integer prints as a non-empty run of digits whose value
    it is. *)
Lemma toString_nonneg n :
  0 <= n ->
  Str.all Char.is_digit (Num.toString n) = true /\
  Num.toString n <> EmptyString /\
  Num.digits_value 0 (Num.toString n) = n.
Proof.
  intros Hn. unfold Num.toString.
  destruct (Z.ltb_spec n 0); [lia |].
  repeat split.
  - now apply digits_all_digit.
  - apply digits_nonempty.
  - apply digits_value_digits, log2_fuel; exact Hn.
Qed.

Lemma starts_with_digit_all (s : string) :
  Str.all Char.is_digit s = true -> s <> EmptyString ->
  Num.starts_with_digit s = true.
Proof.
  destruct s as [|c t]; simpl; [congruence |].
  intros H _. now apply andb_true_iff in H as [H _].
Qed.

Lemma parseInt_digits (s : string) :
  Str.all Char.is_digit s = true -> s <> EmptyString ->
  Num.parseInt s = Some (Num.digits_value 0 s).
Proof.
  destruct s as [|c t]; [congruence |]. intros H _.
  pose proof H as Hall. simpl in H. apply andb_true_iff in H as [Hc _].
  unfold Num.parseInt. simpl Str.drop_while.
  rewrite (digit_not_space c Hc).
  destruct (digit_not_sign c Hc) as [-> ->]. now rewrite Hc.
Qed.

(** [Number.parseInt(`${n}`, 10) === n] for every integer [n]. *)
Lemma parseInt_toString n : Num.parseInt (Num.toString n) = Some n.
Proof.
  destruct (Z.ltb_spec n 0) as [Hneg | Hpos].
  - unfold Num.toString. apply Z.ltb_lt in Hneg as Hb. rewrite Hb.
    unfold Num.parseInt. simpl.
    assert (0 <= - n) as Hn by lia.
    rewrite starts_with_digit_all
      by (try apply digits_all_digit; try apply digits_nonempty; lia).
    rewrite digits_value_digits by (apply log2_fuel; lia).
    f_equal; lia.
  - destruct (toString_nonneg n Hpos) as (Ha & Hne & Hv).
    rewrite parseInt_digits by assumption. now rewrite Hv.
Qed.

(** ** Worked examples *)

Example formatSeconds_0 : formatSeconds 0 = "0s".
Proof. reflexivity. Qed.

Example formatSeconds_3661 : formatSeconds 3661 = "1h 1m 1s".
Proof. reflexivity. Qed.

Example formatSeconds_90 : formatSeconds 90 = "1m 30s".
Proof. reflexivity. Qed.

Example formatSeconds_big : formatSeconds 360000 = "100h".
Proof. reflexivity. Qed.

Example parseEstimatedTime_bambu :
  parseEstimatedTime
    ("; estimated printing time (normal mode) = 1h 23m 45s" ++ nl ++ "G28")
  = Some "1h 23m 45s".
Proof. vm_compute. reflexivity. Qed.

Example parseEstimatedTime_tag :
  parseEstimatedTime ("G28" ++ nl ++ ";TIME:90" ++ nl) = Some "1m 30s".
Proof. vm_compute. reflexivity. Qed.

Example parseEstimatedTime_total :
  parseEstimatedTime ("; total estimated time: 1234" ++ nl) = Some "20m 34s".
Proof. vm_compute. reflexivity. Qed.

Example parseEstimatedTime_none :
  parseEstimatedTime ("G28" ++ nl ++ "G1 X0") = None.
Proof. vm_compute. reflexivity. Qed.

Example parseTimeToSeconds_hms : parseTimeToSeconds "1h 23m 45s" = 5025.
Proof. vm_compute. reflexivity. Qed.

Example parseTimeToSeconds_compact : parseTimeToSeconds "1H23M45S" = 5025.
Proof. vm_compute. reflexivity. Qed.

Example parseTimeToSeconds_plain : parseTimeToSeconds " 1234 " = 1234.
Proof. vm_compute. reflexivity. Qed.

Example trim_both_ends : Str.trim "  a b  " = "a b".
Proof. reflexivity. Qed.

Example trim_all_space : Str.trim "   " = EmptyString.
Proof. reflexivity. Qed.

Example endsWith_gcode :
  Str.endsWith "Metadata/plate_17.gcode" ".gcode" = true /\
  Str.endsWith "plate.gcode.md5" ".gcode" = false /\
  Str.endsWith "PLATE.GCODE" ".gcode" = false.
Proof. repeat split; reflexivity. Qed.

Example split_lines :
  Str.split Char.LF ("a" ++ nl ++ nl ++ "b") = ["a"; EmptyString; "b"] /\
  Str.split Char.LF EmptyString = [EmptyString].
Proof. split; reflexivity. Qed.

Example parseInt_cases :
  Num.parseInt " -12abc" = Some (-12) /\
  Num.parseInt "+5" = Some 5 /\
  Num.parseInt "007" = Some 7 /\
  Num.parseInt "abc" = None /\
  Num.parseInt "- 5" = None /\
  Num.parseInt EmptyString = None.
Proof. repeat split; reflexivity. Qed.

Example toString_cases :
  Num.toString 0 = "0" /\ Num.toString 16 = "16" /\
  Num.toString 1234567890 = "1234567890" /\ Num.toString (-5) = "-5".
Proof. repeat split; reflexivity. Qed.

Example sort_names :
  sort ["b.gcode"; "Metadata/plate_17.gcode"; "a.gcode"; "a.gcod"]
  = ["Metadata/plate_17.gcode"; "a.gcod"; "a.gcode"; "b.gcode"].
Proof. reflexivity. Qed.

(** A lazy [.*?] stops at the first [=]; the greedy [\s*] after it gives a
    blank back when nothing else is left to capture. *)
Example exec_estimated_cases :
  exec pat_estimated "; Estimated Printing Time a=b = c" = Some "b = c" /\
  exec pat_estimated "; estimated printing time =  " = Some " " /\
  exec pat_estimated "; estimated printing time" = None.
Proof. repeat split; vm_compute; reflexivity. Qed.

Example exec_time_cases :
  exec pat_time ";TIME_42" = Some "42" /\
  exec pat_time "; time: 7" = Some "7" /\
  exec pat_time "; time : 7" = None /\
  exec pat_time ";TIME_ELAPSED:7" = None.
Proof. repeat split; vm_compute; reflexivity. Qed.

Example exec_unit_cases :
  exec (pat_unit "m") "12 x 3 M" = Some "3" /\
  exec (pat_unit "h") "1m 2s" = None.
Proof. repeat split; vm_compute; reflexivity. Qed.

(** ** The matcher *)

Section StarFacts.
Context {R : Type}.

(** A greedy star whose continuation rejects whatever starts with a
    character of the class never has to give anything back. *)
Lemma star_greedy_commit p inp (k : string -> option R) :
  (forall c t, p c = true -> k (String c t) = None) ->
  star true p inp k = k (Str.drop_while p inp).
Proof.
  intros Hk. induction inp as [|c t IH]; simpl; [reflexivity |].
  destruct (p c) eqn:Hc; [| reflexivity].
  rewrite IH. destruct (k (Str.drop_while p t)); [reflexivity |].
  now apply Hk.
Qed.
End StarFacts.

Lemma is_empty_drop_while p (s : string) :
  Str.is_empty (Str.drop_while p s) = Str.all p s.
Proof.
  induction s as [|c t IH]; simpl; [reflexivity |].
  destruct (p c); simpl; [exact IH | reflexivity].
Qed.

(** [/^\d+$/] accepts exactly the non-empty runs of digits. *)
Lemma test_all_digits_spec (s : string) :
  test_all_digits s = Str.truthy s && Str.all Char.is_digit s.
Proof.
  unfold test_all_digits. destruct s as [|c t]; simpl; [reflexivity |].
  destruct (Char.is_digit c); simpl; [| reflexivity].
  rewrite star_greedy_commit by reflexivity.
  rewrite <- is_empty_drop_while.
  now destruct (Str.drop_while Char.is_digit t).
Qed.

Lemma unit_letter_h : unit_letter "h".
Proof. repeat split; intros c; each_char c. Qed.

Lemma unit_letter_m : unit_letter "m".
Proof. repeat split; intros c; each_char c. Qed.

Lemma unit_letter_s : unit_letter "s".
Proof. repeat split; intros c; each_char c. Qed.

(** The backtracking match of [(\d+)\s*u] is the one-pass scan. *)
Lemma match_here_unit u inp :
  unit_letter u -> match_here (pat_unit u) inp = unit_here u inp.
Proof.
  intros (Hd & Hs & _). unfold match_here, unit_here. simpl.
  destruct inp as [|c t]; [reflexivity |].
  destruct (Char.is_digit c) eqn:Hc; [| reflexivity].
  rewrite star_greedy_commit.
  - rewrite star_greedy_commit; [reflexivity |].
    intros c' t' Hc'. now rewrite Hs.
  - intros c' t' Hc'. simpl.
    rewrite (digit_not_space c' Hc'). now rewrite Hd.
Qed.

Lemma exec_unit_step u inp :
  unit_letter u ->
  exec (pat_unit u) inp =
  match unit_here u inp with
  | Some cap => Some cap
  | None => match inp with
            | EmptyString => None
            | String _ t => exec (pat_unit u) t
            end
  end.
Proof.
  intros Hu. destruct inp; cbn [exec]; now rewrite match_here_unit.
Qed.

Lemma unit_here_digit u c t :
  Char.is_digit c = true ->
  unit_here u (String c t) =
  match Str.drop_while Char.is_space (Str.drop_while Char.is_digit t) with
  | String c' _ =>
      if Char.eq_ci u c'
      then Some (consumed (String c t) (Str.drop_while Char.is_digit t))
      else None
  | EmptyString => None
  end.
Proof. intros Hc. unfold unit_here. now rewrite Hc. Qed.

(** A token [<digits>u] at the head is found, and its digits captured. *)
Lemma exec_unit_hit u (d rest : string) :
  unit_letter u -> Char.is_digit u = false -> Char.is_space u = false ->
  Str.all Char.is_digit d = true -> d <> EmptyString ->
  exec (pat_unit u) (d ++ String u rest) = Some d.
Proof.
  intros Hu Hnd Hns Hd Hne. rewrite exec_unit_step by exact Hu.
  destruct d as [|c d']; [congruence |].
  simpl in Hd. apply andb_true_iff in Hd as [Hc Hd'].
  simpl append. rewrite unit_here_digit by exact Hc.
  rewrite drop_while_all by assumption.
  simpl Str.drop_while. rewrite Hns.
  destruct Hu as (_ & _ & ->).
  change (String c (d' ++ String u rest)) with (String c d' ++ String u rest).
  now rewrite consumed_append.
Qed.

(** A token of another unit is skipped. *)
Lemma exec_unit_miss u v (d rest : string) :
  unit_letter u -> Char.is_digit v = false -> Char.is_space v = false ->
  Char.eq_ci u v = false ->
  Str.all Char.is_digit d = true ->
  exec (pat_unit u) (d ++ String v rest) = exec (pat_unit u) rest.
Proof.
  intros Hu Hnd Hns Hne. induction d as [|c d IH]; intros Hd.
  - rewrite exec_unit_step by exact Hu. simpl. now rewrite Hnd.
  - simpl in Hd. apply andb_true_iff in Hd as [Hc Hd].
    rewrite exec_unit_step by exact Hu.
    simpl append. rewrite unit_here_digit by exact Hc.
    rewrite drop_while_all by assumption.
    simpl Str.drop_while. rewrite Hns, Hne. now apply IH.
Qed.

Lemma exec_unit_skip u c rest :
  unit_letter u -> Char.is_digit c = false ->
  exec (pat_unit u) (String c rest) = exec (pat_unit u) rest.
Proof.
  intros Hu Hc. rewrite exec_unit_step by exact Hu. simpl. now rewrite Hc.
Qed.

Lemma exec_unit_empty u : unit_letter u -> exec (pat_unit u) EmptyString = None.
Proof. intros Hu. rewrite exec_unit_step by exact Hu. reflexivity. Qed.

(** ** Trimming *)

Lemma all_digits_drop_while_end (d : string) u rest :
  Char.is_digit u = false -> Char.is_space u = false ->
  Str.all Char.is_digit
    (Str.drop_while_end Char.is_space (d ++ String u rest)) = false.
Proof.
  intros Hnd Hns. induction d as [|c d IH]; simpl.
  - rewrite Hns. simpl. now rewrite Hnd.
  - destruct (Char.is_space c &&
              Str.is_empty (Str.drop_while_end Char.is_space (d ++ String u rest)))
      eqn:E.
    + apply andb_true_iff in E as [_ E].
      destruct (Str.drop_while_end Char.is_space (d ++ String u rest));
        [discriminate IH | discriminate E].
    + simpl. rewrite IH. apply andb_false_r.
Qed.

(** A text that starts with a number directly followed by a unit letter is
    not taken for a bare count of seconds. *)
Lemma not_all_digits_token (d : string) u rest :
  Char.is_digit u = false -> Char.is_space u = false ->
  Str.all Char.is_digit d = true -> d <> EmptyString ->
  test_all_digits (Str.trim (d ++ String u rest)) = false.
Proof.
  intros Hnd Hns Hd Hne. unfold Str.trim.
  destruct d as [|c d']; [congruence |].
  simpl in Hd. apply andb_true_iff in Hd as [Hc Hd].
  simpl append. simpl Str.drop_while. rewrite (digit_not_space c Hc).
  rewrite test_all_digits_spec.
  change (String c (d' ++ String u rest)) with (String c d' ++ String u rest).
  rewrite all_digits_drop_while_end by assumption. apply andb_false_r.
Qed.

(** ** Formatting and parsing durations *)

Lemma int_of_capture_toString n : int_of_capture (Num.toString n) = n.
Proof. unfold int_of_capture. now rewrite parseInt_toString. Qed.

(** Outside the bare-integer case the three unit patterns are searched
    independently and their values added. *)
Lemma parseTimeToSeconds_units (timeStr : string) :
  test_all_digits (Str.trim timeStr) = false ->
  parseTimeToSeconds timeStr =
  match exec (pat_unit "h") timeStr with
  | Some h => int_of_capture h * 3600 | None => 0 end +
  match exec (pat_unit "m") timeStr with
  | Some m => int_of_capture m * 60 | None => 0 end +
  match exec (pat_unit "s") timeStr with
  | Some s => int_of_capture s | None => 0 end.
Proof.
  intros H. unfold parseTimeToSeconds. rewrite H.
  destruct (exec (pat_unit "h") timeStr), (exec (pat_unit "m") timeStr),
    (exec (pat_unit "s") timeStr); lia.
Qed.

Ltac unit_side :=
  first [ exact unit_letter_h | exact unit_letter_m | exact unit_letter_s
        | reflexivity | assumption ].

Ltac exec_tokens :=
  repeat first
    [ rewrite exec_unit_empty by unit_side
    | rewrite exec_unit_hit by unit_side
    | rewrite exec_unit_miss by unit_side
    | rewrite exec_unit_skip by unit_side ].

(** The hours, minutes and seconds [formatSeconds] prints. *)
Lemma hms_decomposition s :
  0 <= s ->
  let h := s / 3600 in
  let m := Z.rem s 3600 / 60 in
  let sec := Z.rem s 60 in
  0 <= h /\ 0 <= m /\ 0 <= sec /\ s = h * 3600 + m * 60 + sec.
Proof.
  intros Hs. cbv zeta.
  rewrite !Z.rem_mod_nonneg by lia.
  pose proof (Z.mod_pos_bound s 3600 ltac:(lia)).
  pose proof (Z.mod_pos_bound s 60 ltac:(lia)).
  repeat split.
  - apply Z.div_pos; lia.
  - apply Z.div_pos; lia.
  - lia.
  - Z.to_euclidean_division_equations. lia.
Qed.

Lemma parse_format_tokens h m sec :
  0 <= h -> 0 <= m -> 0 <= sec ->
  parseTimeToSeconds
    (Str.join " "
       (push_if ((sec >? 0) ||
                 Nat.eqb (List.length
                   (push_if (m >? 0) (Num.toString m ++ "m")
                      (push_if (h >? 0) (Num.toString h ++ "h") []))) 0)
          (Num.toString sec ++ "s")
          (push_if (m >? 0) (Num.toString m ++ "m")
             (push_if (h >? 0) (Num.toString h ++ "h") []))))
  = h * 3600 + m * 60 + sec.
Proof.
  intros Hh Hm Hsec.
  destruct (toString_nonneg h Hh) as (Ah & Nh & _).
  destruct (toString_nonneg m Hm) as (Am & Nm & _).
  destruct (toString_nonneg sec Hsec) as (As & Ns & _).
  destruct (Z.gtb_spec h 0), (Z.gtb_spec m 0), (Z.gtb_spec sec 0);
    cbn [push_if app List.length Nat.eqb orb Str.join];
    rewrite ?append_assoc; cbn [append];
    (rewrite parseTimeToSeconds_units
       by (apply not_all_digits_token; unit_side));
    exec_tokens; rewrite ?int_of_capture_toString; lia.
Qed.

(** Parsing undoes formatting on the non-negative integers, when both are
    read on exact integers. *)
Lemma parse_after_format (s : Z) :
  0 <= s -> parseTimeToSeconds (formatSeconds s) = s.
Proof.
  intros Hs.
  destruct (hms_decomposition s Hs) as (Hh & Hm & Hsec & Hsum).
  unfold formatSeconds. cbv zeta.
  rewrite parse_format_tokens by assumption.
  symmetry; exact Hsum.
Qed.

(** ** Line counts *)

Lemma split_length sep (s : string) :
  List.length (Str.split sep s) = S (Str.count sep s).
Proof.
  induction s as [|c t IH]; simpl; [reflexivity |].
  destruct (Ascii.eqb c sep); simpl; [now rewrite IH |].
  destruct (Str.split sep t); simpl in *; [discriminate | exact IH].
Qed.

Lemma split_segment sep (seg : string) :
  Str.count sep seg = O -> Str.split sep seg = [seg].
Proof.
  induction seg as [|c t IH]; simpl; [reflexivity |].
  destruct (Ascii.eqb c sep); [discriminate |].
  intros H. now rewrite IH.
Qed.

Lemma split_append sep (seg rest : string) :
  Str.count sep seg = O ->
  Str.split sep (seg ++ String sep rest) = seg :: Str.split sep rest.
Proof.
  induction seg as [|c t IH]; simpl.
  - now rewrite Ascii.eqb_refl.
  - destruct (Ascii.eqb c sep); [discriminate |].
    intros H. now rewrite IH.
Qed.

(** Splitting undoes joining: the segments come back one for one. *)
Lemma split_join sep (segs : list string) :
  segs <> [] ->
  Forall (fun seg => Str.count sep seg = O) segs ->
  Str.split sep (Str.join (String sep EmptyString) segs) = segs.
Proof.
  induction segs as [|seg rest IH]; [congruence |].
  intros _ H. inversion H as [|? ? Hseg Hrest]; subst.
  destruct rest as [|seg' rest'].
  - simpl. now apply split_segment.
  - change (Str.join (String sep EmptyString) (seg :: seg' :: rest'))
      with (seg ++ String sep (Str.join (String sep EmptyString) (seg' :: rest'))).
    rewrite split_append by exact Hseg.
    rewrite IH; [reflexivity | discriminate | exact Hrest].
Qed.

(** ** Sorting member names *)


Lemma leb_trans (a b c : string) :
  String.leb a b = true -> String.leb b c = true -> String.leb a c = true.
Proof.
  unfold String.leb. revert b c.
  induction a as [|x a IH]; intros [|y b] [|z c]; simpl; try easy.
  unfold Ascii.compare.
  destruct (N.compare_spec (N_of_ascii x) (N_of_ascii y)) as [Exy|Lxy|Gxy],
           (N.compare_spec (N_of_ascii y) (N_of_ascii z)) as [Eyz|Lyz|Gyz],
           (N.compare_spec (N_of_ascii x) (N_of_ascii z)) as [Exz|Lxz|Gxz];
    try easy; try lia.
  apply IH.
Qed.


Lemma insert_sorted_perm x l : Permutation (insert_sorted x l) (x :: l).
Proof.
  induction l as [|y t IH]; simpl; [reflexivity |].
  destruct (String.leb x y); [reflexivity |].
  rewrite IH. apply perm_swap.
Qed.

Lemma sort_perm l : Permutation (sort l) l.
Proof.
  induction l as [|x t IH]; simpl; [reflexivity |].
  rewrite insert_sorted_perm. now apply perm_skip.
Qed.



Lemma insert_sorted_comm x y l :
  insert_sorted x (insert_sorted y l) = insert_sorted y (insert_sorted x l).
Proof.
  assert (forall a b l, String.leb a b = true ->
            insert_sorted a (insert_sorted b l)
            = insert_sorted b (insert_sorted a l)) as Hle.
  { intros a b. induction l0 as [|z t IH]; intros Hab; simpl.
    - rewrite Hab. destruct (String.leb b a) eqn:Hba; [| reflexivity].
      now rewrite (String.leb_antisym a b Hab Hba).
    - destruct (String.leb b z) eqn:Hbz, (String.leb a z) eqn:Haz; simpl;
        rewrite ?Hab, ?Hbz, ?Haz.
      + destruct (String.leb b a) eqn:Hba; [| reflexivity].
        now rewrite (String.leb_antisym a b Hab Hba).
      + now rewrite (leb_trans a b z Hab Hbz) in Haz.
      + destruct (String.leb b a) eqn:Hba.
        * rewrite (String.leb_antisym a b Hab Hba) in Haz. congruence.
        * reflexivity.
      + now rewrite IH. }
  destruct (String.leb_total x y) as [H | H];
    [| symmetry]; now apply Hle.
Qed.

(** The sorted list does not depend on the order the names come in. *)
Lemma sort_permutation l l' : Permutation l l' -> sort l = sort l'.
Proof.
  induction 1; simpl.
  - reflexivity.
  - now f_equal.
  - apply insert_sorted_comm.
  - congruence.
Qed.

(** ** The probing loop *)

Lemma standard_loop_spec zip n plateNum plates :
  standard_loop zip n plateNum plates
  = (plates ++ flat_map (probe zip) (zseq plateNum n))%list.
Proof.
  revert plateNum plates; induction n as [|n IH]; intros plateNum plates; simpl.
  - now rewrite app_nil_r.
  - rewrite IH. unfold probe at 2.
    destruct (JSZip.file zip (gcodePath plateNum)); simpl.
    + now rewrite <- app_assoc.
    + reflexivity.
Qed.


Lemma In_zseq x start len :
  In x (zseq start len) <-> start <= x < start + Z.of_nat len.
Proof.
  revert start; induction len as [|len IH]; intros start; simpl.
  - lia.
  - rewrite IH. lia.
Qed.



Lemma zseq_sorted start len : StronglySorted Z.lt (zseq start len).
Proof.
  revert start; induction len as [|len IH]; intros start; simpl; constructor.
  - apply IH.
  - apply Forall_forall. intros x Hx. apply In_zseq in Hx. lia.
Qed.




Section ExtractionFacts.

Variable loadAsync : ArrayBuffer -> option JSZip.t.

Lemma extract_opened file buf zip :
  open_archive loadAsync file = Some (buf, zip) ->
  extractAllPlatesFromZip loadAsync file =
  if is_nil (discover zip)
  then inl (FileProcessingError (no_gcode_message (File.name file)))
  else inr (ExtractedPlates.Build (discover zip) buf (File.name file)).
Proof. intros H. unfold extractAllPlatesFromZip. now rewrite H. Qed.


End ExtractionFacts.


(** ** The fallback scan *)

Lemma fallback_loop_spec zip names i plates :
  fallback_loop zip names i plates
  = (plates ++ flat_map (fallback_record zip) (number_from (i + 1) names))%list.
Proof.
  revert i plates; induction names as [|name rest IH]; intros i plates; simpl.
  - now rewrite app_nil_r.
  - rewrite IH. unfold fallback_record at 2. simpl.
    destruct (JSZip.file zip name) as [o|]; [| reflexivity].
    destruct (Str.truthy (JSZip.text o)); [| reflexivity].
    now rewrite <- app_assoc.
Qed.


Lemma get_In_keys zip name o :
  JSZip.get zip name = Some o -> In name (JSZip.keys zip).
Proof.
  induction zip as [|[n o'] rest IH]; simpl; [discriminate |].
  destruct (String.eqb_spec n name); [now left | right; now apply IH].
Qed.

Lemma gcodeFiles_perm zip :
  Permutation (gcodeFiles zip)
              (filter (is_gcode_member zip) (JSZip.keys zip)).
Proof. apply sort_perm. Qed.

Lemma In_gcodeFiles zip name :
  In name (gcodeFiles zip) <->
  In name (JSZip.keys zip) /\ is_gcode_member zip name = true.
Proof.
  rewrite <- filter_In. split; apply Permutation_in;
    [| symmetry]; apply gcodeFiles_perm.
Qed.

Lemma number_from_nth first names i name :
  nth_error names i = Some name ->
  In (first + Z.of_nat i, name) (number_from first names).
Proof.
  revert first i; induction names as [|x rest IH]; intros first [|i] H;
    simpl in *; try discriminate.
  - left. inversion H. f_equal. lia.
  - right. replace (first + Z.pos (Pos.of_succ_nat i))
      with (first + 1 + Z.of_nat i) by lia.
    now apply IH.
Qed.

Lemma number_from_In first names j name :
  In (j, name) (number_from first names) ->
  exists i, nth_error names i = Some name /\ j = first + Z.of_nat i.
Proof.
  revert first; induction names as [|x rest IH]; intros first H;
    simpl in *; [contradiction |].
  destruct H as [H | H].
  - inversion H; subst. exists O. split; [reflexivity | lia].
  - destruct (IH _ H) as (i & Hi & ->). exists (S i). split; [exact Hi | lia].
Qed.

Lemma truthy_nonempty (s : string) : Str.truthy s = true <-> s <> EmptyString.
Proof.
  destruct s; cbn; split; intros H; try reflexivity; try discriminate.
  now exfalso; apply H.
Qed.

(** A matching member with text gets a record numbered by its position. *)
Lemma fallback_member zip name o :
  JSZip.get zip name = Some o ->
  Str.endsWith name ".gcode" = true ->
  JSZip.dir o = false ->
  JSZip.text o <> EmptyString ->
  exists i,
    nth_error (gcodeFiles zip) i = Some name /\
    In (plate_record (JSZip.text o) (Z.of_nat i + 1))
       (flat_map (fallback_record zip) (number_from 1 (gcodeFiles zip))).
Proof.
  intros Hget Hext Hdir Htext.
  assert (In name (gcodeFiles zip)) as Hin.
  { apply In_gcodeFiles. split; [eapply get_In_keys; eauto |].
    unfold is_gcode_member. now rewrite Hext, Hget, Hdir. }
  apply In_nth_error in Hin as [i Hi]. exists i. split; [exact Hi |].
  apply in_flat_map. exists (1 + Z.of_nat i, name). split.
  - now apply number_from_nth.
  - unfold fallback_record, JSZip.file. simpl. rewrite Hget, Hdir.
    apply truthy_nonempty in Htext. rewrite Htext.
    left. now rewrite Z.add_comm.
Qed.

(** Every record of the fallback comes from such a member. *)
Lemma fallback_origin zip plate :
  In plate (flat_map (fallback_record zip) (number_from 1 (gcodeFiles zip))) ->
  exists i name o,
    nth_error (gcodeFiles zip) i = Some name /\
    JSZip.get zip name = Some o /\
    Str.endsWith name ".gcode" = true /\
    JSZip.dir o = false /\
    JSZip.text o <> EmptyString /\
    plate = plate_record (JSZip.text o) (Z.of_nat i + 1).
Proof.
  intros H. apply in_flat_map in H as ([j name] & Hentry & Hrec).
  apply number_from_In in Hentry as (i & Hi & ->).
  unfold fallback_record, JSZip.file in Hrec. simpl in Hrec.
  destruct (JSZip.get zip name) as [o|] eqn:Hget; [| contradiction].
  destruct (JSZip.dir o) eqn:Hdir; [contradiction |].
  destruct (Str.truthy (JSZip.text o)) eqn:Ht; [| contradiction].
  destruct Hrec as [<- | []].
  exists i, name, o. repeat split; try assumption.
  - apply nth_error_In in Hi. apply In_gcodeFiles in Hi as [_ Hm].
    unfold is_gcode_member in Hm. now apply andb_true_iff in Hm as [Hm _].
  - now apply truthy_nonempty.
  - now rewrite Z.add_comm.
Qed.

Lemma fallback_numbers_sorted zip first names :
  StronglySorted Z.lt
    (map ParsedGCodeInfo.plateNumber
         (flat_map (fallback_record zip) (number_from first names))) /\
  Forall (fun n => first <= n)
    (map ParsedGCodeInfo.plateNumber
         (flat_map (fallback_record zip) (number_from first names))).
Proof.
  revert first; induction names as [|name rest IH]; intros first; simpl.
  - split; constructor.
  - destruct (IH (first + 1)) as [Hs Hb].
    assert (Forall (fun n => first < n)
              (map ParsedGCodeInfo.plateNumber
                 (flat_map (fallback_record zip)
                    (number_from (first + 1) rest)))) as Hlt.
    { eapply Forall_impl; [| exact Hb]. simpl; intros; lia. }
    unfold fallback_record at 1 3. simpl.
    destruct (JSZip.file zip name) as [o|]; simpl.
    + destruct (Str.truthy (JSZip.text o)); simpl.
      * split; constructor; try assumption; try lia.
        eapply Forall_impl; [| exact Hlt]. simpl; intros; lia.
      * split; [assumption |].
        eapply Forall_impl; [| exact Hlt]. simpl; intros; lia.
    + split; [assumption |].
      eapply Forall_impl; [| exact Hlt]. simpl; intros; lia.
Qed.



(** ** Independence of the order of the archive directory *)

Lemma get_not_in zip name :
  ~ In name (JSZip.keys zip) -> JSZip.get zip name = None.
Proof.
  induction zip as [|[n o] rest IH]; simpl; intros H; [reflexivity |].
  destruct (String.eqb_spec n name); [tauto |]. apply IH. tauto.
Qed.

Lemma get_permutation zip zip' :
  JSZip.wf zip -> Permutation zip zip' ->
  forall name, JSZip.get zip name = JSZip.get zip' name.
Proof.
  unfold JSZip.wf, JSZip.keys. intros Hwf Hperm. induction Hperm; intros name.
  - reflexivity.
  - destruct x as [n o]. simpl in *. inversion Hwf; subst.
    destruct (String.eqb n name); [reflexivity | now apply IHHperm].
  - destruct x as [n o], y as [n' o']. simpl in *.
    inversion Hwf as [|? ? Hnotin _]; subst.
    destruct (String.eqb_spec n name), (String.eqb_spec n' name);
      try reflexivity.
    subst. exfalso. apply Hnotin. now left.
  - rewrite IHHperm1 by exact Hwf. apply IHHperm2.
    eapply Permutation_NoDup; [| exact Hwf]. now apply Permutation_map.
Qed.

Lemma filter_permutation {A} (p : A -> bool) l l' :
  Permutation l l' -> Permutation (filter p l) (filter p l').
Proof.
  induction 1; simpl.
  - reflexivity.
  - destruct (p x); [now apply perm_skip | assumption].
  - destruct (p x), (p y); try reflexivity. apply perm_swap.
  - etransitivity; eassumption.
Qed.

Lemma standard_loop_ext zip zip' n plateNum plates :
  (forall name, JSZip.get zip name = JSZip.get zip' name) ->
  standard_loop zip n plateNum plates = standard_loop zip' n plateNum plates.
Proof.
  intros Hget. revert plateNum plates; induction n as [|n IH]; intros; simpl;
    [reflexivity |].
  unfold JSZip.file. now rewrite Hget, IH.
Qed.

Lemma fallback_loop_ext zip zip' names i plates :
  (forall name, JSZip.get zip name = JSZip.get zip' name) ->
  fallback_loop zip names i plates = fallback_loop zip' names i plates.
Proof.
  intros Hget. revert i plates; induction names as [|x rest IH]; intros; simpl;
    [reflexivity |].
  unfold JSZip.file. now rewrite Hget, IH.
Qed.

(** Listing the members of an archive in another order changes nothing. *)
Lemma discover_permutation zip zip' :
  JSZip.wf zip -> Permutation zip zip' -> discover zip' = discover zip.
Proof.
  intros Hwf Hperm.
  pose proof (get_permutation zip zip' Hwf Hperm) as Hget.
  unfold discover.
  rewrite <- (standard_loop_ext zip zip') by exact Hget.
  destruct (is_nil (standard_loop zip 16 1 [])); [| reflexivity].
  rewrite <- (fallback_loop_ext zip zip') by exact Hget.
  f_equal. unfold gcodeFiles. apply sort_permutation.
  rewrite (filter_ext (is_gcode_member zip') (is_gcode_member zip)).
  - apply filter_permutation. symmetry. now apply Permutation_map.
  - intros name. unfold is_gcode_member. now rewrite Hget.
Qed.

(** ** Order of the records *)






Lemma endsWith_append (a b : string) : Str.endsWith (a ++ b) b = true.
Proof.
  induction a as [|c a IH]; simpl.
  - destruct b; simpl; rewrite ?Ascii.eqb_refl, ?String.eqb_refl; reflexivity.
  - rewrite IH. apply orb_true_r.
Qed.


Lemma prefix_append (a b : string) : String.prefix a (a ++ b) = true.
Proof.
  induction a as [|c a IH]; simpl; [now destruct b |].
  destruct (ascii_dec c c); [exact IH | congruence].
Qed.

Lemma includes_after (a s sub : string) :
  Str.includes s sub = true -> Str.includes (a ++ s) sub = true.
Proof.
  intros H. induction a as [|c a IH]; simpl; [exact H |].
  rewrite IH. apply orb_true_r.
Qed.

Lemma includes_middle (a name b : string) :
  Str.includes (a ++ name ++ b) name = true.
Proof.
  apply includes_after. destruct name as [|c t]; simpl.
  - now destruct b.
  - destruct (ascii_dec c c); [| congruence].
    now rewrite prefix_append.
Qed.

Lemma discover_records (zip : JSZip.t) plate :
  In plate (discover zip) ->
  plate = plate_record (ParsedGCodeInfo.gcode plate)
                       (ParsedGCodeInfo.plateNumber plate).
Proof.
  unfold discover. rewrite standard_loop_spec. cbn [app].
  assert (forall l, In plate (flat_map (probe zip) l) ->
            plate = plate_record (ParsedGCodeInfo.gcode plate)
                                 (ParsedGCodeInfo.plateNumber plate)) as Hprobe.
  { intros l H. apply in_flat_map in H as (n & _ & H). unfold probe in H.
    destruct (JSZip.file zip (gcodePath n)); [| contradiction].
    destruct H as [<- | []]. reflexivity. }
  destruct (is_nil (flat_map (probe zip) (zseq 1 16))) eqn:E.
  - rewrite fallback_loop_spec. intros H. apply in_app_or in H as [H | H].
    + now apply (Hprobe (zseq 1 16)).
    + apply in_flat_map in H as (entry & _ & H). unfold fallback_record in H.
      destruct (JSZip.file zip (snd entry)); [| contradiction].
      destruct (Str.truthy _); [| contradiction].
      destruct H as [<- | []]. reflexivity.
  - apply Hprobe.
Qed.

(** ** Extraction: the stated properties *)






(** The archive directory may list [b.gcode] first or [a.gcode] first: the
    record of [a.gcode] comes first either way. *)
Example fallback_a_before_b :
  discover Sample.b_then_a = [plate_record "G1 X1" 1; plate_record "G1 X2" 2] /\
  discover Sample.a_then_b = [plate_record "G1 X1" 1; plate_record "G1 X2" 2].
Proof. split; reflexivity. Qed.





(** The record of [Metadata/plate_17.gcode] is numbered 1, not 17. *)
Example plate_17_is_numbered_by_position :
  extractAllPlatesFromZip (Sample.opens_as Sample.plate_17)
                          (Sample.upload "job.3mf")
  = inr (ExtractedPlates.Build [plate_record "G28" 1] [] "job.3mf").
Proof. reflexivity. Qed.


(** C5.  When the bytes of the upload cannot be read or are not a ZIP
    container, extraction fails with the invalid-archive error, whose
    message contains the file's name; no list of plates is returned. *)
Theorem invalid_archive_rejected
        (loadAsync : ArrayBuffer -> option JSZip.t) (file : File.t) :
  (forall buf, File.arrayBuffer file = Some buf -> loadAsync buf = None) ->
  extractAllPlatesFromZip loadAsync file
  = inl (FileProcessingError (invalid_archive_message (File.name file))) /\
  Str.includes (invalid_archive_message (File.name file)) (File.name file)
  = true /\
  (forall e, extractAllPlatesFromZip loadAsync file <> inr e).
Proof.
  intros Hbad.
  assert (extractAllPlatesFromZip loadAsync file
          = inl (FileProcessingError (invalid_archive_message (File.name file))))
    as Hfail.
  { unfold extractAllPlatesFromZip, open_archive.
    destruct (File.arrayBuffer file) as [buf|] eqn:E; [| reflexivity].
    now rewrite (Hbad buf eq_refl). }
  repeat split.
  - exact Hfail.
  - unfold invalid_archive_message. apply includes_middle.
  - intros e. rewrite Hfail. discriminate.
Qed.

Lemma invalid_archive_rejected_witness :
  extractAllPlatesFromZip Sample.rejects (Sample.upload "notes.txt")
  = inl (FileProcessingError (invalid_archive_message "notes.txt")) /\
  Str.includes (invalid_archive_message "notes.txt") "notes.txt" = true /\
  (forall e, extractAllPlatesFromZip Sample.rejects (Sample.upload "notes.txt")
             <> inr e).
Proof.
  apply (invalid_archive_rejected Sample.rejects (Sample.upload "notes.txt")).
  intros buf _. reflexivity.
Defined.

(** C4.  The line count stored with every extracted plate is the number of
    segments the line breaks cut its text into, one more than the number of
    line breaks, which is the length of [split].  A text of N segments has
    line count N, also when the last segment is empty because the text ends
    in a line break. *)
Theorem lineCount_counts_segments
        (loadAsync : ArrayBuffer -> option JSZip.t) (file : File.t)
        (e : ExtractedPlates.t) (plate : ParsedGCodeInfo.t) :
  extractAllPlatesFromZip loadAsync file = inr e ->
  In plate (ExtractedPlates.plates e) ->
  ParsedGCodeInfo.lineCount plate
  = Z.of_nat (S (Str.count Char.LF (ParsedGCodeInfo.gcode plate))) /\
  ParsedGCodeInfo.lineCount plate
  = Z.of_nat (List.length (Str.split Char.LF (ParsedGCodeInfo.gcode plate))) /\
  (forall segs,
     segs <> [] -> Forall newline_free segs ->
     ParsedGCodeInfo.gcode plate = Str.join nl segs ->
     ParsedGCodeInfo.lineCount plate = Z.of_nat (List.length segs)) /\
  (forall body,
     Forall newline_free body ->
     ParsedGCodeInfo.gcode plate = Str.join nl (body ++ [EmptyString]) ->
     ParsedGCodeInfo.lineCount plate
     = Z.of_nat (List.length (body ++ [EmptyString]))).
Proof.
  intros Hex Hin.
  assert (ParsedGCodeInfo.lineCount plate
          = Z.of_nat (List.length
                        (Str.split Char.LF (ParsedGCodeInfo.gcode plate))))
    as Hsplit.
  { unfold extractAllPlatesFromZip in Hex.
    destruct (open_archive loadAsync file) as [[buf zip]|]; [| discriminate].
    destruct (is_nil (discover zip)); [discriminate |].
    inversion Hex; subst e. simpl in Hin.
    now rewrite (discover_records zip plate Hin) at 1. }
  assert (forall segs,
            segs <> [] -> Forall newline_free segs ->
            ParsedGCodeInfo.gcode plate = Str.join nl segs ->
            ParsedGCodeInfo.lineCount plate = Z.of_nat (List.length segs))
    as Hjoin.
  { intros segs Hne Hfree Hg. rewrite Hsplit, Hg. unfold nl.
    now rewrite split_join. }
  repeat split.
  - now rewrite Hsplit, split_length.
  - exact Hsplit.
  - exact Hjoin.
  - intros body Hfree Hg. apply Hjoin; [| | exact Hg].
    + now destruct body.
    + apply Forall_app. split; [exact Hfree |]. now repeat constructor.
Qed.

Lemma lineCount_counts_segments_witness :
  let plate := plate_record ("G28" ++ nl ++ "G1 X1" ++ nl) 1 in
  ParsedGCodeInfo.lineCount plate = 3 /\
  ParsedGCodeInfo.lineCount plate
  = Z.of_nat (S (Str.count Char.LF (ParsedGCodeInfo.gcode plate))).
Proof.
  split; [reflexivity |].
  apply (lineCount_counts_segments (Sample.opens_as Sample.two_plates)
           (Sample.upload "job.gcode.3mf")
           (ExtractedPlates.Build
              [plate_record ("G28" ++ nl ++ "G1 X1" ++ nl) 1;
               plate_record ";TIME:90" 2] [] "job.gcode.3mf")).
  - reflexivity.
  - left. reflexivity.
Defined.

(** Two terminated lines are three segments. *)
Example lineCount_trailing_newline :
  ParsedGCodeInfo.lineCount (plate_record ("G28" ++ nl ++ "G1 X1" ++ nl) 1) = 3
  /\ Str.split Char.LF ("G28" ++ nl ++ "G1 X1" ++ nl)
     = ["G28"; "G1 X1"; EmptyString].
Proof. split; reflexivity. Qed.

(** ** Reading the estimate out of the G-code *)

Section RunFacts.
Context {R : Type}.

Lemma star_result g p inp (k : string -> option R) x :
  star g p inp k = Some x -> exists rest, k rest = Some x.
Proof.
  induction inp as [|c t IH]; simpl; [now exists EmptyString |].
  destruct g.
  - destruct (p c).
    + destruct (star true p t k) eqn:E.
      * intros H; inversion H; subst. now apply IH.
      * intros H. now exists (String c t).
    + intros H. now exists (String c t).
  - destruct (k (String c t)) eqn:E.
    + intros H; inversion H; subst. now exists (String c t).
    + destruct (p c); [exact IH | discriminate].
Qed.

(** Whatever a match returns was returned by its continuation. *)
Lemma run_result r : forall inp (k : string -> option R) x,
  run r inp k = Some x -> exists rest, k rest = Some x.
Proof.
  induction r as [|p|g p|r1 IH1 r2 IH2|r1 IH1 r2 IH2|]; simpl; intros inp k x H.
  - now exists inp.
  - destruct inp as [|c t]; [discriminate |].
    destruct (p c); [now exists t | discriminate].
  - eapply star_result; eassumption.
  - apply IH1 in H as (rest & H). now apply IH2 in H.
  - destruct (run r1 inp k) eqn:E.
    + inversion H; subst. now apply IH1 in E.
    + now apply IH2 in H.
  - destruct inp; [now exists EmptyString | discriminate].
Qed.

Lemma star_greedy_accept p inp (k : string -> option R) :
  k (Str.drop_while p inp) <> None ->
  star true p inp k = k (Str.drop_while p inp).
Proof.
  induction inp as [|c t IH]; simpl; [reflexivity |].
  destruct (p c); [| reflexivity].
  intros H. rewrite (IH H).
  destruct (k (Str.drop_while p t)); [reflexivity | congruence].
Qed.
End RunFacts.

Lemma take_drop_while p (s : string) :
  Str.take_while p s ++ Str.drop_while p s = s.
Proof.
  induction s as [|c t IH]; simpl; [reflexivity |].
  destruct (p c); simpl; [now rewrite IH | reflexivity].
Qed.

Lemma take_while_all p (s : string) : Str.all p (Str.take_while p s) = true.
Proof.
  induction s as [|c t IH]; simpl; [reflexivity |].
  destruct (p c) eqn:E; simpl; [now rewrite E | reflexivity].
Qed.

Lemma exec_result p : forall inp cap,
  exec p inp = Some cap -> exists s, match_here p s = Some cap.
Proof.
  induction inp as [|c t IH]; intros cap; cbn [exec].
  - destruct (match_here p EmptyString) eqn:E; [| discriminate].
    intros H; inversion H; subst. now exists EmptyString.
  - destruct (match_here p (String c t)) eqn:E.
    + intros H; inversion H; subst. now exists (String c t).
    + apply IH.
Qed.

Lemma consumed_take_while p c (t : string) :
  consumed (String c t) (Str.drop_while p t) = String c (Str.take_while p t).
Proof.
  transitivity (consumed (String c (Str.take_while p t) ++ Str.drop_while p t)
                         (Str.drop_while p t)).
  - f_equal. simpl. now rewrite take_drop_while.
  - apply consumed_append.
Qed.

(** What [;TIME...] captures is a non-empty run of digits. *)
Lemma pat_time_capture gcode cap :
  exec pat_time gcode = Some cap -> bare_integer cap = true.
Proof.
  intros H. apply exec_result in H as (s & H).
  unfold match_here in H. apply run_result in H as (s1 & H).
  cbn [group pat_time Plus run] in H.
  destruct s1 as [|c t]; [discriminate |].
  destruct (Char.is_digit c) eqn:Hc; [| discriminate].
  rewrite star_greedy_accept in H by (cbn [run]; discriminate).
  cbn [run after pat_time] in H. inversion H; subst cap.
  rewrite consumed_take_while. unfold bare_integer. simpl.
  now rewrite Hc, take_while_all.
Qed.

Lemma drop_while_end_keep p (s : string) :
  Str.all (fun c => negb (p c)) s = true -> Str.drop_while_end p s = s.
Proof.
  induction s as [|c t IH]; simpl; [reflexivity |].
  intros H. apply andb_true_iff in H as [Hc Ht].
  apply negb_true_iff in Hc. rewrite Hc, (IH Ht). reflexivity.
Qed.

Lemma all_impl (p q : ascii -> bool) (s : string) :
  (forall c, p c = true -> q c = true) ->
  Str.all p s = true -> Str.all q s = true.
Proof.
  intros Hpq. induction s as [|c t IH]; simpl; [reflexivity |].
  intros H. apply andb_true_iff in H as [Hc Ht].
  now rewrite (Hpq c Hc), (IH Ht).
Qed.

Lemma trim_digits (s : string) :
  Str.all Char.is_digit s = true -> Str.trim s = s.
Proof.
  intros H. unfold Str.trim.
  assert (Str.drop_while Char.is_space s = s) as ->.
  { destruct s as [|c t]; [reflexivity |]. simpl in *.
    apply andb_true_iff in H as [Hc _]. now rewrite (digit_not_space c Hc). }
  apply drop_while_end_keep. revert H. apply all_impl.
  intros c Hc. now rewrite (digit_not_space c Hc).
Qed.

(** The capture is trimmed; if what remains is a bare integer it is taken
    as seconds and formatted, otherwise the trimmed text is the result. *)
Lemma render_capture_spec cap :
  render_capture cap =
  if bare_integer (Str.trim cap)
  then formatSeconds (Num.digits_value 0 (Str.trim cap))
  else Str.trim cap.
Proof.
  unfold render_capture, bare_integer. cbv zeta.
  rewrite test_all_digits_spec.
  destruct (Str.truthy (Str.trim cap) && Str.all Char.is_digit (Str.trim cap))
    eqn:E; [| reflexivity].
  apply andb_true_iff in E as [Hne Hall].
  rewrite parseInt_digits; [reflexivity | exact Hall |].
  now apply truthy_nonempty.
Qed.

(** A tag on the first line does not beat the comment of higher priority
    on the second. *)
Example parseEstimatedTime_priority_over_position :
  let gcode := ";TIME:90" ++ nl ++
               "; estimated printing time (normal mode) = 2h 5m" ++ nl in
  exec pat_time gcode = Some "90" /\
  parseEstimatedTime gcode = Some "2h 5m".
Proof. split; vm_compute; reflexivity. Qed.

(** ** No [NaN] on the way

    [Number.parseInt] is only ever applied to texts it can read, so the
    branches of the embedding that stand for [NaN] are never taken. *)

Lemma star_result_split {R} g p inp (k : string -> option R) x :
  star g p inp k = Some x ->
  exists pre rest,
    inp = pre ++ rest /\ Str.all p pre = true /\ k rest = Some x.
Proof.
  induction inp as [|c t IH]; simpl.
  - intros H. now exists EmptyString, EmptyString.
  - assert (p c = true -> star g p t k = Some x ->
            exists pre rest,
              String c t = pre ++ rest /\ Str.all p pre = true /\
              k rest = Some x) as Hmore.
    { intros Hc H. destruct (IH H) as (pre & rest & -> & Hpre & Hk).
      exists (String c pre), rest. simpl. now rewrite Hc, Hpre. }
    assert (k (String c t) = Some x ->
            exists pre rest,
              String c t = pre ++ rest /\ Str.all p pre = true /\
              k rest = Some x) as Hstop.
    { intros H. now exists EmptyString, (String c t). }
    destruct g.
    + destruct (p c) eqn:Hc; [| exact Hstop].
      destruct (star true p t k) eqn:E; [| exact Hstop].
      intros H; inversion H; subst. now apply Hmore.
    + destruct (k (String c t)) eqn:E.
      * intros H; inversion H; subst. now apply Hstop.
      * destruct (p c) eqn:Hc; [now apply Hmore | discriminate].
Qed.

(** What a unit pattern captures is a non-empty run of digits. *)
Lemma pat_unit_capture u inp cap :
  exec (pat_unit u) inp = Some cap -> bare_integer cap = true.
Proof.
  intros H. apply exec_result in H as (s & H).
  unfold match_here in H. cbn [before group pat_unit Plus run] in H.
  destruct s as [|c t]; [discriminate |].
  destruct (Char.is_digit c) eqn:Hc; [| discriminate].
  apply star_result_split in H as (pre & rest & -> & Hpre & H).
  apply run_result in H as (_ & H). inversion H; subst cap.
  change (String c (pre ++ rest)) with (String c pre ++ rest).
  rewrite consumed_append. unfold bare_integer. simpl. now rewrite Hc, Hpre.
Qed.

Lemma bare_integer_parses (s : string) :
  bare_integer s = true -> Num.parseInt s = Some (Num.digits_value 0 s).
Proof.
  unfold bare_integer. intros H. apply andb_true_iff in H as [Hne Hall].
  apply parseInt_digits; [exact Hall | now apply truthy_nonempty].
Qed.

(** The three captures of [parseTimeToSeconds] all parse. *)
Lemma unit_capture_parses u inp cap :
  exec (pat_unit u) inp = Some cap ->
  Num.parseInt cap = Some (int_of_capture cap).
Proof.
  intros H. apply pat_unit_capture, bare_integer_parses in H.
  unfold int_of_capture. now rewrite H.
Qed.

(** So does the text that passed [/^\d+$/]. *)
Lemma all_digits_parses (s : string) :
  test_all_digits s = true -> Num.parseInt s = Some (int_of_capture s).
Proof.
  rewrite test_all_digits_spec. intros H.
  apply bare_integer_parses in H. unfold int_of_capture. now rewrite H.
Qed.

(** ** The total estimate *)

Lemma total_loop_spec files totalSeconds hasAnyTime :
  total_loop files totalSeconds hasAnyTime
  = (totalSeconds
     + sum_Z (map estimate_seconds (filter carries_nonempty_estimate files)),
     hasAnyTime || existsb carries_nonempty_estimate files).
Proof.
  revert totalSeconds hasAnyTime.
  induction files as [|file rest IH]; intros totalSeconds hasAnyTime.
  - simpl. now rewrite Z.add_0_r, orb_false_r.
  - cbn [total_loop filter existsb].
    assert (carries_nonempty_estimate file
            = truthy_opt (GCodeFile.estimatedTime file)) as Hc by reflexivity.
    assert (forall e, GCodeFile.estimatedTime file = Some e ->
              estimate_seconds file
              = parseTimeToSeconds e * GCodeFile.copies file) as Hs.
    { intros e E. unfold estimate_seconds. now rewrite E. }
    rewrite Hc.
    destruct (GCodeFile.estimatedTime file) as [e|]; cbn [truthy_opt].
    + destruct (Str.truthy e); rewrite IH; [| reflexivity].
      cbn [map sum_Z fold_right]. rewrite (Hs e eq_refl).
      f_equal; [unfold sum_Z; lia | now rewrite orb_true_r].
    + now rewrite IH.
Qed.

(** An empty estimate parses to no seconds at all. *)
Lemma estimate_seconds_empty file :
  carries_nonempty_estimate file = false -> estimate_seconds file = 0.
Proof.
  unfold carries_nonempty_estimate, estimate_seconds, truthy_opt.
  destruct (GCodeFile.estimatedTime file) as [[|c t]|]; simpl;
    try reflexivity; discriminate.
Qed.

Lemma sum_nonempty_estimates files :
  sum_Z (map estimate_seconds (filter carries_nonempty_estimate files))
  = sum_Z (map estimate_seconds (filter carries_estimate files)).
Proof.
  induction files as [|file rest IH]; simpl; [reflexivity |].
  destruct (carries_nonempty_estimate file) eqn:N.
  - assert (carries_estimate file = true) as ->.
    { unfold carries_nonempty_estimate, carries_estimate, truthy_opt in *.
      now destruct (GCodeFile.estimatedTime file). }
    simpl. now rewrite IH.
  - destruct (carries_estimate file); simpl; [| exact IH].
    rewrite (estimate_seconds_empty file N), IH. reflexivity.
Qed.

Example calculateTotalTime_mixed :
  calculateTotalTime
    [sample_file (Some "1h 1m 1s") 2; sample_file None 5;
     sample_file (Some "90") 1]
  = Some "2h 3m 32s".
Proof. vm_compute. reflexivity. Qed.

Example calculateTotalTime_no_estimates :
  calculateTotalTime [sample_file None 1; sample_file None 3] = None.
Proof. reflexivity. Qed.

(** ** Copy counts in the queue *)

Lemma copies_of_input_range value : 1 <= copies_of_input value <= 99.
Proof. unfold copies_of_input. lia. Qed.

(** On the decimal text of an integer the field clamps that integer. *)
Lemma copies_of_input_clamps n :
  copies_of_input (Num.toString n) = Z.max 1 (Z.min 99 n).
Proof.
  unfold copies_of_input. rewrite parseInt_toString.
  destruct (Z.eqb_spec n 0); subst; lia.
Qed.

Lemma handleUpdateCopies_ok id copies files :
  1 <= copies <= 99 -> copies_ok files ->
  copies_ok (handleUpdateCopies id copies files).
Proof.
  intros Hc Hok. unfold copies_ok, handleUpdateCopies.
  apply Forall_map. eapply Forall_impl; [| exact Hok].
  intros file Hf. simpl.
  destruct (String.eqb (GCodeFile.id file) id); [exact Hc | exact Hf].
Qed.

Lemma Forall_take_drop {A} (P : A -> Prop) n l :
  Forall P l -> Forall P (firstn n l) /\ Forall P (skipn n l).
Proof. intros H. apply Forall_app. now rewrite firstn_skipn. Qed.

Lemma Forall_kept {A} (P : A -> Prop) (keep : A -> bool) l :
  Forall P l -> Forall P (filter keep l).
Proof.
  rewrite !Forall_forall. intros H x Hx. apply filter_In in Hx as [Hx _]. auto.
Qed.

Lemma copies_ok_nth files index file :
  copies_ok files -> nth_error files index = Some file ->
  1 <= GCodeFile.copies file <= 99.
Proof.
  intros Hok Hn. apply nth_error_In in Hn.
  exact (proj1 (Forall_forall _ _) Hok file Hn).
Qed.

Lemma handleDragEnd_ok dragIndex dragOverIndex files reordered :
  copies_ok files ->
  handleDragEnd dragIndex dragOverIndex files = Some reordered ->
  copies_ok reordered.
Proof.
  unfold handleDragEnd, copies_ok. intros Hok H.
  destruct dragIndex as [i|], dragOverIndex as [j|]; try discriminate.
  destruct (negb (Nat.eqb i j)); [| discriminate].
  destruct (nth_error files i) as [draggedItem|] eqn:E; [| discriminate].
  inversion H; subst reordered. unfold insert_at, remove_at.
  assert (Forall (fun file => 1 <= GCodeFile.copies file <= 99)
                 (firstn i files ++ skipn (S i) files)) as Hrem.
  { apply Forall_app. split; now apply Forall_take_drop. }
  apply Forall_app. split; [now apply Forall_take_drop |].
  constructor; [| now apply Forall_take_drop].
  now apply (copies_ok_nth files i).
Qed.

(** The reordering moves files around and neither drops nor invents any. *)
Lemma handleDragEnd_permutation dragIndex dragOverIndex files reordered :
  handleDragEnd dragIndex dragOverIndex files = Some reordered ->
  Permutation files reordered.
Proof.
  unfold handleDragEnd. intros H.
  destruct dragIndex as [i|], dragOverIndex as [j|]; try discriminate.
  destruct (negb (Nat.eqb i j)); [| discriminate].
  destruct (nth_error files i) as [draggedItem|] eqn:E; [| discriminate].
  inversion H; subst reordered. unfold insert_at, remove_at.
  apply nth_error_split in E as (l1 & l2 & -> & <-).
  assert (firstn (List.length l1) (l1 ++ draggedItem :: l2) = l1) as ->.
  { rewrite firstn_app, Nat.sub_diag, firstn_all. simpl. apply app_nil_r. }
  assert (skipn (S (List.length l1)) (l1 ++ draggedItem :: l2) = l2) as ->.
  { change (l1 ++ draggedItem :: l2)%list
      with (l1 ++ [draggedItem] ++ l2)%list.
    rewrite app_assoc.
    replace (S (List.length l1)) with (List.length (l1 ++ [draggedItem]))
      by (rewrite length_app; simpl; lia).
    now rewrite skipn_app, skipn_all, Nat.sub_diag. }
  etransitivity; [symmetry; apply Permutation_middle |].
  etransitivity; [| apply Permutation_middle].
  apply perm_skip. now rewrite firstn_skipn.
Qed.

Section QueueFacts.

Variable loadAsync : ArrayBuffer -> option JSZip.t.
Variable generateId : nat -> string.

Lemma map_plates_copies fileName originalZip isMultiPlate n plates :
  Forall (fun file => GCodeFile.copies file = 1)
         (map_plates generateId fileName originalZip isMultiPlate n plates).
Proof.
  revert n; induction plates as [|plate rest IH]; intros n; simpl;
    constructor; [reflexivity | apply IH].
Qed.

Lemma map_plates_strip fileName originalZip isMultiPlate n plates :
  map strip (map_plates generateId fileName originalZip isMultiPlate n plates)
  = map (to_file fileName originalZip isMultiPlate EmptyString) plates.
Proof.
  revert n; induction plates as [|plate rest IH]; intros n; simpl;
    [reflexivity | now rewrite IH].
Qed.

(** Every file an upload creates has copy count 1. *)
Lemma processUploadedFile_copies file n :
  Forall (fun f => GCodeFile.copies f = 1)
         (match processUploadedFile loadAsync generateId file n with
          | inr (files, _) => files
          | inl _ => []
          end).
Proof.
  unfold processUploadedFile.
  destruct (extractAllPlatesFromZip loadAsync file); [constructor |].
  apply map_plates_copies.
Qed.

Lemma processUploadedFile_strip file n :
  map strip (match processUploadedFile loadAsync generateId file n with
             | inr (files, _) => files
             | inl _ => []
             end)
  = files_of_upload loadAsync file.
Proof.
  unfold processUploadedFile, files_of_upload.
  destruct (extractAllPlatesFromZip loadAsync file); [reflexivity |].
  apply map_plates_strip.
Qed.

Lemma processUploadedFile_error file n :
  match processUploadedFile loadAsync generateId file n with
  | inr _ => []
  | inl e => [message_of e]
  end = errors_of_upload loadAsync file.
Proof.
  unfold processUploadedFile, errors_of_upload.
  now destruct (extractAllPlatesFromZip loadAsync file).
Qed.

(** The loop handles every upload of the batch, whatever happened to the
    ones before it. *)
Lemma batch_loop_spec selectedFiles n newFiles errors :
  let '(newFiles', errors', _) :=
    batch_loop loadAsync generateId selectedFiles n newFiles errors in
  map strip newFiles'
  = (map strip newFiles ++ flat_map (files_of_upload loadAsync) selectedFiles)%list
  /\ errors'
     = (errors ++ flat_map (errors_of_upload loadAsync) selectedFiles)%list
  /\ (Forall (fun f => GCodeFile.copies f = 1) newFiles ->
      Forall (fun f => GCodeFile.copies f = 1) newFiles').
Proof.
  revert n newFiles errors.
  induction selectedFiles as [|file rest IH]; intros n newFiles errors.
  - simpl. now rewrite !app_nil_r.
  - cbn [batch_loop flat_map].
    pose proof (processUploadedFile_strip file n) as Hs.
    pose proof (processUploadedFile_error file n) as He.
    pose proof (processUploadedFile_copies file n) as Hc.
    destruct (processUploadedFile loadAsync generateId file n)
      as [[message] | [processedFiles n']].
    + specialize (IH n newFiles (errors ++ [message])%list).
      destruct (batch_loop loadAsync generateId rest n newFiles
                           (errors ++ [message])) as [[newFiles' errors'] k].
      destruct IH as (IH1 & IH2 & IH3).
      rewrite <- Hs, <- He. simpl in *.
      repeat split; [exact IH1 | now rewrite IH2, <- app_assoc | exact IH3].
    + specialize (IH n' (newFiles ++ processedFiles)%list errors).
      destruct (batch_loop loadAsync generateId rest n'
                           (newFiles ++ processedFiles) errors)
        as [[newFiles' errors'] k].
      destruct IH as (IH1 & IH2 & IH3).
      rewrite <- Hs, <- He. simpl in *.
      repeat split.
      * now rewrite IH1, map_app, <- app_assoc.
      * exact IH2.
      * intros Hn. apply IH3. apply Forall_app. now split.
Qed.

Lemma handleFilesSelected_ok selectedFiles st n :
  copies_ok (AppState.files st) ->
  copies_ok
    (AppState.files
       (fst (handleFilesSelected loadAsync generateId selectedFiles st n))).
Proof.
  intros Hok. unfold handleFilesSelected.
  pose proof (batch_loop_spec selectedFiles n [] []) as H.
  destruct (batch_loop loadAsync generateId selectedFiles n [] [])
    as [[newFiles errors] n'].
  destruct H as (_ & _ & Hc). simpl.
  apply Forall_app. split; [exact Hok |].
  eapply Forall_impl; [| apply Hc; constructor].
  simpl. intros f Hf. lia.
Qed.

(** No event takes a copy count out of [1, 99]. *)
Lemma step_ok s e :
  copies_ok (AppState.files (fst s)) ->
  copies_ok (AppState.files (fst (step loadAsync generateId s e))).
Proof.
  destruct s as [st n]. simpl fst. intros Hok.
  destruct e as [selectedFiles | index value | index | index | index
                 | dragIndex dragOverIndex | ]; simpl.
  - now apply handleFilesSelected_ok.
  - unfold on_item.
    destruct (nth_error (AppState.files st) index); simpl; [| exact Hok].
    unfold handleCopiesChange.
    apply handleUpdateCopies_ok; [apply copies_of_input_range | exact Hok].
  - unfold on_item.
    destruct (nth_error (AppState.files st) index) as [file|] eqn:E; simpl;
      [| exact Hok].
    pose proof (copies_ok_nth _ _ _ Hok E). unfold incrementCopies.
    destruct (Z.ltb_spec (GCodeFile.copies file) 99); [| exact Hok].
    apply handleUpdateCopies_ok; [lia | exact Hok].
  - unfold on_item.
    destruct (nth_error (AppState.files st) index) as [file|] eqn:E; simpl;
      [| exact Hok].
    pose proof (copies_ok_nth _ _ _ Hok E). unfold decrementCopies.
    destruct (Z.gtb_spec (GCodeFile.copies file) 1); [| exact Hok].
    apply handleUpdateCopies_ok; [lia | exact Hok].
  - unfold on_item.
    destruct (nth_error (AppState.files st) index); simpl; [| exact Hok].
    now apply Forall_kept.
  - destruct (handleDragEnd dragIndex dragOverIndex (AppState.files st))
      as [reordered|] eqn:E; simpl; [| exact Hok].
    eapply handleDragEnd_ok; eassumption.
  - constructor.
Qed.

Lemma run_events_ok s events :
  copies_ok (AppState.files (fst s)) ->
  copies_ok
    (AppState.files (fst (run_events loadAsync generateId s events))).
Proof.
  revert s; induction events as [|e rest IH]; intros s Hok; simpl;
    [exact Hok |].
  apply IH. now apply step_ok.
Qed.

End QueueFacts.

(** A rejected upload between two good ones: four files reach the queue
    and one message is reported. *)
Example batch_with_one_failure :
  let st' :=
    fst (handleFilesSelected sample_loader constant_id
           [good_upload; bad_upload; good_upload] AppState.initial 0) in
  map GCodeFile.displayName (AppState.files st')
  = ["good.gcode.3mf — Plate 1"; "good.gcode.3mf — Plate 2";
     "good.gcode.3mf — Plate 1"; "good.gcode.3mf — Plate 2"] /\
  AppState.error st' = Some (invalid_archive_message "bad.3mf").
Proof. vm_compute. split; reflexivity. Qed.

(** * Further properties of the code *)

(** ** Durations *)

Lemma digit_val_nonneg c : Char.is_digit c = true -> 0 <= Char.digit_val c.
Proof. each_char c. Qed.

Lemma digits_value_nonneg (s : string) : forall acc,
  0 <= acc -> 0 <= Num.digits_value acc s.
Proof.
  induction s as [|c t IH]; intros acc Hacc; cbn [Num.digits_value];
    [exact Hacc |].
  destruct (Char.is_digit c) eqn:Hc; [| exact Hacc].
  apply IH. pose proof (digit_val_nonneg c Hc). lia.
Qed.

Lemma int_of_bare_integer (s : string) :
  bare_integer s = true -> int_of_capture s = Num.digits_value 0 s.
Proof.
  intros H. unfold int_of_capture. now rewrite (bare_integer_parses s H).
Qed.

Lemma int_of_bare_integer_nonneg (s : string) :
  bare_integer s = true -> 0 <= int_of_capture s.
Proof.
  intros H. rewrite (int_of_bare_integer s H).
  apply digits_value_nonneg. lia.
Qed.

Lemma unit_seconds_nonneg u inp :
  0 <= match exec (pat_unit u) inp with
       | Some cap => int_of_capture cap
       | None => 0
       end.
Proof.
  destruct (exec (pat_unit u) inp) as [cap|] eqn:E; [| lia].
  apply int_of_bare_integer_nonneg. eapply pat_unit_capture; eassumption.
Qed.

(** Whatever the text, the parser returns a number of seconds that is not
    negative. *)
Lemma seconds_nonneg (timeStr : string) : 0 <= parseTimeToSeconds timeStr.
Proof.
  unfold parseTimeToSeconds.
  destruct (test_all_digits (Str.trim timeStr)) eqn:E.
  - apply int_of_bare_integer_nonneg. unfold bare_integer.
    now rewrite <- test_all_digits_spec.
  - pose proof (unit_seconds_nonneg "h" timeStr).
    pose proof (unit_seconds_nonneg "m" timeStr).
    pose proof (unit_seconds_nonneg "s" timeStr).
    destruct (exec (pat_unit "h") timeStr), (exec (pat_unit "m") timeStr),
      (exec (pat_unit "s") timeStr); lia.
Qed.

(** ** Estimates read from the G-code *)

Lemma first_match_render patterns gcode t :
  first_match patterns gcode = Some t ->
  exists pattern cap,
    In pattern patterns /\ exec pattern gcode = Some cap /\
    t = render_capture cap.
Proof.
  induction patterns as [|p rest IH]; simpl; [discriminate |].
  destruct (exec p gcode) as [cap|] eqn:E.
  - intros H; inversion H; subst. exists p, cap. auto.
  - intros H. destruct (IH H) as (q & cap & Hq & He & Ht).
    exists q, cap. auto.
Qed.

(** What a bare integer is rendered to parses back to that integer. *)
Lemma render_bare_integer_seconds cap :
  bare_integer (Str.trim cap) = true ->
  parseTimeToSeconds (render_capture cap)
  = Num.digits_value 0 (Str.trim cap).
Proof.
  intros H. rewrite render_capture_spec, H.
  apply parse_after_format, digits_value_nonneg. lia.
Qed.

(** ** Trimmed results *)

Lemma drop_while_end_last p (s : string) c :
  last_char s = Some c -> p c = false -> Str.drop_while_end p s = s.
Proof.
  induction s as [|a t IH]; [discriminate |].
  cbn [last_char Str.drop_while_end]. destruct t as [|b t'].
  - intros H Hc; inversion H; subst. cbn. now rewrite Hc.
  - intros H Hc. rewrite (IH H Hc). cbn [Str.is_empty].
    now rewrite andb_false_r.
Qed.

(** A text that neither starts nor ends with white space is its own
    trimming. *)
Lemma trim_fixed (s : string) a t c :
  s = String a t -> Char.is_space a = false ->
  last_char s = Some c -> Char.is_space c = false ->
  Str.trim s = s.
Proof.
  intros -> Ha Hl Hc. unfold Str.trim. cbn [Str.drop_while]. rewrite Ha.
  now apply (drop_while_end_last _ _ c).
Qed.

Lemma drop_while_end_shape p (s : string) :
  Str.drop_while_end p s = EmptyString \/
  exists c, last_char (Str.drop_while_end p s) = Some c /\ p c = false.
Proof.
  induction s as [|a t IH]; [now left |].
  cbn [Str.drop_while_end].
  destruct (p a && Str.is_empty (Str.drop_while_end p t)) eqn:E; [now left |].
  right. destruct IH as [IH | (c & Hl & Hc)].
  - rewrite IH in *. cbn in E. rewrite andb_true_r in E.
    exists a. now split.
  - exists c. split; [| exact Hc]. cbn [last_char].
    destruct (Str.drop_while_end p t); [discriminate | exact Hl].
Qed.

Lemma drop_while_shape p (s : string) :
  Str.drop_while p s = EmptyString \/
  exists a t, Str.drop_while p s = String a t /\ p a = false.
Proof.
  induction s as [|a t IH]; [now left |].
  cbn [Str.drop_while]. destruct (p a) eqn:E; [exact IH |].
  right. now exists a, t.
Qed.

(** Trimming twice is trimming once. *)
Lemma trim_idempotent (s : string) : Str.trim (Str.trim s) = Str.trim s.
Proof.
  unfold Str.trim at 2 3.
  destruct (drop_while_shape Char.is_space s) as [-> | (a & t & -> & Ha)];
    [reflexivity |].
  destruct (drop_while_end_shape Char.is_space (String a t))
    as [E | (c & Hl & Hc)]; [now rewrite E |].
  assert (exists t', Str.drop_while_end Char.is_space (String a t)
                     = String a t') as [t' Ht'].
  { cbn [Str.drop_while_end]. rewrite Ha. cbn. eauto. }
  rewrite Ht' in *. now apply (trim_fixed _ a t' c).
Qed.

Lemma last_char_append (a b : string) :
  b <> EmptyString -> last_char (a ++ b) = last_char b.
Proof.
  intros Hb. induction a as [|x a IH]; [reflexivity |].
  cbn [append last_char]. rewrite IH.
  destruct (a ++ b) eqn:E; [| reflexivity].
  destruct a; [simpl in E; congruence | discriminate].
Qed.

Lemma last_char_cons c (b : string) :
  b <> EmptyString -> last_char (String c b) = last_char b.
Proof. destruct b; [congruence | reflexivity]. Qed.

Lemma append_nonempty (a : string) d t : a ++ String d t <> EmptyString.
Proof. destruct a; discriminate. Qed.

(** What [formatSeconds] prints for a non-negative number starts with a
    digit and ends with a unit letter. *)
Lemma formatSeconds_shape (s : Z) :
  0 <= s ->
  exists a t c,
    formatSeconds s = String a t /\ Char.is_digit a = true /\
    last_char (formatSeconds s) = Some c /\ Char.is_space c = false.
Proof.
  intros Hs.
  destruct (hms_decomposition s Hs) as (Hh & Hm & Hsec & _).
  unfold formatSeconds. cbv zeta.
  generalize dependent (Z.rem s 60). generalize dependent (Z.rem s 3600 / 60).
  generalize dependent (s / 3600). clear s Hs.
  intros h Hh m Hm sec Hsec.
  assert (forall n rest, 0 <= n ->
            exists a t, Num.toString n ++ rest = String a t /\
                        Char.is_digit a = true) as Hhead.
  { intros n rest Hn. destruct (toString_nonneg n Hn) as (Ha & Hne & _).
    destruct (Num.toString n) as [|a t]; [congruence |].
    simpl in Ha. apply andb_true_iff in Ha as [Ha _].
    exists a, (t ++ rest). now split. }
  destruct (Z.gtb_spec h 0), (Z.gtb_spec m 0), (Z.gtb_spec sec 0);
    cbn [push_if app List.length Nat.eqb orb Str.join];
    rewrite ?append_assoc; cbn [append];
    match goal with
    | |- context [Num.toString ?n ++ ?rest] =>
        lazymatch goal with
        | |- exists a t c, Num.toString n ++ rest = _ /\ _ =>
            destruct (Hhead n rest ltac:(lia)) as (a & t & Heq & Ha);
            exists a, t
        end
    end;
    repeat first
      [ rewrite last_char_append
          by first [discriminate | apply append_nonempty]
      | rewrite last_char_cons
          by first [discriminate | apply append_nonempty] ];
    eexists; (split; [exact Heq |]); (split; [exact Ha |]);
    (split; [reflexivity | reflexivity]).
Qed.

(** ** Windows line endings *)

(** A match consumes a prefix of its input. *)
Lemma run_split {R} r : forall inp (k : string -> option R) x,
  run r inp k = Some x ->
  exists pre rest, inp = pre ++ rest /\ k rest = Some x.
Proof.
  induction r as [|p|g p|r1 IH1 r2 IH2|r1 IH1 r2 IH2|]; simpl; intros inp k x H.
  - now exists EmptyString, inp.
  - destruct inp as [|c t]; [discriminate |].
    destruct (p c); [| discriminate].
    now exists (String c EmptyString), t.
  - apply star_result_split in H as (pre & rest & -> & _ & H).
    now exists pre, rest.
  - apply IH1 in H as (pre1 & rest1 & -> & H).
    apply IH2 in H as (pre2 & rest2 & -> & H).
    exists (pre1 ++ pre2), rest2. now rewrite append_assoc.
  - destruct (run r1 inp k) eqn:E.
    + inversion H; subst. now apply IH1 in E.
    + now apply IH2 in H.
  - destruct inp; [| discriminate]. now exists EmptyString, EmptyString.
Qed.

Lemma exec_split p : forall inp cap,
  exec p inp = Some cap ->
  exists pre s, inp = pre ++ s /\ match_here p s = Some cap.
Proof.
  induction inp as [|c t IH]; intros cap; cbn [exec].
  - destruct (match_here p EmptyString) eqn:E; [| discriminate].
    intros H; inversion H; subst. now exists EmptyString, EmptyString.
  - destruct (match_here p (String c t)) eqn:E.
    + intros H; inversion H; subst. now exists EmptyString, (String c t).
    + intros H. destruct (IH cap H) as (pre & s & -> & Hm).
      now exists (String c pre), s.
Qed.

Lemma cr_before_line_ends_suffix (a b : string) :
  cr_before_line_ends (a ++ b) = true -> cr_before_line_ends b = true.
Proof.
  induction a as [|c a IH]; [trivial |].
  cbn [append cr_before_line_ends]. intros H.
  apply andb_true_iff in H as [_ H]. now apply IH.
Qed.

(** In such a text a run of characters matched by [.] cannot be followed by
    a line feed or by the end. *)
Lemma no_line_after_dots (m : string) : forall c rest,
  Char.is_dot c = true -> Str.all Char.is_dot m = true ->
  cr_before_line_ends (String c (m ++ rest)) = true ->
  rest <> EmptyString /\
  forall rest', rest <> String Char.LF rest'.
Proof.
  induction m as [|d m IH]; intros c rest Hc Hm H.
  - cbn [append cr_before_line_ends] in H. rewrite Hc in H. cbn in H.
    apply andb_true_iff in H as [H _].
    destruct rest as [|e rest']; [discriminate |].
    split; [discriminate |]. intros r' E. inversion E; subst.
    now rewrite Ascii.eqb_refl in H.
  - cbn [Str.all] in Hm. apply andb_true_iff in Hm as [Hd Hm].
    cbn [append] in H.
    change (cr_before_line_ends (String c (String d (m ++ rest))))
      with ((negb (Char.is_dot c) || negb (Ascii.eqb d Char.LF)) &&
            cr_before_line_ends (String d (m ++ rest))) in H.
    apply andb_true_iff in H as [_ H]. now apply (IH d).
Qed.

(** No pattern that captures [(.+?)] up to [(?:\n|$)] matches in such a
    text. *)
Lemma dots_to_line_end_never_match (p : pattern) gcode :
  group p = Plus false Char.is_dot -> after p = line_end ->
  cr_before_line_ends gcode = true ->
  exec p gcode = None.
Proof.
  intros Hg Ha Hcr. destruct (exec p gcode) as [cap|] eqn:E; [| reflexivity].
  exfalso. apply exec_split in E as (pre & s & -> & E).
  apply cr_before_line_ends_suffix in Hcr.
  unfold match_here in E. rewrite Hg, Ha in E.
  apply run_split in E as (pre1 & s1 & -> & E).
  apply cr_before_line_ends_suffix in Hcr.
  cbn [Plus run] in E.
  destruct s1 as [|c t]; [discriminate |].
  destruct (Char.is_dot c) eqn:Hc; [| discriminate].
  apply star_result_split in E as (m & rest & -> & Hm & E).
  destruct (no_line_after_dots m c rest Hc Hm Hcr) as [Hne Hlf].
  unfold line_end in E. cbn [run] in E.
  destruct rest as [|e rest']; [congruence |].
  destruct (Ascii.eqb_spec Char.LF e) as [<- | Hneq].
  - now apply (Hlf rest').
  - discriminate.
Qed.

(** ** Plate discovery *)

Lemma flat_map_probe_filter zip l :
  flat_map (probe zip) l
  = map (fun n => plate_record (member_text zip (gcodePath n)) n)
        (filter (conventional_present zip) l).
Proof.
  induction l as [|n l IH]; [reflexivity |].
  cbn [flat_map filter]. rewrite IH.
  unfold probe at 1. unfold conventional_present at 2. unfold member_text.
  destruct (JSZip.file zip (gcodePath n)) eqn:E; [| reflexivity].
  cbn [map app]. now rewrite E.
Qed.

Lemma map_nil_inv {A B} (f : A -> B) l : map f l = [] -> l = [].
Proof. destruct l; [reflexivity | discriminate]. Qed.

Lemma filter_sorted {A} (R : A -> A -> Prop) (p : A -> bool) l :
  StronglySorted R l -> StronglySorted R (filter p l).
Proof.
  induction 1 as [|a l Hs IH Hall]; simpl; [constructor |].
  destruct (p a); [| exact IH]. constructor; [exact IH |].
  rewrite Forall_forall in *. intros x Hx.
  apply filter_In in Hx as [Hx _]. auto.
Qed.

(** The discovery as a whole: the conventional members that exist, or else
    the fallback. *)
Lemma discover_spec zip :
  discover zip =
  match filter (conventional_present zip) (zseq 1 16) with
  | [] => flat_map (fallback_record zip) (number_from 1 (gcodeFiles zip))
  | present =>
      map (fun n => plate_record (member_text zip (gcodePath n)) n) present
  end.
Proof.
  unfold discover. rewrite standard_loop_spec. cbn [app].
  rewrite flat_map_probe_filter, fallback_loop_spec.
  destruct (filter (conventional_present zip) (zseq 1 16)); reflexivity.
Qed.



Lemma in_filter_present zip n :
  1 <= n <= 16 -> JSZip.file zip (gcodePath n) <> None ->
  In n (filter (conventional_present zip) (zseq 1 16)).
Proof.
  intros Hn Hf. apply filter_In. split; [apply In_zseq; lia |].
  unfold conventional_present.
  now destruct (JSZip.file zip (gcodePath n)).
Qed.

(** An opened archive has no plate exactly when nothing in it counts as
    G-code. *)
Lemma discover_nil_iff zip : discover zip = [] <-> no_gcode zip.
Proof.
  rewrite discover_spec. unfold no_gcode. split.
  - intros H.
    destruct (filter (conventional_present zip) (zseq 1 16)) as [|k ks] eqn:E;
      [| discriminate].
    assert (forall n, 1 <= n <= 16 -> JSZip.file zip (gcodePath n) = None)
      as Habs.
    { intros n Hn. destruct (JSZip.file zip (gcodePath n)) eqn:F;
        [| reflexivity].
      assert (In n (filter (conventional_present zip) (zseq 1 16))) as Hin
        by (apply in_filter_present; [lia | congruence]).
      rewrite E in Hin. contradiction. }
    split; [exact Habs |].
    intros name o Hget Hext Hdir.
    destruct (string_dec (JSZip.text o) EmptyString) as [Ht | Ht];
      [exact Ht | exfalso].
    destruct (fallback_member zip name o Hget Hext Hdir Ht) as (i & _ & Hin).
    rewrite H in Hin. contradiction.
  - intros [Habs Hempty].
    assert (filter (conventional_present zip) (zseq 1 16) = []) as ->.
    { destruct (filter (conventional_present zip) (zseq 1 16)) as [|k ks] eqn:E;
        [reflexivity | exfalso].
      assert (In k (filter (conventional_present zip) (zseq 1 16))) as Hin
        by (rewrite E; now left).
      apply filter_In in Hin as [Hk Hp]. apply In_zseq in Hk.
      unfold conventional_present in Hp.
      rewrite (Habs k) in Hp by lia. discriminate. }
    destruct (flat_map (fallback_record zip) (number_from 1 (gcodeFiles zip)))
      as [|plate rest] eqn:E; [reflexivity | exfalso].
    destruct (fallback_origin zip plate) as (i & name & o & _ & Hget & Hext
                                            & Hdir & Ht & _).
    { rewrite E. now left. }
    apply Ht. now apply (Hempty name o).
Qed.

Lemma discover_numbers zip :
  StronglySorted Z.lt (map ParsedGCodeInfo.plateNumber (discover zip)) /\
  Forall (fun n => 1 <= n) (map ParsedGCodeInfo.plateNumber (discover zip)).
Proof.
  rewrite discover_spec.
  destruct (filter (conventional_present zip) (zseq 1 16)) as [|k ks] eqn:E.
  - apply fallback_numbers_sorted.
  - rewrite map_map. cbn [ParsedGCodeInfo.plateNumber plate_record].
    rewrite map_id, <- E. split.
    + apply filter_sorted, zseq_sorted.
    + apply Forall_forall. intros n Hn.
      apply filter_In in Hn as [Hn _]. apply In_zseq in Hn. lia.
Qed.

Lemma extract_success_inv loadAsync file e :
  extractAllPlatesFromZip loadAsync file = inr e ->
  exists buf zip,
    open_archive loadAsync file = Some (buf, zip) /\
    discover zip <> [] /\
    e = ExtractedPlates.Build (discover zip) buf (File.name file).
Proof.
  unfold extractAllPlatesFromZip.
  destruct (open_archive loadAsync file) as [[buf zip]|]; [| discriminate].
  destruct (discover zip) as [|p ps] eqn:E; [discriminate |].
  intros H; inversion H; subst. exists buf, zip. rewrite E.
  repeat split. discriminate.
Qed.

(** X9.  Whatever the archive, a successful extraction returns at least one
    plate, plate numbers that are at least 1 and strictly increasing along
    the list (so no two plates of an upload share a number), the file's own
    name, and the very bytes that were read. *)
Theorem extraction_result_invariants
        (loadAsync : ArrayBuffer -> option JSZip.t)
        (file : File.t) (e : ExtractedPlates.t) :
  extractAllPlatesFromZip loadAsync file = inr e ->
  ExtractedPlates.plates e <> [] /\
  StronglySorted Z.lt
    (map ParsedGCodeInfo.plateNumber (ExtractedPlates.plates e)) /\
  Forall (fun plate => 1 <= ParsedGCodeInfo.plateNumber plate)
         (ExtractedPlates.plates e) /\
  ExtractedPlates.fileName e = File.name file /\
  File.arrayBuffer file = Some (ExtractedPlates.originalZip e).
Proof.
  intros H. apply extract_success_inv in H as (buf & zip & Hopen & Hne & ->).
  cbn [ExtractedPlates.plates ExtractedPlates.fileName
       ExtractedPlates.originalZip].
  destruct (discover_numbers zip) as [Hs Hb].
  split; [exact Hne |]. split; [exact Hs |].
  split; [exact (proj1 (Forall_map _ _ _) Hb) |]. split; [reflexivity |].
  unfold open_archive in Hopen.
  destruct (File.arrayBuffer file) as [b|]; [| discriminate].
  destruct (loadAsync b); [| discriminate]. now inversion Hopen.
Qed.

Lemma extraction_result_invariants_witness :
  StronglySorted Z.lt
    (map ParsedGCodeInfo.plateNumber
         [plate_record "G1" 1; plate_record "G3" 3]).
Proof.
  apply (extraction_result_invariants
           (Sample.opens_as plates_1_and_3) (Sample.upload "job.3mf")
           (ExtractedPlates.Build [plate_record "G1" 1; plate_record "G3" 3]
                                  [] "job.3mf")).
  reflexivity.
Defined.

(** X10.  The result of extraction does not depend on the order in which
    the archive lists its members, whichever of the two discovery
    strategies applies. *)
Theorem extraction_ignores_member_order
        (loadAsync loadAsync' : ArrayBuffer -> option JSZip.t)
        (file : File.t) (buf : ArrayBuffer) (zip zip' : JSZip.t) :
  open_archive loadAsync file = Some (buf, zip) ->
  open_archive loadAsync' file = Some (buf, zip') ->
  JSZip.wf zip -> Permutation zip zip' ->
  extractAllPlatesFromZip loadAsync' file
  = extractAllPlatesFromZip loadAsync file.
Proof.
  intros Hopen Hopen' Hwf Hperm.
  rewrite (extract_opened loadAsync file buf zip Hopen).
  rewrite (extract_opened loadAsync' file buf zip' Hopen').
  now rewrite (discover_permutation zip zip' Hwf Hperm).
Qed.

Lemma plates_1_and_3_wf : JSZip.wf plates_1_and_3.
Proof.
  unfold JSZip.wf. cbn.
  repeat (constructor; [cbn; intros H; repeat destruct H as [H | H];
                        try discriminate H; try contradiction |]).
  constructor.
Defined.

Lemma extraction_ignores_member_order_witness :
  extractAllPlatesFromZip (Sample.opens_as (rev plates_1_and_3))
                          (Sample.upload "job.3mf")
  = extractAllPlatesFromZip (Sample.opens_as plates_1_and_3)
                            (Sample.upload "job.3mf").
Proof.
  apply (extraction_ignores_member_order
           (Sample.opens_as plates_1_and_3)
           (Sample.opens_as (rev plates_1_and_3))
           (Sample.upload "job.3mf") [] plates_1_and_3 (rev plates_1_and_3)).
  - reflexivity.
  - reflexivity.
  - exact plates_1_and_3_wf.
  - apply Permutation_rev.
Defined.

(** ** The files an upload creates *)

Lemma toString_injective a b : Num.toString a = Num.toString b -> a = b.
Proof.
  intros H. pose proof (parseInt_toString a) as Ha.
  rewrite H, parseInt_toString in Ha. congruence.
Qed.

Lemma append_cancel_left (a x y : string) : a ++ x = a ++ y -> x = y.
Proof.
  induction a as [|c a IH]; simpl; [trivial |].
  intros H. inversion H. auto.
Qed.

Lemma NoDup_map_injective {A B} (f : A -> B) l :
  (forall x y, f x = f y -> x = y) -> NoDup l -> NoDup (map f l).
Proof.
  intros Hinj. induction 1 as [|a l Hnotin Hnd IH]; simpl; constructor;
    [| exact IH].
  intros Hin. apply in_map_iff in Hin as (y & Hy & Hin).
  apply Hinj in Hy. subst. contradiction.
Qed.

Lemma sorted_lt_NoDup l : StronglySorted Z.lt l -> NoDup l.
Proof.
  induction 1 as [|a l Hs IH Hall]; constructor; [| exact IH].
  intros Hin. rewrite Forall_forall in Hall. specialize (Hall a Hin). lia.
Qed.

Section UploadFacts.

Variable loadAsync : ArrayBuffer -> option JSZip.t.
Variable generateId : nat -> string.

Lemma map_plates_length fileName originalZip isMultiPlate n plates :
  List.length
    (map_plates generateId fileName originalZip isMultiPlate n plates)
  = List.length plates.
Proof.
  revert n; induction plates as [|p rest IH]; intros n; simpl;
    [reflexivity | now rewrite IH].
Qed.

Lemma map_plates_ids fileName originalZip isMultiPlate n plates :
  map GCodeFile.id
      (map_plates generateId fileName originalZip isMultiPlate n plates)
  = map generateId (seq n (List.length plates)).
Proof.
  revert n; induction plates as [|p rest IH]; intros n; simpl;
    [reflexivity | now rewrite IH].
Qed.

Lemma map_plates_displayNames fileName originalZip isMultiPlate n plates :
  map GCodeFile.displayName
      (map_plates generateId fileName originalZip isMultiPlate n plates)
  = map (fun plate =>
           if isMultiPlate
           then fileName ++ " — Plate " ++
                Num.toString (ParsedGCodeInfo.plateNumber plate)
           else fileName) plates.
Proof.
  revert n; induction plates as [|p rest IH]; intros n; simpl;
    [reflexivity | now rewrite IH].
Qed.

Lemma map_plates_fields fileName originalZip isMultiPlate n plates :
  Forall (fun f =>
            GCodeFile.fileName f = fileName /\
            GCodeFile.sourceFile f = fileName /\
            GCodeFile.originalZip f = originalZip)
         (map_plates generateId fileName originalZip isMultiPlate n plates).
Proof.
  revert n; induction plates as [|p rest IH]; intros n; simpl;
    constructor; [now repeat split | apply IH].
Qed.

Lemma processUploadedFile_inv file n files n' :
  processUploadedFile loadAsync generateId file n = inr (files, n') ->
  exists buf zip,
    open_archive loadAsync file = Some (buf, zip) /\
    discover zip <> [] /\
    files = map_plates generateId (File.name file) buf
                       (1 <? List.length (discover zip))%nat n (discover zip)
    /\ n' = (n + List.length (discover zip))%nat.
Proof.
  unfold processUploadedFile.
  destruct (extractAllPlatesFromZip loadAsync file) as [err|e] eqn:E;
    [discriminate |].
  apply extract_success_inv in E as (buf & zip & Hopen & Hne & ->).
  cbn [ExtractedPlates.plates ExtractedPlates.fileName
       ExtractedPlates.originalZip].
  intros H; inversion H; subst. now exists buf, zip.
Qed.

(** X11.  An upload that succeeds yields at least one queue entry, takes
    one fresh identifier per entry, and gives the entries pairwise
    distinct display names: the file name itself for a single plate, the
    file name followed by the plate number for several.  Every entry
    records the upload's name as its source and the bytes that were
    read. *)
Theorem upload_entries file n files n' :
  processUploadedFile loadAsync generateId file n = inr (files, n') ->
  files <> [] /\
  n' = (n + List.length files)%nat /\
  map GCodeFile.id files = map generateId (seq n (List.length files)) /\
  NoDup (map GCodeFile.displayName files) /\
  (List.length files = 1%nat ->
   map GCodeFile.displayName files = [File.name file]) /\
  ((1 < List.length files)%nat ->
   Forall (fun f =>
             exists k,
               GCodeFile.plateNumber f = Some k /\
               GCodeFile.displayName f
               = File.name file ++ " — Plate " ++ Num.toString k) files) /\
  Forall (fun f =>
            GCodeFile.fileName f = File.name file /\
            GCodeFile.sourceFile f = File.name file /\
            File.arrayBuffer file = Some (GCodeFile.originalZip f)) files.
Proof.
  intros H.
  apply processUploadedFile_inv in H as (buf & zip & Hopen & Hne & -> & ->).
  rewrite map_plates_length, map_plates_ids, map_plates_displayNames.
  destruct (discover_numbers zip) as [Hsorted _].
  assert (File.arrayBuffer file = Some buf) as Hbuf.
  { unfold open_archive in Hopen.
    destruct (File.arrayBuffer file) as [b|]; [| discriminate].
    destruct (loadAsync b); [| discriminate]. now inversion Hopen. }
  split.
  { destruct (discover zip); [congruence | discriminate]. }
  split; [reflexivity |]. split; [reflexivity |].
  split.
  { destruct (1 <? List.length (discover zip))%nat eqn:M.
    - rewrite <- (map_map ParsedGCodeInfo.plateNumber
                    (fun k => File.name file ++ " — Plate " ++ Num.toString k)).
      apply NoDup_map_injective; [| now apply sorted_lt_NoDup].
      intros x y Hxy. apply append_cancel_left in Hxy.
      apply (append_cancel_left " — Plate ") in Hxy.
      now apply toString_injective.
    - apply Nat.ltb_ge in M.
      destruct (discover zip) as [|p [|q rest]]; simpl in *;
        [constructor | | lia].
      constructor; [intros [] | constructor]. }
  split.
  { intros Hone.
    destruct (discover zip) as [|p [|q rest]]; simpl in *;
      [lia | reflexivity | lia]. }
  split.
  { intros Hmany. apply Nat.ltb_lt in Hmany. rewrite Hmany.
    clear. generalize (discover zip) as plates. clear.
    intros plates. revert n. induction plates as [|p rest IH]; intros n;
      simpl; constructor; [| apply IH].
    exists (ParsedGCodeInfo.plateNumber p). now split. }
  eapply Forall_impl; [| apply map_plates_fields].
  simpl. intros f (Hf & Hs & Hz). now rewrite Hf, Hs, Hz.
Qed.

End UploadFacts.

Lemma upload_entries_witness :
  map GCodeFile.displayName
      (map_plates constant_id "job.gcode.3mf" []
                  true 0 (discover Sample.two_plates))
  = ["job.gcode.3mf — Plate 1"; "job.gcode.3mf — Plate 2"] /\
  NoDup (map GCodeFile.displayName
             (map_plates constant_id "job.gcode.3mf" []
                         true 0 (discover Sample.two_plates))).
Proof.
  split; [reflexivity |].
  apply (upload_entries (Sample.opens_as Sample.two_plates) constant_id
           (Sample.upload "job.gcode.3mf") 0
           (map_plates constant_id "job.gcode.3mf" []
                       true 0 (discover Sample.two_plates)) 2%nat).
  reflexivity.
Defined.

(** ** Acting on one item of the queue *)

Lemma handleUpdateCopies_ids id copies files :
  map GCodeFile.id (handleUpdateCopies id copies files)
  = map GCodeFile.id files.
Proof.
  unfold handleUpdateCopies. rewrite map_map. apply map_ext.
  intros f. now destruct (String.eqb (GCodeFile.id f) id).
Qed.

Lemma handleUpdateCopies_other id copies files :
  ~ In id (map GCodeFile.id files) ->
  handleUpdateCopies id copies files = files.
Proof.
  unfold handleUpdateCopies. induction files as [|f rest IH]; simpl;
    [reflexivity |].
  intros H. destruct (String.eqb_spec (GCodeFile.id f) id) as [E | _].
  - exfalso. apply H. now left.
  - rewrite IH; [reflexivity |]. intros Hin. apply H. now right.
Qed.

(** With distinct identifiers an update by identifier changes the one item
    that carries it. *)
Lemma handleUpdateCopies_at files : forall index file copies,
  distinct_ids files -> nth_error files index = Some file ->
  handleUpdateCopies (GCodeFile.id file) copies files
  = replace_at index (GCodeFile.with_copies file copies) files.
Proof.
  unfold distinct_ids, replace_at.
  induction files as [|f rest IH]; intros [|index] file copies Hnd Hn;
    simpl in Hn; try discriminate; inversion Hnd as [|? ? Hnotin Hnd']; subst.
  - inversion Hn; subst file.
    change (handleUpdateCopies (GCodeFile.id f) copies (f :: rest))
      with ((if String.eqb (GCodeFile.id f) (GCodeFile.id f)
             then GCodeFile.with_copies f copies else f)
            :: handleUpdateCopies (GCodeFile.id f) copies rest).
    rewrite String.eqb_refl, handleUpdateCopies_other by exact Hnotin.
    reflexivity.
  - change (handleUpdateCopies (GCodeFile.id file) copies (f :: rest))
      with ((if String.eqb (GCodeFile.id f) (GCodeFile.id file)
             then GCodeFile.with_copies f copies else f)
            :: handleUpdateCopies (GCodeFile.id file) copies rest).
    destruct (String.eqb_spec (GCodeFile.id f) (GCodeFile.id file)) as [E | _].
    + exfalso. apply Hnotin. rewrite E. apply in_map.
      eapply nth_error_In; eassumption.
    + cbn [firstn skipn app]. f_equal. now apply IH.
Qed.

Lemma nth_error_replace_at {A} (l : list A) : forall index x j,
  (index < List.length l)%nat ->
  nth_error (replace_at index x l) j
  = if Nat.eqb j index then Some x else nth_error l j.
Proof.
  unfold replace_at.
  induction l as [|a l IH]; intros [|index] x [|j] H; simpl in *;
    try lia; try reflexivity.
  apply IH. lia.
Qed.

(** X12.  When the identifiers of the queue are distinct, editing the
    copies field of an item sets the copy count of that item, clamped to
    [1, 99], and leaves every other item as it was. *)
Theorem copies_edit_changes_one_item
        (files : list GCodeFile.t) (index : nat) (file : GCodeFile.t)
        (value : string) :
  distinct_ids files ->
  nth_error files index = Some file ->
  handleCopiesChange file value files
  = replace_at index (GCodeFile.with_copies file (copies_of_input value)) files
  /\ nth_error (handleCopiesChange file value files) index
     = Some (GCodeFile.with_copies file (copies_of_input value))
  /\ (forall j, j <> index ->
        nth_error (handleCopiesChange file value files) j
        = nth_error files j)
  /\ List.length (handleCopiesChange file value files) = List.length files.
Proof.
  intros Hnd Hn. unfold handleCopiesChange.
  rewrite (handleUpdateCopies_at files index file _ Hnd Hn).
  assert (index < List.length files)%nat as Hlt
    by (apply nth_error_Some; congruence).
  split; [reflexivity |]. split; [| split].
  - rewrite nth_error_replace_at by exact Hlt. now rewrite Nat.eqb_refl.
  - intros j Hj. rewrite nth_error_replace_at by exact Hlt.
    now apply Nat.eqb_neq in Hj as ->.
  - unfold replace_at. rewrite length_app. cbn [List.length].
    rewrite length_firstn, length_skipn. lia.
Qed.

Lemma sample_queue_distinct : distinct_ids sample_queue.
Proof.
  unfold distinct_ids. cbn.
  repeat (constructor; [cbn; intros H; repeat destruct H as [H | H];
                        try discriminate H; try contradiction |]).
  constructor.
Defined.

Lemma copies_edit_changes_one_item_witness :
  map GCodeFile.copies
      (handleCopiesChange
         (GCodeFile.Build "b" "b.3mf" "b.3mf" "G2" [] 1 None 5 (Some 1) "b.3mf")
         "150" sample_queue)
  = [2; 99; 1].
Proof.
  pose proof (copies_edit_changes_one_item sample_queue 1
                (GCodeFile.Build "b" "b.3mf" "b.3mf" "G2" [] 1 None 5 (Some 1)
                                 "b.3mf")
                "150" sample_queue_distinct eq_refl) as [H _].
  rewrite H. reflexivity.
Defined.

Lemma filter_other_ids file rest :
  ~ In (GCodeFile.id file) (map GCodeFile.id rest) ->
  filter (fun f => negb (String.eqb (GCodeFile.id f) (GCodeFile.id file))) rest
  = rest.
Proof.
  induction rest as [|f rest IH]; simpl; [reflexivity |].
  intros H. destruct (String.eqb_spec (GCodeFile.id f) (GCodeFile.id file))
    as [E | _].
  - exfalso. apply H. now left.
  - simpl. rewrite IH; [reflexivity |]. intros Hin. apply H. now right.
Qed.

(** X13.  When the identifiers of the queue are distinct, removing an item
    takes out that item and nothing else, keeps the others in order, and
    clears the error display. *)
Theorem remove_takes_one_item
        (st : AppState.t) (index : nat) (file : GCodeFile.t) :
  distinct_ids (AppState.files st) ->
  nth_error (AppState.files st) index = Some file ->
  AppState.files (handleRemove (GCodeFile.id file) st)
  = remove_at index (AppState.files st) /\
  AppState.error (handleRemove (GCodeFile.id file) st) = None /\
  S (List.length (AppState.files (handleRemove (GCodeFile.id file) st)))
  = List.length (AppState.files st).
Proof.
  intros Hnd Hn.
  assert (AppState.files (handleRemove (GCodeFile.id file) st)
          = remove_at index (AppState.files st)) as Heq.
  { unfold handleRemove, remove_at. cbn [AppState.files].
    revert index Hnd Hn. unfold distinct_ids.
    induction (AppState.files st) as [|f rest IH]; intros [|index] Hnd Hn;
      simpl in Hn; try discriminate;
      inversion Hnd as [|? ? Hnotin Hnd']; subst.
    - inversion Hn; subst file. cbn [filter firstn skipn app].
      rewrite String.eqb_refl. cbn [negb]. now apply filter_other_ids.
    - cbn [filter firstn skipn app].
      destruct (String.eqb_spec (GCodeFile.id f) (GCodeFile.id file))
        as [E | _].
      + exfalso. apply Hnotin. rewrite E. apply in_map.
        eapply nth_error_In; eassumption.
      + cbn [negb]. f_equal. now apply IH. }
  split; [exact Heq |]. split; [reflexivity |].
  rewrite Heq. unfold remove_at.
  assert (index < List.length (AppState.files st))%nat
    by (apply nth_error_Some; congruence).
  rewrite length_app, length_firstn, length_skipn. lia.
Qed.

Lemma remove_takes_one_item_witness :
  map GCodeFile.id
      (AppState.files
         (handleRemove "b" (AppState.Build sample_queue ProcessingState.idle
                                           (Some "old message"))))
  = ["a"; "c"].
Proof.
  pose proof (remove_takes_one_item
                (AppState.Build sample_queue ProcessingState.idle
                                (Some "old message")) 1
                (GCodeFile.Build "b" "b.3mf" "b.3mf" "G2" [] 1 None 5 (Some 1)
                                 "b.3mf")
                sample_queue_distinct eq_refl) as [H _].
  cbn [GCodeFile.id] in H. rewrite H. reflexivity.
Defined.

(** ** Drag and drop *)

(** X14.  Dropping the dragged item [dragIndex] on the item [dragOverIndex]
    (two different rendered items) puts it at position [dragOverIndex];
    the other items keep their order, and nothing is lost or duplicated. *)
Theorem drag_moves_one_item
        (files : list GCodeFile.t) (dragIndex dragOverIndex : nat) :
  (dragIndex < List.length files)%nat ->
  (dragOverIndex < List.length files)%nat ->
  dragIndex <> dragOverIndex ->
  exists reordered,
    handleDragEnd (Some dragIndex) (Some dragOverIndex) files = Some reordered
    /\ nth_error reordered dragOverIndex = nth_error files dragIndex
    /\ remove_at dragOverIndex reordered = remove_at dragIndex files
    /\ List.length reordered = List.length files
    /\ Permutation files reordered.
Proof.
  intros Hi Hj Hij.
  destruct (nth_error files dragIndex) as [item|] eqn:E;
    [| apply nth_error_None in E; lia].
  exists (insert_at dragOverIndex item (remove_at dragIndex files)).
  assert (handleDragEnd (Some dragIndex) (Some dragOverIndex) files
          = Some (insert_at dragOverIndex item (remove_at dragIndex files)))
    as Hd.
  { unfold handleDragEnd. apply Nat.eqb_neq in Hij. rewrite Hij. cbn [negb].
    now rewrite E. }
  assert (List.length (remove_at dragIndex files)
          = (List.length files - 1)%nat) as Hlen.
  { unfold remove_at. rewrite length_app, length_firstn, length_skipn. lia. }
  assert (List.length (firstn dragOverIndex (remove_at dragIndex files))
          = dragOverIndex) as Hfirst.
  { rewrite length_firstn. lia. }
  split; [exact Hd |]. split; [| split; [| split]].
  - unfold insert_at. rewrite nth_error_app2 by lia.
    rewrite Hfirst, Nat.sub_diag. reflexivity.
  - unfold insert_at. unfold remove_at at 1.
    rewrite firstn_app, Hfirst, Nat.sub_diag, firstn_firstn, Nat.min_id.
    cbn [firstn]. rewrite app_nil_r.
    replace (skipn (S dragOverIndex)
               (firstn dragOverIndex (remove_at dragIndex files) ++
                item :: skipn dragOverIndex (remove_at dragIndex files)))
      with (skipn dragOverIndex (remove_at dragIndex files)).
    + apply firstn_skipn.
    + rewrite skipn_app, Hfirst.
      replace (S dragOverIndex - dragOverIndex)%nat with 1%nat by lia.
      assert (skipn (S dragOverIndex)
                (firstn dragOverIndex (remove_at dragIndex files)) = [])
        as -> by (apply skipn_all2; lia).
      reflexivity.
  - unfold insert_at. rewrite length_app. cbn [List.length].
    rewrite Hfirst, length_skipn. lia.
  - eapply handleDragEnd_permutation. exact Hd.
Qed.

Lemma drag_moves_one_item_witness :
  exists reordered,
    handleDragEnd (Some 0%nat) (Some 2%nat) sample_queue = Some reordered
    /\ nth_error reordered 2 = nth_error sample_queue 0
    /\ remove_at 2 reordered = remove_at 0 sample_queue
    /\ List.length reordered = List.length sample_queue
    /\ Permutation sample_queue reordered.
Proof.
  apply (drag_moves_one_item sample_queue 0 2); cbn; lia.
Defined.

(** ** Identifiers stay distinct *)

Lemma NoDup_map_filter {A B} (f : A -> B) (p : A -> bool) l :
  NoDup (map f l) -> NoDup (map f (filter p l)).
Proof.
  induction l as [|a l IH]; simpl; [trivial |].
  intros H. inversion H as [|? ? Hnotin Hnd]; subst.
  destruct (p a); [| now apply IH].
  simpl. constructor; [| now apply IH].
  intros Hin. apply Hnotin. apply in_map_iff in Hin as (x & Hx & Hin).
  apply filter_In in Hin as [Hin _]. apply in_map_iff. eauto.
Qed.

Lemma NoDup_append {A} (l l' : list A) :
  NoDup l -> NoDup l' -> (forall a, In a l -> ~ In a l') -> NoDup (l ++ l').
Proof.
  induction 1 as [|a l Hnotin Hnd IH]; simpl; intros Hl' Hdisj; [exact Hl' |].
  constructor.
  - intros Hin. apply in_app_or in Hin as [Hin | Hin]; [contradiction |].
    apply (Hdisj a); [now left | exact Hin].
  - apply IH; [exact Hl' |]. intros x Hx. apply Hdisj. now right.
Qed.

Section IdFacts.

Variable loadAsync : ArrayBuffer -> option JSZip.t.
Variable generateId : nat -> string.

(** The loop draws identifiers in sequence, one per new file. *)
Lemma batch_loop_ids selectedFiles : forall n newFiles errors,
  let '(newFiles', _, n') :=
    batch_loop loadAsync generateId selectedFiles n newFiles errors in
  (n <= n')%nat /\
  map GCodeFile.id newFiles'
  = (map GCodeFile.id newFiles ++ map generateId (seq n (n' - n)))%list.
Proof.
  induction selectedFiles as [|file rest IH]; intros n newFiles errors.
  - simpl. rewrite Nat.sub_diag. simpl. now rewrite app_nil_r.
  - cbn [batch_loop].
    destruct (processUploadedFile loadAsync generateId file n)
      as [[message] | [processedFiles n1]] eqn:E.
    + apply IH.
    + apply processUploadedFile_inv in E as (buf & zip & _ & _ & Hf & Hn1).
      specialize (IH n1 (newFiles ++ processedFiles)%list errors).
      destruct (batch_loop loadAsync generateId rest n1
                           (newFiles ++ processedFiles) errors)
        as [[newFiles' errors'] n'].
      destruct IH as [Hle Hids]. subst n1. split; [lia |].
      rewrite Hids, map_app, <- app_assoc. f_equal.
      rewrite Hf, map_plates_ids, <- map_app, <- seq_app.
      do 2 f_equal. lia.
Qed.

Hypothesis generateId_injective :
  forall a b, generateId a = generateId b -> a = b.

(** The identifiers in the queue are distinct and were all drawn
    already. *)
Lemma step_ids s e :
  (distinct_ids (AppState.files (fst s)) /\
   forall f, In f (AppState.files (fst s)) ->
             exists k, (k < snd s)%nat /\ GCodeFile.id f = generateId k) ->
  let s' := step loadAsync generateId s e in
  distinct_ids (AppState.files (fst s')) /\
  forall f, In f (AppState.files (fst s')) ->
            exists k, (k < snd s')%nat /\ GCodeFile.id f = generateId k.
Proof.
  destruct s as [st n]. cbn [fst snd]. intros [Hnd Hdrawn]. cbv zeta.
  assert (forall files',
            map GCodeFile.id files' = map GCodeFile.id (AppState.files st) ->
            distinct_ids files' /\
            forall f, In f files' ->
                      exists k, (k < n)%nat /\ GCodeFile.id f = generateId k)
    as Hsame.
  { intros files' Hids. split; [unfold distinct_ids; now rewrite Hids |].
    intros f Hf. apply (in_map GCodeFile.id) in Hf. rewrite Hids in Hf.
    apply in_map_iff in Hf as (g & Hg & Hin).
    destruct (Hdrawn g Hin) as (k & Hk & Hgk). exists k. split; congruence. }
  destruct e as [selectedFiles | index value | index | index | index
                 | dragIndex dragOverIndex | ]; cbn [step].
  - unfold handleFilesSelected.
    pose proof (batch_loop_ids selectedFiles n [] []) as H.
    destruct (batch_loop loadAsync generateId selectedFiles n [] [])
      as [[newFiles errors] n'].
    destruct H as [Hle Hids]. cbn [fst snd AppState.files]. simpl in Hids.
    split.
    + unfold distinct_ids. rewrite map_app, Hids.
      apply NoDup_append; [exact Hnd | |].
      * apply NoDup_map_injective; [exact generateId_injective |].
        apply seq_NoDup.
      * intros a Ha Hb.
        apply in_map_iff in Ha as (f & <- & Hf).
        destruct (Hdrawn f Hf) as (k & Hk & Hfk).
        apply in_map_iff in Hb as (k' & Hk' & Hin).
        apply in_seq in Hin. rewrite Hfk in Hk'.
        apply generateId_injective in Hk'. lia.
    + intros f Hf. apply in_app_or in Hf as [Hf | Hf].
      * destruct (Hdrawn f Hf) as (k & Hk & Hfk). exists k. split; [lia | easy].
      * apply (in_map GCodeFile.id) in Hf. rewrite Hids in Hf.
        apply in_map_iff in Hf as (k & Hk & Hin). apply in_seq in Hin.
        exists k. split; [lia | easy].
  - cbn [fst snd]. unfold on_item.
    destruct (nth_error (AppState.files st) index);
      [| now split].
    apply Hsame. apply handleUpdateCopies_ids.
  - cbn [fst snd]. unfold on_item.
    destruct (nth_error (AppState.files st) index) as [file|];
      [| now split].
    apply Hsame. cbn [set_files AppState.files]. unfold incrementCopies.
    destruct (GCodeFile.copies file <? 99);
      [apply handleUpdateCopies_ids | reflexivity].
  - cbn [fst snd]. unfold on_item.
    destruct (nth_error (AppState.files st) index) as [file|];
      [| now split].
    apply Hsame. cbn [set_files AppState.files]. unfold decrementCopies.
    destruct (GCodeFile.copies file >? 1);
      [apply handleUpdateCopies_ids | reflexivity].
  - cbn [fst snd]. unfold on_item.
    destruct (nth_error (AppState.files st) index) as [file|];
      [| now split].
    cbn [handleRemove AppState.files]. split.
    + now apply NoDup_map_filter.
    + intros f Hf. apply filter_In in Hf as [Hf _]. auto.
  - cbn [fst snd].
    destruct (handleDragEnd dragIndex dragOverIndex (AppState.files st))
      as [reordered|] eqn:E; [| now split].
    apply handleDragEnd_permutation in E.
    cbn [handleReorder AppState.files]. split.
    + unfold distinct_ids. eapply Permutation_NoDup; [| exact Hnd].
      now apply Permutation_map.
    + intros f Hf. apply Hdrawn. eapply Permutation_in; [| exact Hf].
      now symmetry.
  - cbn [fst snd handleClearAll AppState.files]. split; [constructor |].
    intros f [].
Qed.

Lemma run_events_ids events : forall s,
  (distinct_ids (AppState.files (fst s)) /\
   forall f, In f (AppState.files (fst s)) ->
             exists k, (k < snd s)%nat /\ GCodeFile.id f = generateId k) ->
  distinct_ids
    (AppState.files (fst (run_events loadAsync generateId s events))).
Proof.
  induction events as [|e rest IH]; intros s H; simpl; [apply H |].
  apply IH. now apply step_ids.
Qed.

End IdFacts.

(** X15.  As long as the identifier generator never repeats itself, the
    identifiers of the files in the queue are pairwise distinct, whatever
    the user has done since the queue was empty. *)
Theorem queue_ids_distinct
        (loadAsync : ArrayBuffer -> option JSZip.t)
        (generateId : nat -> string) (events : list event) :
  (forall a b, generateId a = generateId b -> a = b) ->
  distinct_ids
    (AppState.files
       (fst (run_events loadAsync generateId (AppState.initial, O) events))).
Proof.
  intros Hinj. apply run_events_ids; [exact Hinj |].
  cbn. split; [constructor | intros f []].
Qed.

Lemma counting_id_injective a b : counting_id a = counting_id b -> a = b.
Proof.
  unfold counting_id. intros H. apply toString_injective in H. lia.
Defined.

Lemma queue_ids_distinct_witness :
  distinct_ids
    (AppState.files
       (fst (run_events sample_loader counting_id (AppState.initial, O)
               [FilesSelected [good_upload; bad_upload];
                Remove 0; FilesSelected [good_upload];
                DragEnd (Some 0%nat) (Some 2%nat)]))).
Proof.
  apply (queue_ids_distinct sample_loader counting_id).
  exact counting_id_injective.
Defined.

(** ** Increment and decrement *)

Lemma with_copies_same file :
  GCodeFile.with_copies file (GCodeFile.copies file) = file.
Proof. now destruct file. Qed.

Lemma replace_at_twice {A} (l : list A) : forall index x y,
  (index < List.length l)%nat ->
  replace_at index x (replace_at index y l) = replace_at index x l.
Proof.
  unfold replace_at.
  induction l as [|a l IH]; intros [|index] x y H; simpl in *;
    try lia; try reflexivity.
  f_equal. apply IH. lia.
Qed.

Lemma replace_at_same {A} (l : list A) : forall index x,
  nth_error l index = Some x -> replace_at index x l = l.
Proof.
  unfold replace_at.
  induction l as [|a l IH]; intros [|index] x H; simpl in *;
    try discriminate.
  - now inversion H.
  - f_equal. now apply IH.
Qed.

(** With distinct identifiers, setting the copy count of an item and then
    setting it back restores the queue. *)
Lemma update_and_back files index file copies :
  distinct_ids files -> nth_error files index = Some file ->
  nth_error (handleUpdateCopies (GCodeFile.id file) copies files) index
  = Some (GCodeFile.with_copies file copies) /\
  handleUpdateCopies (GCodeFile.id file) (GCodeFile.copies file)
    (handleUpdateCopies (GCodeFile.id file) copies files)
  = files.
Proof.
  intros Hnd Hn.
  assert (index < List.length files)%nat as Hlt
    by (apply nth_error_Some; congruence).
  assert (distinct_ids (handleUpdateCopies (GCodeFile.id file) copies files))
    as Hnd'.
  { unfold distinct_ids. now rewrite handleUpdateCopies_ids. }
  rewrite (handleUpdateCopies_at files index file copies Hnd Hn) in *.
  assert (nth_error
            (replace_at index (GCodeFile.with_copies file copies) files) index
          = Some (GCodeFile.with_copies file copies)) as Hn'.
  { rewrite nth_error_replace_at by exact Hlt. now rewrite Nat.eqb_refl. }
  split; [exact Hn' |].
  pose proof (handleUpdateCopies_at _ index _ (GCodeFile.copies file)
                Hnd' Hn') as H.
  cbn [GCodeFile.id GCodeFile.with_copies] in H. rewrite H.
  rewrite replace_at_twice by exact Hlt.
  change (GCodeFile.with_copies (GCodeFile.with_copies file copies)
                                (GCodeFile.copies file))
    with (GCodeFile.with_copies file (GCodeFile.copies file)).
  rewrite with_copies_same. now apply replace_at_same.
Qed.

Section CounterFacts.

Variable loadAsync : ArrayBuffer -> option JSZip.t.
Variable generateId : nat -> string.

(** X16.  With distinct identifiers, pressing "+" and then "-" on an item
    whose copy count is below 99 gives back the queue as it was, and so
    does "-" and then "+" on an item whose copy count is above 1. *)
Theorem increment_decrement_cancel st n index file :
  distinct_ids (AppState.files st) ->
  nth_error (AppState.files st) index = Some file ->
  (1 <= GCodeFile.copies file < 99 ->
   step loadAsync generateId
        (step loadAsync generateId (st, n) (IncrementCopies index))
        (DecrementCopies index)
   = (st, n)) /\
  (1 < GCodeFile.copies file <= 99 ->
   step loadAsync generateId
        (step loadAsync generateId (st, n) (DecrementCopies index))
        (IncrementCopies index)
   = (st, n)).
Proof.
  intros Hnd Hn. split; intros Hc.
  - destruct (update_and_back _ index file (GCodeFile.copies file + 1)
                Hnd Hn) as [Hn' Hback].
    assert (step loadAsync generateId (st, n) (IncrementCopies index)
            = (set_files st
                 (handleUpdateCopies (GCodeFile.id file)
                    (GCodeFile.copies file + 1) (AppState.files st)), n))
      as ->.
    { cbn [step]. unfold on_item. rewrite Hn. unfold incrementCopies.
      destruct (Z.ltb_spec (GCodeFile.copies file) 99); [reflexivity | lia]. }
    cbn [step]. unfold on_item. cbn [set_files AppState.files]. rewrite Hn'.
    unfold decrementCopies.
    cbn [GCodeFile.id GCodeFile.copies GCodeFile.with_copies].
    destruct (Z.gtb_spec (GCodeFile.copies file + 1) 1); [| lia].
    replace (GCodeFile.copies file + 1 - 1) with (GCodeFile.copies file)
      by lia.
    rewrite Hback. now destruct st.
  - destruct (update_and_back _ index file (GCodeFile.copies file - 1)
                Hnd Hn) as [Hn' Hback].
    assert (step loadAsync generateId (st, n) (DecrementCopies index)
            = (set_files st
                 (handleUpdateCopies (GCodeFile.id file)
                    (GCodeFile.copies file - 1) (AppState.files st)), n))
      as ->.
    { cbn [step]. unfold on_item. rewrite Hn. unfold decrementCopies.
      destruct (Z.gtb_spec (GCodeFile.copies file) 1); [reflexivity | lia]. }
    cbn [step]. unfold on_item. cbn [set_files AppState.files]. rewrite Hn'.
    unfold incrementCopies.
    cbn [GCodeFile.id GCodeFile.copies GCodeFile.with_copies].
    destruct (Z.ltb_spec (GCodeFile.copies file - 1) 99); [| lia].
    replace (GCodeFile.copies file - 1 + 1) with (GCodeFile.copies file)
      by lia.
    rewrite Hback. now destruct st.
Qed.

End CounterFacts.

Lemma increment_decrement_cancel_witness :
  let st := AppState.Build sample_queue ProcessingState.idle None in
  step sample_loader constant_id
       (step sample_loader constant_id (st, O) (IncrementCopies 1))
       (DecrementCopies 1)
  = (st, O).
Proof.
  cbv zeta.
  apply (increment_decrement_cancel sample_loader constant_id
           (AppState.Build sample_queue ProcessingState.idle None) O 1
           (GCodeFile.Build "b" "b.3mf" "b.3mf" "G2" [] 1 None 5 (Some 1)
                            "b.3mf")
           sample_queue_distinct eq_refl).
  cbn. lia.
Defined.

(** ** Totals *)

Lemma fold_left_sum {A} (g : A -> Z) l : forall acc,
  fold_left (fun sum x => sum + g x) l acc = acc + sum_Z (map g l).
Proof.
  induction l as [|a l IH]; intros acc; simpl; [lia |].
  rewrite IH. unfold sum_Z. lia.
Qed.

Lemma totalPrints_sum files :
  totalPrints files = sum_Z (map GCodeFile.copies files).
Proof. unfold totalPrints. now rewrite fold_left_sum. Qed.

Lemma totalLines_sum files :
  totalLines files
  = sum_Z (map (fun f => GCodeFile.lineCount f * GCodeFile.copies f) files).
Proof. unfold totalLines. now rewrite fold_left_sum. Qed.

Lemma sum_Z_permutation l l' : Permutation l l' -> sum_Z l = sum_Z l'.
Proof. unfold sum_Z. induction 1; simpl; lia. Qed.

Lemma existsb_permutation {A} (p : A -> bool) l l' :
  Permutation l l' -> existsb p l = existsb p l'.
Proof.
  induction 1; simpl.
  - reflexivity.
  - now rewrite IHPermutation.
  - now rewrite !orb_assoc, (orb_comm (p y)).
  - congruence.
Qed.

(** The total as [calculateTotalTime] computes it, in one expression. *)
Lemma calculateTotalTime_sum files :
  calculateTotalTime files =
  if existsb carries_nonempty_estimate files
  then Some (formatSeconds
               (sum_Z (map estimate_seconds
                           (filter carries_nonempty_estimate files))))
  else None.
Proof.
  unfold calculateTotalTime. rewrite total_loop_spec. simpl.
  now destruct (existsb carries_nonempty_estimate files).
Qed.

Lemma calculateTotalTime_permutation files files' :
  Permutation files files' ->
  calculateTotalTime files = calculateTotalTime files'.
Proof.
  intros H. rewrite !calculateTotalTime_sum.
  rewrite (existsb_permutation _ _ _ H).
  rewrite (sum_Z_permutation
             (map estimate_seconds (filter carries_nonempty_estimate files))
             (map estimate_seconds (filter carries_nonempty_estimate files')));
    [reflexivity |].
  now apply Permutation_map, filter_permutation.
Qed.

Lemma estimate_seconds_nonneg file :
  0 <= GCodeFile.copies file -> 0 <= estimate_seconds file.
Proof.
  intros Hc. unfold estimate_seconds.
  destruct (GCodeFile.estimatedTime file) as [e|]; [| lia].
  pose proof (seconds_nonneg e). nia.
Qed.

Lemma sum_filter_le {A} (g : A -> Z) (p q : A -> bool) l :
  Forall (fun x => 0 <= g x) l ->
  0 <= sum_Z (map g (filter p (filter q l)))
  <= sum_Z (map g (filter p l)).
Proof.
  unfold sum_Z. induction 1 as [|a l Ha Hl IH]; simpl; [lia |].
  destruct (q a); simpl; destruct (p a); simpl; lia.
Qed.

Lemma sample_queue_ok : copies_ok sample_queue.
Proof. unfold copies_ok, sample_queue. repeat constructor; cbn; lia. Defined.

(** X19.  With copy counts in [1, 99] the number of prints is the sum of
    the copy counts, lies between the number of files and 99 times that
    number, and is zero only for the empty queue. *)
Theorem totalPrints_bounds (files : list GCodeFile.t) :
  copies_ok files ->
  totalPrints files = sum_Z (map GCodeFile.copies files) /\
  Z.of_nat (List.length files) <= totalPrints files
  <= 99 * Z.of_nat (List.length files) /\
  (totalPrints files = 0 <-> files = []).
Proof.
  intros Hok. rewrite totalPrints_sum. split; [reflexivity |].
  assert (Z.of_nat (List.length files) <= sum_Z (map GCodeFile.copies files)
          <= 99 * Z.of_nat (List.length files)) as Hb.
  { unfold sum_Z. induction Hok as [|f l Hf Hl IH]; [simpl; lia |].
    cbn [List.length map fold_right]. lia. }
  split; [exact Hb |]. split.
  - intros H0. destruct files; [reflexivity |]. simpl List.length in Hb. lia.
  - now intros ->.
Qed.

Lemma totalPrints_bounds_witness :
  totalPrints sample_queue = 8 /\
  Z.of_nat 3 <= totalPrints sample_queue <= 99 * Z.of_nat 3.
Proof.
  split; [reflexivity |].
  apply (totalPrints_bounds sample_queue sample_queue_ok).
Defined.

(** ** One batch or two *)

Section BatchFacts.

Variable loadAsync : ArrayBuffer -> option JSZip.t.
Variable generateId : nat -> string.

Lemma batch_loop_app a : forall b n newFiles errors,
  batch_loop loadAsync generateId (a ++ b) n newFiles errors
  = let '(newFiles1, errors1, n1) :=
      batch_loop loadAsync generateId a n newFiles errors in
    batch_loop loadAsync generateId b n1 newFiles1 errors1.
Proof.
  induction a as [|file rest IH]; intros b n newFiles errors;
    [reflexivity |].
  cbn [app batch_loop].
  destruct (processUploadedFile loadAsync generateId file n)
    as [[message] | [processedFiles n']]; apply IH.
Qed.

Lemma batch_loop_acc b : forall n newFiles errors,
  batch_loop loadAsync generateId b n newFiles errors
  = let '(added, messages, n') :=
      batch_loop loadAsync generateId b n [] [] in
    ((newFiles ++ added)%list, (errors ++ messages)%list, n').
Proof.
  induction b as [|file rest IH]; intros n newFiles errors.
  - simpl. now rewrite !app_nil_r.
  - cbn [batch_loop].
    destruct (processUploadedFile loadAsync generateId file n)
      as [[message] | [processedFiles n']].
    + rewrite (IH n newFiles (errors ++ [message])%list).
      rewrite (IH n [] ([] ++ [message])%list).
      destruct (batch_loop loadAsync generateId rest n [] [])
        as [[added messages] k].
      simpl. now rewrite <- app_assoc.
    + rewrite (IH n' (newFiles ++ processedFiles)%list errors).
      rewrite (IH n' ([] ++ processedFiles)%list []).
      destruct (batch_loop loadAsync generateId rest n' [] [])
        as [[added messages] k].
      simpl. now rewrite <- app_assoc.
Qed.

Lemma batch_loop_errors selectedFiles n :
  snd (fst (batch_loop loadAsync generateId selectedFiles n [] []))
  = flat_map (errors_of_upload loadAsync) selectedFiles.
Proof.
  pose proof (batch_loop_spec loadAsync generateId selectedFiles n [] [])
    as H.
  destruct (batch_loop loadAsync generateId selectedFiles n [] [])
    as [[newFiles errors] k].
  now destruct H as (_ & -> & _).
Qed.

(** X20.  Uploading two batches one after the other leaves the same queue
    and the same identifier supply as uploading them as one batch; only
    the error display differs: the single batch reports the messages of
    all its failing files, the second of two batches replaces whatever
    the first had reported. *)
Theorem two_batches_or_one (a b : list File.t) (st : AppState.t) (n : nat) :
  let first := handleFilesSelected loadAsync generateId a st n in
  let second :=
    handleFilesSelected loadAsync generateId b (fst first) (snd first) in
  let single := handleFilesSelected loadAsync generateId (a ++ b) st n in
  AppState.files (fst second) = AppState.files (fst single) /\
  snd second = snd single /\
  AppState.error (fst single)
  = reported (flat_map (errors_of_upload loadAsync) (a ++ b)) /\
  AppState.error (fst second)
  = reported (flat_map (errors_of_upload loadAsync) b).
Proof.
  cbv zeta. unfold handleFilesSelected.
  rewrite batch_loop_app.
  pose proof (batch_loop_errors a n) as Ea.
  destruct (batch_loop loadAsync generateId a n [] [])
    as [[added1 messages1] n1].
  cbn [fst snd] in Ea. subst messages1.
  cbn [fst snd AppState.files].
  rewrite (batch_loop_acc b n1 added1).
  pose proof (batch_loop_errors b n1) as Eb.
  destruct (batch_loop loadAsync generateId b n1 [] [])
    as [[added2 messages2] n2].
  cbn [fst snd] in Eb. subst messages2.
  cbn [fst snd AppState.files AppState.error].
  split; [now rewrite app_assoc |]. split; [reflexivity |].
  unfold reported, is_nil. rewrite flat_map_app.
  split.
  - now destruct (flat_map (errors_of_upload loadAsync) a ++
                  flat_map (errors_of_upload loadAsync) b)%list.
  - now destruct (flat_map (errors_of_upload loadAsync) b).
Qed.

End BatchFacts.

(** A failing upload first, a good one second: the message does not
    survive the second batch. *)
Example second_batch_clears_error :
  let first :=
    handleFilesSelected sample_loader constant_id [bad_upload]
                        AppState.initial 0 in
  let second :=
    handleFilesSelected sample_loader constant_id [good_upload]
                        (fst first) (snd first) in
  AppState.error (fst first) = Some (invalid_archive_message "bad.3mf") /\
  AppState.error (fst second) = None.
Proof. vm_compute. split; reflexivity. Qed.

(** ** The drop zone *)

Lemma endsWith_iff (s suffix : string) :
  Str.endsWith s suffix = true <-> exists pre, s = pre ++ suffix.
Proof.
  split.
  - induction s as [|c t IH]; cbn [Str.endsWith]; intros H.
    + rewrite orb_false_r in H. apply String.eqb_eq in H.
      now exists EmptyString.
    + apply orb_true_iff in H as [H | H].
      * apply String.eqb_eq in H. now exists EmptyString.
      * destruct (IH H) as [pre ->]. now exists (String c pre).
  - intros [pre ->]. apply endsWith_append.
Qed.

Lemma endsWith_longer (s a b : string) :
  Str.endsWith s (a ++ b) = true -> Str.endsWith s b = true.
Proof.
  intros H. apply endsWith_iff in H as [pre ->].
  rewrite <- append_assoc. apply endsWith_append.
Qed.

(** The first test of the filter adds nothing to the second. *)
Lemma accepted_3mf file :
  accepted file = Str.endsWith (File.name file) ".3mf".
Proof.
  unfold accepted.
  destruct (Str.endsWith (File.name file) ".gcode.3mf") eqn:E;
    [| reflexivity].
  symmetry. apply (endsWith_longer _ ".gcode" ".3mf"). exact E.
Qed.

(** X21.  A drop passes on exactly the dropped files whose name ends in
    [.3mf] (in that letter case), in the order they were dropped, and calls
    back only when there is at least one and the zone is enabled; the test
    for [.gcode.3mf] never decides anything.  The file picker passes on
    whatever was chosen, unfiltered. *)
Theorem drop_filter (disabled : bool) (dropped : list File.t) :
  handleDrop disabled dropped =
  (if disabled then None
   else match filter (fun f => Str.endsWith (File.name f) ".3mf") dropped with
        | [] => None
        | files => Some files
        end) /\
  (forall files,
     handleDrop disabled dropped = Some files ->
     disabled = false /\ files <> [] /\
     forall f, In f files <->
               In f dropped /\ Str.endsWith (File.name f) ".3mf" = true) /\
  (forall chosen, chosen <> [] -> handleFileInput (Some chosen) = Some chosen).
Proof.
  assert (handleDrop disabled dropped =
          if disabled then None
          else match filter (fun f => Str.endsWith (File.name f) ".3mf")
                            dropped with
               | [] => None
               | files => Some files
               end) as Hd.
  { unfold handleDrop. destruct disabled; [reflexivity |].
    rewrite (filter_ext accepted
               (fun f => Str.endsWith (File.name f) ".3mf") accepted_3mf).
    now destruct (filter (fun f => Str.endsWith (File.name f) ".3mf") dropped). }
  split; [exact Hd |]. split.
  - intros files H. rewrite Hd in H.
    destruct disabled; [discriminate |]. split; [reflexivity |].
    destruct (filter (fun f => Str.endsWith (File.name f) ".3mf") dropped)
      as [|f0 rest] eqn:E; [discriminate |].
    inversion H; subst files. split; [discriminate |].
    intros f. rewrite <- E. apply filter_In.
  - intros chosen Hne. unfold handleFileInput.
    destruct chosen; [congruence | reflexivity].
Qed.

(** X22.  The name given to the combined download always passes the filter
    of the drop zone, so a combined file can be dropped back in. *)
Theorem combined_file_is_accepted
        (files : list GCodeFile.t) (bytes : option ArrayBuffer) :
  Str.endsWith (combined_filename files) ".gcode.3mf" = true /\
  handleDrop false [File.Build (combined_filename files) bytes]
  = Some [File.Build (combined_filename files) bytes].
Proof.
  assert (Str.endsWith (combined_filename files) ".gcode.3mf" = true) as H.
  { unfold combined_filename.
    change "_prints.gcode.3mf" with ("_prints" ++ ".gcode.3mf").
    rewrite <- !append_assoc. apply endsWith_append. }
  split; [exact H |].
  assert (accepted (File.Build (combined_filename files) bytes) = true) as Ha.
  { unfold accepted. cbn [File.name]. now rewrite H. }
  unfold handleDrop. cbn [filter]. now rewrite Ha.
Qed.

(** ** Durations written by hand *)

Lemma drop_while_prefix p (a b : string) :
  Str.all p a = true ->
  Str.drop_while p b = b ->
  Str.drop_while p (a ++ b) = b.
Proof.
  induction a as [|x a IH]; simpl; intros Ha Hb; [exact Hb |].
  apply andb_true_iff in Ha as [Hx Ha]. rewrite Hx. now apply IH.
Qed.

Lemma drop_while_head p c (t : string) :
  p c = false -> Str.drop_while p (String c t) = String c t.
Proof. intros H. simpl. now rewrite H. Qed.

Lemma space_not_digit c : Char.is_space c = true -> Char.is_digit c = false.
Proof. each_char c. Qed.

Lemma drop_digits_before_spaces (w : string) c rest :
  Str.all Char.is_space w = true -> Char.is_digit c = false ->
  Str.drop_while Char.is_digit (w ++ String c rest) = w ++ String c rest.
Proof.
  intros Hw Hc. destruct w as [|x w]; simpl.
  - now rewrite Hc.
  - simpl in Hw. apply andb_true_iff in Hw as [Hx _].
    now rewrite (space_not_digit x Hx).
Qed.

(** What a match of [(\d+)\s*u] is, when digits are followed by blanks and
    one more character. *)
Lemma unit_here_token u (d w : string) c rest :
  Str.all Char.is_digit d = true -> d <> EmptyString ->
  Str.all Char.is_space w = true ->
  Char.is_digit c = false -> Char.is_space c = false ->
  unit_here u (d ++ w ++ String c rest)
  = if Char.eq_ci u c then Some d else None.
Proof.
  intros Hd Hne Hw Hcd Hcs.
  destruct d as [|x d']; [congruence |].
  simpl in Hd. apply andb_true_iff in Hd as [Hx Hd].
  cbn [append]. rewrite unit_here_digit by exact Hx.
  rewrite (drop_while_prefix Char.is_digit d' (w ++ String c rest) Hd)
    by (now apply drop_digits_before_spaces).
  rewrite (drop_while_prefix Char.is_space w (String c rest) Hw)
    by (now apply drop_while_head).
  destruct (Char.eq_ci u c); [| reflexivity].
  change (String x (d' ++ w ++ String c rest))
    with (String x d' ++ (w ++ String c rest)).
  now rewrite consumed_append.
Qed.

Lemma exec_token_hit u (d w : string) c rest :
  unit_letter u ->
  Str.all Char.is_digit d = true -> d <> EmptyString ->
  Str.all Char.is_space w = true ->
  Char.is_digit c = false -> Char.is_space c = false ->
  Char.eq_ci u c = true ->
  exec (pat_unit u) (d ++ w ++ String c rest) = Some d.
Proof.
  intros Hu Hd Hne Hw Hcd Hcs Hc. rewrite exec_unit_step by exact Hu.
  now rewrite unit_here_token, Hc.
Qed.

Lemma exec_skip_spaces u (w rest : string) :
  unit_letter u -> Str.all Char.is_space w = true ->
  exec (pat_unit u) (w ++ rest) = exec (pat_unit u) rest.
Proof.
  intros Hu. induction w as [|x w IH]; intros Hw; [reflexivity |].
  simpl in Hw. apply andb_true_iff in Hw as [Hx Hw]. cbn [append].
  rewrite exec_unit_skip by (try exact Hu; now apply space_not_digit).
  now apply IH.
Qed.

Lemma exec_token_miss u (d w : string) c rest :
  unit_letter u ->
  Str.all Char.is_digit d = true ->
  Str.all Char.is_space w = true ->
  Char.is_digit c = false -> Char.is_space c = false ->
  Char.eq_ci u c = false ->
  exec (pat_unit u) (d ++ w ++ String c rest) = exec (pat_unit u) rest.
Proof.
  intros Hu Hd Hw Hcd Hcs Hc. induction d as [|x d IH].
  - cbn [append]. rewrite exec_skip_spaces by assumption.
    now apply exec_unit_skip.
  - pose proof Hd as Hall. simpl in Hd.
    apply andb_true_iff in Hd as [Hx Hd].
    rewrite exec_unit_step by exact Hu.
    rewrite (unit_here_token u (String x d) w c rest)
      by (try assumption; discriminate).
    rewrite Hc. cbn [append]. now apply IH.
Qed.

Lemma eq_ci_letter u c :
  Char.eq_ci u c = true -> (u = "h" \/ u = "m" \/ u = "s")%char ->
  Char.is_digit c = false /\ Char.is_space c = false /\
  (forall v, (v = "h" \/ v = "m" \/ v = "s")%char -> v <> u ->
             Char.eq_ci v c = false).
Proof.
  intros H [-> | [-> | ->]]; revert H; each_char c; intros _;
    (split; [reflexivity |]; split; [reflexivity |]);
    intros v [-> | [-> | ->]] Hv; try reflexivity; congruence.
Qed.

Lemma not_all_digits_spaced (d w : string) c rest :
  Str.all Char.is_digit d = true -> d <> EmptyString ->
  Str.all Char.is_space w = true ->
  Char.is_digit c = false -> Char.is_space c = false ->
  test_all_digits (Str.trim (d ++ w ++ String c rest)) = false.
Proof.
  intros Hd Hne Hw Hcd Hcs.
  rewrite test_all_digits_spec. unfold Str.trim.
  destruct d as [|x d']; [congruence |].
  simpl in Hd. apply andb_true_iff in Hd as [Hx Hd].
  cbn [append Str.drop_while]. rewrite (digit_not_space x Hx).
  assert (forall s, Str.all Char.is_digit
                      (Str.drop_while_end Char.is_space (s ++ String c rest))
                    = false) as Hend.
  { induction s as [|y s IH]; simpl.
    - rewrite Hcs. simpl. now rewrite Hcd.
    - destruct (Char.is_space y &&
                Str.is_empty
                  (Str.drop_while_end Char.is_space (s ++ String c rest)))
        eqn:E.
      + apply andb_true_iff in E as [_ E].
        destruct (Str.drop_while_end Char.is_space (s ++ String c rest));
          [discriminate IH | discriminate E].
      + simpl. rewrite IH. apply andb_false_r. }
  rewrite <- (append_assoc d' w (String c rest)).
  change (String x ((d' ++ w) ++ String c rest))
    with (String x (d' ++ w) ++ String c rest).
  rewrite Hend. apply andb_false_r.
Qed.

(** A duration written as hours, minutes and seconds, read on exact
    integers: white space may separate the parts and stand between a number
    and its unit letter, and the letters may be in either case. *)
Lemma handwritten_duration_exact
        (h m s : Z) (a b c d e : string) (H M S : ascii) :
  0 <= h -> 0 <= m -> 0 <= s ->
  Str.all Char.is_space a = true -> Str.all Char.is_space b = true ->
  Str.all Char.is_space c = true -> Str.all Char.is_space d = true ->
  Str.all Char.is_space e = true ->
  Char.eq_ci "h" H = true -> Char.eq_ci "m" M = true ->
  Char.eq_ci "s" S = true ->
  parseTimeToSeconds
    (Num.toString h ++ a ++
     String H (b ++ Num.toString m ++ c ++
               String M (d ++ Num.toString s ++ e ++ String S EmptyString)))
  = h * 3600 + m * 60 + s.
Proof.
  intros Hh Hm Hs Ha Hb Hc Hd He HH HM HS.
  destruct (toString_nonneg h Hh) as (Ah & Nh & _).
  destruct (toString_nonneg m Hm) as (Am & Nm & _).
  destruct (toString_nonneg s Hs) as (As & Ns & _).
  destruct (eq_ci_letter "h" H HH) as (HHd & HHs & HHo); [auto |].
  destruct (eq_ci_letter "m" M HM) as (HMd & HMs & HMo); [auto |].
  destruct (eq_ci_letter "s" S HS) as (HSd & HSs & HSo); [auto |].
  rewrite parseTimeToSeconds_units
    by (now apply not_all_digits_spaced).
  rewrite (exec_token_hit "h") by (try assumption; exact unit_letter_h).
  rewrite (exec_token_miss "m" (Num.toString h) a H)
    by first [ assumption | exact unit_letter_m
             | apply HHo; [auto | discriminate] ].
  rewrite (exec_skip_spaces "m" b) by (try assumption; exact unit_letter_m).
  rewrite (exec_token_hit "m") by (try assumption; exact unit_letter_m).
  rewrite (exec_token_miss "s" (Num.toString h) a H)
    by first [ assumption | exact unit_letter_s
             | apply HHo; [auto | discriminate] ].
  rewrite (exec_skip_spaces "s" b) by (try assumption; exact unit_letter_s).
  rewrite (exec_token_miss "s" (Num.toString m) c M)
    by first [ assumption | exact unit_letter_s
             | apply HMo; [auto | discriminate] ].
  rewrite (exec_skip_spaces "s" d) by (try assumption; exact unit_letter_s).
  rewrite (exec_token_hit "s") by (try assumption; exact unit_letter_s).
  rewrite !int_of_capture_toString. lia.
Qed.

(** ** One line *)

(** The capture of a pattern whose group is [c+] or [c+?] is a non-empty
    run of the class. *)
Lemma plus_capture (p : pattern) g q gcode cap :
  group p = Plus g q -> exec p gcode = Some cap ->
  Str.all q cap = true /\ cap <> EmptyString.
Proof.
  intros Hg H. apply exec_split in H as (pre & s & _ & H).
  unfold match_here in H. apply run_split in H as (pre1 & s1 & _ & H).
  rewrite Hg in H. cbn [Plus run] in H.
  destruct s1 as [|c t]; [discriminate |].
  destruct (q c) eqn:Hc; [| discriminate].
  apply star_result_split in H as (m & rest & -> & Hm & H).
  apply run_result in H as (_ & H). inversion H; subst cap.
  change (String c (m ++ rest)) with (String c m ++ rest).
  rewrite consumed_append. simpl. rewrite Hc, Hm. split; [reflexivity |].
  discriminate.
Qed.

Lemma all_drop_while p q (s : string) :
  Str.all p s = true -> Str.all p (Str.drop_while q s) = true.
Proof.
  induction s as [|c t IH]; simpl; [trivial |].
  intros H. destruct (q c); [| exact H].
  apply andb_true_iff in H as [_ H]. now apply IH.
Qed.

Lemma all_drop_while_end p q (s : string) :
  Str.all p s = true -> Str.all p (Str.drop_while_end q s) = true.
Proof.
  induction s as [|c t IH]; simpl; [trivial |].
  intros H. apply andb_true_iff in H as [Hc H].
  destruct (q c && Str.is_empty (Str.drop_while_end q t)); [reflexivity |].
  simpl. now rewrite Hc, IH.
Qed.

Lemma digit_is_dot c : Char.is_digit c = true -> Char.is_dot c = true.
Proof. each_char c. Qed.

Lemma formatSeconds_one_line (s : Z) :
  0 <= s -> Str.all Char.is_dot (formatSeconds s) = true.
Proof.
  intros Hs.
  destruct (hms_decomposition s Hs) as (Hh & Hm & Hsec & _).
  unfold formatSeconds. cbv zeta.
  generalize dependent (Z.rem s 60). generalize dependent (Z.rem s 3600 / 60).
  generalize dependent (s / 3600). clear s Hs.
  intros h Hh m Hm sec Hsec.
  assert (forall n, 0 <= n -> Str.all Char.is_dot (Num.toString n) = true)
    as Hdot.
  { intros n Hn. destruct (toString_nonneg n Hn) as (Ha & _ & _).
    revert Ha. apply all_impl. exact digit_is_dot. }
  destruct (Z.gtb_spec h 0), (Z.gtb_spec m 0), (Z.gtb_spec sec 0);
    cbn [push_if app List.length Nat.eqb orb Str.join];
    rewrite ?all_append, ?Hdot by assumption; reflexivity.
Qed.

(** * The code on doubles *)

(** ** Rounding *)

Lemma log2_small z : 0 <= z < 2 ^ 53 -> Z.log2 z <= 52.
Proof.
  intros [H0 H]. destruct (Z.eq_dec z 0) as [-> | Hz]; [cbn; lia |].
  assert (Z.log2 z < 53) by (apply Z.log2_lt_pow2; lia). lia.
Qed.

Lemma sgn_times_abs z : Z.sgn z * Z.abs z = z.
Proof. destruct z; reflexivity. Qed.

(** An integer below 2^53 in magnitude is a double: nothing is rounded. *)
Lemma of_Z_exact z : Z.abs z < 2 ^ 53 -> Double.of_Z z = Double.Int z.
Proof.
  intros H. unfold Double.of_Z, Double.nearest.
  assert ((Z.log2 (Z.abs z) <=? 52) = true) as ->
    by (apply Z.leb_le, log2_small; lia).
  assert ((2 ^ 1024 <=? Z.abs z) = false) as -> by (apply Z.leb_gt; lia).
  now rewrite sgn_times_abs.
Qed.

Lemma rne_cases a b :
  0 < b ->
  (Double.rne a b = a / b /\ 2 * (a mod b) <= b) \/
  (Double.rne a b = a / b + 1 /\ b <= 2 * (a mod b)).
Proof.
  intros Hb. unfold Double.rne.
  destruct (Z.ltb_spec (2 * (a mod b)) b); [left; lia |].
  destruct (Z.ltb_spec b (2 * (a mod b))); [right; lia |].
  destruct (Z.even (a / b)); [left | right]; lia.
Qed.

Lemma rne_nonneg a b : 0 <= a -> 0 < b -> 0 <= Double.rne a b.
Proof.
  intros Ha Hb. pose proof (Z.div_pos a b Ha Hb).
  destruct (rne_cases a b Hb) as [[-> _] | [-> _]]; lia.
Qed.

Lemma rne_lower a b : 0 < b -> a / b <= Double.rne a b.
Proof. intros Hb. destruct (rne_cases a b Hb) as [[-> _] | [-> _]]; lia. Qed.

Lemma nearest_nonneg z : 0 <= z -> 0 <= Double.nearest z.
Proof.
  intros Hz. unfold Double.nearest.
  destruct (Z.leb_spec (Z.log2 z) 52); [exact Hz |].
  apply Z.mul_nonneg_nonneg; [| apply Z.pow_nonneg; lia].
  apply rne_nonneg; [exact Hz |]. apply Z.pow_pos_nonneg; lia.
Qed.

(** Rounding never takes a number of 2^53 or more below 2^53. *)
Lemma nearest_large z : 2 ^ 53 <= z -> 2 ^ 53 <= Double.nearest z.
Proof.
  intros Hz. unfold Double.nearest.
  destruct (Z.leb_spec (Z.log2 z) 52) as [Hl | Hl]; [exact Hz |].
  set (e := Z.log2 z) in *.
  assert (2 ^ e <= z) as Hlow by (apply Z.log2_spec; lia).
  assert (0 < 2 ^ (e - 52)) as Hp by (apply Z.pow_pos_nonneg; lia).
  assert (2 ^ e = 2 ^ 52 * 2 ^ (e - 52)) as He.
  { rewrite <- Z.pow_add_r by lia. f_equal. lia. }
  assert (2 ^ 52 <= z / 2 ^ (e - 52)) as Hq
    by (apply Z.div_le_lower_bound; lia).
  pose proof (rne_lower z (2 ^ (e - 52)) Hp) as Hr.
  assert (2 ^ 53 <= 2 ^ e) as He53 by (apply Z.pow_le_mono_r; lia).
  nia.
Qed.

Lemma of_Z_nonneg z : 0 <= z -> Double.nonneg (Double.of_Z z).
Proof.
  intros Hz. unfold Double.of_Z.
  pose proof (nearest_nonneg (Z.abs z) (Z.abs_nonneg z)) as Hn.
  destruct (2 ^ 1024 <=? Double.nearest (Z.abs z)).
  - destruct (Z.ltb_spec z 0); [lia | exact I].
  - cbn [Double.nonneg]. apply Z.mul_nonneg_nonneg; [| exact Hn].
    now apply Z.sgn_nonneg.
Qed.

(** What an integer of 2^53 or more rounds to is large as well. *)
Lemma of_Z_large z :
  2 ^ 53 <= z ->
  Double.of_Z z = Double.PosInf \/
  exists m, Double.of_Z z = Double.Int m /\ 2 ^ 53 <= m.
Proof.
  intros Hz. unfold Double.of_Z.
  rewrite (Z.abs_eq z) by lia.
  pose proof (nearest_large z Hz) as Hn.
  destruct (2 ^ 1024 <=? Double.nearest z).
  - left. destruct (Z.ltb_spec z 0); [lia | reflexivity].
  - right. eexists. split; [reflexivity |].
    rewrite (proj2 (Z.sgn_pos_iff z)) by lia. lia.
Qed.

Lemma of_Z_small z :
  z <= - 2 ^ 53 ->
  Double.of_Z z = Double.NegInf \/
  exists m, Double.of_Z z = Double.Int m /\ m <= - 2 ^ 53.
Proof.
  intros Hz. unfold Double.of_Z.
  rewrite (Z.abs_neq z) by lia.
  pose proof (nearest_large (- z) ltac:(lia)) as Hn.
  destruct (2 ^ 1024 <=? Double.nearest (- z)).
  - left. destruct (Z.ltb_spec z 0); [reflexivity | lia].
  - right. eexists. split; [reflexivity |].
    rewrite (proj2 (Z.sgn_neg_iff z)) by lia. lia.
Qed.

(** ** The floored quotient *)

Lemma exponent_lower a d :
  0 < a -> 0 < d ->
  if 0 <=? Double.exponent a d
  then d * 2 ^ Double.exponent a d <= a
  else d <= a * 2 ^ (- Double.exponent a d).
Proof.
  intros Ha Hd. unfold Double.exponent.
  pose proof (Z.log2_spec a Ha) as [Hla _].
  pose proof (Z.log2_spec d Hd) as [_ Hld].
  pose proof (Z.log2_nonneg a) as Ha0.
  pose proof (Z.log2_nonneg d) as Hd0.
  set (la := Z.log2 a) in *. set (ld := Z.log2 d) in *.
  destruct (Z.leb_spec 0 (la - ld)) as [He | He].
  - destruct (Z.leb_spec (d * 2 ^ (la - ld)) a) as [Ht | Ht].
    + assert ((0 <=? la - ld) = true) as -> by (apply Z.leb_le; lia).
      exact Ht.
    + destruct (Z.leb_spec 0 (la - ld - 1)) as [He' | He'].
      * assert (2 ^ la = 2 ^ Z.succ ld * 2 ^ (la - ld - 1)) as Hsplit.
        { rewrite <- Z.pow_add_r by lia. f_equal. lia. }
        assert (0 < 2 ^ (la - ld - 1)) by (apply Z.pow_pos_nonneg; lia).
        nia.
      * assert (la - ld = 0) as E by lia.
        replace (- (la - ld - 1)) with 1 by lia.
        assert (la = ld) as El by lia. rewrite El in Hla.
        rewrite Z.pow_succ_r in Hld by lia. rewrite Z.pow_1_r. lia.
  - destruct (Z.leb_spec d (a * 2 ^ (- (la - ld)))) as [Ht | Ht].
    + assert ((0 <=? la - ld) = false) as -> by (apply Z.leb_gt; lia).
      exact Ht.
    + assert ((0 <=? la - ld - 1) = false) as -> by (apply Z.leb_gt; lia).
      assert (2 ^ Z.succ ld = 2 ^ la * 2 ^ (- (la - ld - 1))) as Hsplit.
      { rewrite <- Z.pow_add_r by lia. f_equal. lia. }
      assert (0 < 2 ^ (- (la - ld - 1))) by (apply Z.pow_pos_nonneg; lia).
      nia.
Qed.

(** Rounding a quotient to 53 bits of precision does not change its floor
    when the dividend is below 2^53. *)
Lemma rounded_quotient_floor a d k :
  0 <= a -> 0 < d -> 0 < k -> d < 2 * k ->
  Double.rne (a * k) d / k = a / d.
Proof.
  intros Ha Hd Hk Hdk.
  pose proof (Z.div_mod a d ltac:(lia)) as Hdiv.
  pose proof (Z.mod_pos_bound a d Hd) as HR.
  pose proof (Z.div_mod (a * k) d ltac:(lia)) as Hdiv'.
  pose proof (Z.mod_pos_bound (a * k) d Hd) as HR'.
  pose proof (rne_cases (a * k) d Hd) as Hc.
  set (Q := a / d) in *. set (R := a mod d) in *.
  set (q := a * k / d) in *. set (r := (a * k) mod d) in *.
  assert (Q * k <= q) as Hlo by nia.
  assert (q <= Q * k + k - 1) as Hhi by nia.
  assert (Q * k <= Double.rne (a * k) d < (Q + 1) * k) as Hb.
  { destruct Hc as [[-> _] | [-> Hup]]; [lia |].
    split; [lia |].
    destruct (Z.eq_dec q (Q * k + k - 1)) as [E | E]; [exfalso | lia].
    assert (r = d - k * (d - R)) by nia.
    assert (1 <= d - R) by lia. nia. }
  symmetry. apply (Z.div_unique _ _ _ (Double.rne (a * k) d - Q * k)); lia.
Qed.

Lemma floor_quotient_exact a d :
  0 <= a < 2 ^ 53 -> 0 < d -> Double.floor_quotient a d = a / d.
Proof.
  intros [Ha Hlt] Hd. unfold Double.floor_quotient.
  destruct (Z.eqb_spec a 0) as [-> | Hnz]; [reflexivity |].
  rewrite (Z.abs_eq a) by lia.
  rewrite (proj2 (Z.sgn_pos_iff a)) by lia.
  pose proof (exponent_lower a d ltac:(lia) Hd) as He.
  set (e := Double.exponent a d) in *. cbv zeta.
  destruct (Z.leb_spec 0 (e - 52)) as [Hs | Hs].
  - (* the quotient is at least 2^52: the divisor is 1 *)
    assert ((0 <=? e) = true) as E0 by (apply Z.leb_le; lia).
    rewrite E0 in He.
    assert (2 ^ 52 <= 2 ^ e) by (apply Z.pow_le_mono_r; lia).
    assert (d = 1) as -> by nia.
    assert (e = 52) as ->.
    { destruct (Z.eq_dec e 52); [assumption | exfalso].
      assert (2 ^ 53 <= 2 ^ e) by (apply Z.pow_le_mono_r; lia). lia. }
    change (2 ^ (52 - 52)) with 1. rewrite !Z.mul_1_l, Z.mul_1_r.
    unfold Double.rne. now rewrite Z.mod_1_r, !Z.div_1_r.
  - rewrite Z.mul_1_l.
    apply rounded_quotient_floor;
      [lia | lia | apply Z.pow_pos_nonneg; lia |].
    destruct (Z.leb_spec 0 e) as [He0 | He0].
    + assert (2 ^ 53 = 2 ^ e * (2 * 2 ^ (- (e - 52)))) as Hsplit.
      { rewrite <- Z.pow_succ_r by lia. rewrite <- Z.pow_add_r by lia.
        f_equal. lia. }
      assert (0 < 2 ^ e) by (apply Z.pow_pos_nonneg; lia).
      nia.
    + assert (2 * 2 ^ (- (e - 52)) = 2 ^ 53 * 2 ^ (- e)) as Hsplit.
      { rewrite <- Z.pow_succ_r by lia. rewrite <- Z.pow_add_r by lia.
        f_equal. lia. }
      assert (0 < 2 ^ (- e)) by (apply Z.pow_pos_nonneg; lia).
      nia.
Qed.

(** Below 2^53 a number prints as the integer it is. *)
Lemma toString_exact z :
  Z.abs z < 2 ^ 53 -> Double.toString (Double.Int z) = Num.toString z.
Proof.
  intros H. cbn [Double.toString].
  now rewrite (proj2 (Z.ltb_lt _ _) H).
Qed.

(** ** What the model prints for numbers beyond 2^53 *)

Example prints_shortest_decimal :
  Double.toString (Double.Int (2 ^ 60)) = "1152921504606847000" /\
  Double.toString (Double.Int (2 ^ 70)) = "1.1805916207174113e+21" /\
  Double.toString (Double.of_Z (10 ^ 21)) = "1e+21" /\
  Double.toString (Double.of_Z (2 ^ 1024 - 2 ^ 970 - 1))
  = "1.7976931348623157e+308" /\
  Double.of_Z (2 ^ 1024 - 2 ^ 970) = Double.PosInf /\
  Double.of_Z (2 ^ 53 + 1) = Double.Int (2 ^ 53) /\
  Double.of_Z (2 ^ 53 + 3) = Double.Int (2 ^ 53 + 4).
Proof. vm_compute. repeat split. Qed.

(** ** Durations on doubles *)

Lemma add_exact a b :
  Z.abs (a + b) < 2 ^ 53 ->
  Double.add (Double.Int a) (Double.Int b) = Double.Int (a + b).
Proof. intros H. cbn [Double.add]. now apply of_Z_exact. Qed.

Lemma mul_exact a b :
  Z.abs (a * b) < 2 ^ 53 ->
  Double.mul (Double.Int a) (Double.Int b) = Double.Int (a * b).
Proof. intros H. cbn [Double.mul]. now apply of_Z_exact. Qed.

Lemma gt0_Int z : Double.gt0 (Double.Int z) = (z >? 0).
Proof. cbn [Double.gt0]. now rewrite Z.gtb_ltb. Qed.

(** Below 2^53 [formatSeconds] prints what its reading on exact integers
    prints. *)
Lemma formatSeconds_agrees s :
  0 <= s < 2 ^ 53 -> Js.formatSeconds (Double.Int s) = formatSeconds s.
Proof.
  intros Hs. unfold Js.formatSeconds, formatSeconds. cbv zeta.
  cbn [Double.floor_div Double.rem].
  pose proof (Z.rem_bound_pos s 3600 ltac:(lia) ltac:(lia)) as Hr.
  pose proof (Z.rem_bound_pos s 60 ltac:(lia) ltac:(lia)) as Hr'.
  rewrite (floor_quotient_exact s 3600) by lia.
  rewrite (floor_quotient_exact (Z.rem s 3600) 60) by lia.
  rewrite !gt0_Int.
  assert (0 <= s / 3600 < 2 ^ 53) as Hh
    by (Z.to_euclidean_division_equations; lia).
  assert (0 <= Z.rem s 3600 / 60 < 2 ^ 53) as Hm
    by (Z.to_euclidean_division_equations; lia).
  rewrite !toString_exact by (rewrite Z.abs_eq; lia).
  reflexivity.
Qed.

(** A run of digits is read as the double nearest to the integer it
    denotes. *)
Lemma parseInt_bare (s : string) :
  bare_integer s = true ->
  Double.parseInt s = Double.of_Z (Num.digits_value 0 s) /\
  int_of_capture s = Num.digits_value 0 s /\
  0 <= Num.digits_value 0 s.
Proof.
  intros H. unfold Double.parseInt.
  rewrite (bare_integer_parses s H), (int_of_bare_integer s H).
  repeat split. apply digits_value_nonneg. lia.
Qed.

Lemma mul_const_nonneg x c :
  0 < c -> Double.nonneg x -> Double.nonneg (Double.mul x (Double.Int c)).
Proof.
  intros Hc. destruct x as [a | | |]; cbn [Double.nonneg Double.mul];
    try contradiction.
  - intros Ha. apply of_Z_nonneg. nia.
  - intros _. destruct (Z.eqb_spec c 0); [lia |].
    now rewrite (proj2 (Z.ltb_lt 0 c) Hc).
Qed.

Lemma add_nonneg x y :
  Double.nonneg x -> Double.nonneg y -> Double.nonneg (Double.add x y).
Proof.
  destruct x as [a | | |], y as [b | | |];
    cbn [Double.nonneg Double.add]; try contradiction; try (intros; exact I).
  intros Ha Hb. apply of_Z_nonneg. lia.
Qed.

Lemma parseInt_capture_nonneg u inp cap :
  exec (pat_unit u) inp = Some cap -> Double.nonneg (Double.parseInt cap).
Proof.
  intros H. apply pat_unit_capture in H.
  destruct (parseInt_bare cap H) as (-> & _ & Hn). now apply of_Z_nonneg.
Qed.

(** Whatever the text, the parser returns zero, a positive integer or the
    positive infinity. *)
Lemma seconds_never_negative (timeStr : string) :
  Double.nonneg (Js.parseTimeToSeconds timeStr).
Proof.
  unfold Js.parseTimeToSeconds.
  destruct (test_all_digits (Str.trim timeStr)) eqn:E.
  - rewrite test_all_digits_spec in E.
    destruct (parseInt_bare (Str.trim timeStr) E) as (-> & _ & Hn).
    now apply of_Z_nonneg.
  - cbv zeta.
    pose proof (parseInt_capture_nonneg "h" timeStr) as Hh.
    pose proof (parseInt_capture_nonneg "m" timeStr) as Hm.
    pose proof (parseInt_capture_nonneg "s" timeStr) as Hs.
    assert (Double.nonneg (Double.Int 0)) as H0 by (cbn; lia).
    destruct (exec (pat_unit "h") timeStr) as [h|],
             (exec (pat_unit "m") timeStr) as [m|],
             (exec (pat_unit "s") timeStr) as [s|];
      repeat first [ exact H0
                   | apply add_nonneg
                   | apply mul_const_nonneg; [lia |]
                   | now apply Hh | now apply Hm | now apply Hs ].
Qed.

(** As long as the exact reading of a text is below 2^53, it is what the
    code returns. *)
Lemma parseTimeToSeconds_agrees (timeStr : string) :
  parseTimeToSeconds timeStr < 2 ^ 53 ->
  Js.parseTimeToSeconds timeStr = Double.Int (parseTimeToSeconds timeStr).
Proof.
  unfold Js.parseTimeToSeconds, parseTimeToSeconds.
  destruct (test_all_digits (Str.trim timeStr)) eqn:E.
  - rewrite test_all_digits_spec in E.
    destruct (parseInt_bare (Str.trim timeStr) E) as (-> & -> & Hn).
    intros Hlt. apply of_Z_exact. rewrite Z.abs_eq; lia.
  - cbv zeta.
    pose proof (pat_unit_capture "h" timeStr) as Hh.
    pose proof (pat_unit_capture "m" timeStr) as Hm.
    pose proof (pat_unit_capture "s" timeStr) as Hs.
    destruct (exec (pat_unit "h") timeStr) as [h|];
      [destruct (parseInt_bare h (Hh h eq_refl)) as (-> & -> & ?) |];
    (destruct (exec (pat_unit "m") timeStr) as [m|];
      [destruct (parseInt_bare m (Hm m eq_refl)) as (-> & -> & ?) |]);
    (destruct (exec (pat_unit "s") timeStr) as [s|];
      [destruct (parseInt_bare s (Hs s eq_refl)) as (-> & -> & ?) |]);
    intros Hlt;
    rewrite ?of_Z_exact by (rewrite Z.abs_eq; lia);
    rewrite ?mul_exact by (rewrite Z.abs_eq; lia);
    rewrite ?add_exact by (rewrite Z.abs_eq; lia);
    reflexivity.
Qed.

(** Parsing undoes formatting on the integers from 0 to 2^53 - 1. *)
Lemma roundtrip_safe (s : Z) :
  0 <= s < 2 ^ 53 ->
  Js.parseTimeToSeconds (Js.formatSeconds (Double.Int s)) = Double.Int s.
Proof.
  intros Hs. rewrite (formatSeconds_agrees s Hs).
  rewrite parseTimeToSeconds_agrees; rewrite parse_after_format by lia;
    [reflexivity | lia].
Qed.

(** C3, amended.  For every non-negative integer [s] up to 2^53, the range
    in which every integer is a number of the language, parsing what the
    formatter prints gives [s] back, on the doubles the code computes with:
    [parseTimeToSeconds (formatSeconds s) = s]; such an [s] is a double,
    and nothing is rounded on the way. *)
Theorem format_parse_roundtrip (s : Z) :
  0 <= s <= 2 ^ 53 ->
  Double.of_Z s = Double.Int s /\
  Js.parseTimeToSeconds (Js.formatSeconds (Double.Int s)) = Double.Int s.
Proof.
  intros Hs. destruct (Z.eq_dec s (2 ^ 53)) as [-> | Hne].
  - split; vm_compute; reflexivity.
  - split.
    + apply of_Z_exact. rewrite Z.abs_eq; lia.
    + apply roundtrip_safe. lia.
Qed.

Lemma format_parse_roundtrip_witness :
  0 <= 3661 <= 2 ^ 53 /\
  Js.formatSeconds (Double.Int 3661) = "1h 1m 1s" /\
  Js.parseTimeToSeconds (Js.formatSeconds (Double.Int 3661))
  = Double.Int 3661.
Proof.
  split; [lia |]. split; [reflexivity |].
  apply (format_parse_roundtrip 3661). lia.
Defined.

(** C3 as stated fails: 2^55 + 56 is a non-negative integer and a double;
    the formatter prints it exactly, but the parser adds hours, minutes and
    seconds in doubles, where the two last additions round, and returns
    eight seconds less.  (2^53 + 1 is the first integer that is not a
    double.) *)
Lemma roundtrip_loses_seconds :
  0 <= 36028797018964024 /\
  Double.of_Z 36028797018964024 = Double.Int 36028797018964024 /\
  Js.formatSeconds (Double.Int 36028797018964024) = "10007999171934h 27m 4s" /\
  Js.parseTimeToSeconds (Js.formatSeconds (Double.Int 36028797018964024))
  = Double.Int 36028797018964016 /\
  Js.parseTimeToSeconds (Js.formatSeconds (Double.Int 36028797018964024))
  <> Double.Int 36028797018964024.
Proof.
  split; [lia |]. split; [vm_compute; reflexivity |].
  split; [vm_compute; reflexivity |].
  split; [vm_compute; reflexivity |].
  vm_compute. discriminate.
Qed.

(** From 10^21 on the hours are printed in exponent notation, which the
    parser does not read as a number of hours. *)
Example exponent_notation_is_not_read_back :
  Js.formatSeconds (Double.of_Z (36 * 10 ^ 23)) = "1e+21h 37m 20s" /\
  Js.parseTimeToSeconds "1e+21h 37m 20s" = Double.Int 77840.
Proof. vm_compute. split; reflexivity. Qed.

(** X1.  [parseTimeToSeconds] never returns a negative number or NaN,
    whatever the text: a text that is a bare integer once trimmed is read
    as the double nearest to that integer, which is the integer itself
    below 2^53, and a text without a bare integer and without a unit gives
    0. *)
Theorem parseTimeToSeconds_nonneg (timeStr : string) :
  Double.nonneg (Js.parseTimeToSeconds timeStr) /\
  (bare_integer (Str.trim timeStr) = true ->
   Js.parseTimeToSeconds timeStr
   = Double.of_Z (Num.digits_value 0 (Str.trim timeStr)) /\
   (Num.digits_value 0 (Str.trim timeStr) < 2 ^ 53 ->
    Js.parseTimeToSeconds timeStr
    = Double.Int (Num.digits_value 0 (Str.trim timeStr)))) /\
  (bare_integer (Str.trim timeStr) = false ->
   exec (pat_unit "h") timeStr = None ->
   exec (pat_unit "m") timeStr = None ->
   exec (pat_unit "s") timeStr = None ->
   Js.parseTimeToSeconds timeStr = Double.Int 0).
Proof.
  split; [apply seconds_never_negative |]. split.
  - intros H.
    assert (Js.parseTimeToSeconds timeStr
            = Double.of_Z (Num.digits_value 0 (Str.trim timeStr))) as E.
    { unfold Js.parseTimeToSeconds.
      rewrite test_all_digits_spec. fold (bare_integer (Str.trim timeStr)).
      rewrite H. now apply parseInt_bare. }
    split; [exact E |].
    intros Hlt. rewrite E. apply of_Z_exact.
    destruct (parseInt_bare _ H) as (_ & _ & Hn). rewrite Z.abs_eq; lia.
  - intros H Hh Hm Hs. unfold Js.parseTimeToSeconds.
    rewrite test_all_digits_spec. fold (bare_integer (Str.trim timeStr)).
    now rewrite H, Hh, Hm, Hs.
Qed.

(** A bare integer beyond 2^53 is read as the nearest double. *)
Example bare_integer_is_rounded :
  Js.parseTimeToSeconds "9007199254740993" = Double.Int 9007199254740992.
Proof. vm_compute. reflexivity. Qed.

(** X2.  Two different durations below 2^53 seconds never print the same:
    [formatSeconds] loses nothing on the integers from 0 to 2^53 - 1. *)
Theorem formatSeconds_injective (s1 s2 : Z) :
  0 <= s1 < 2 ^ 53 -> 0 <= s2 < 2 ^ 53 -> s1 <> s2 ->
  Js.formatSeconds (Double.Int s1) <> Js.formatSeconds (Double.Int s2).
Proof.
  intros H1 H2 Hne E. apply Hne.
  pose proof (roundtrip_safe s1 H1) as R1.
  pose proof (roundtrip_safe s2 H2) as R2.
  rewrite E, R2 in R1. now inversion R1.
Qed.

Lemma formatSeconds_injective_witness :
  Js.formatSeconds (Double.Int 3600) = "1h" /\
  Js.formatSeconds (Double.Int 60) = "1m" /\
  Js.formatSeconds (Double.Int 3600) <> Js.formatSeconds (Double.Int 60).
Proof.
  split; [reflexivity |]. split; [reflexivity |].
  apply (formatSeconds_injective 3600 60); lia.
Defined.

(** ** Estimates on doubles *)

(** A capture is rendered as on exact integers, unless it is a bare
    integer of 2^53 or more. *)
Lemma render_capture_agrees cap :
  (bare_integer (Str.trim cap) = true ->
   Num.digits_value 0 (Str.trim cap) < 2 ^ 53) ->
  Js.render_capture cap = render_capture cap.
Proof.
  intros Hb. rewrite render_capture_spec. unfold Js.render_capture.
  cbv zeta. rewrite test_all_digits_spec.
  fold (bare_integer (Str.trim cap)).
  destruct (bare_integer (Str.trim cap)) eqn:E; [| reflexivity].
  destruct (parseInt_bare _ E) as (-> & _ & Hn).
  specialize (Hb eq_refl).
  rewrite of_Z_exact by (rewrite Z.abs_eq; lia).
  apply formatSeconds_agrees. lia.
Qed.

Lemma first_match_agrees patterns gcode :
  (forall p cap,
     In p patterns -> exec p gcode = Some cap ->
     bare_integer (Str.trim cap) = true ->
     Num.digits_value 0 (Str.trim cap) < 2 ^ 53) ->
  Js.first_match patterns gcode = first_match patterns gcode.
Proof.
  induction patterns as [|p rest IH]; intros H; [reflexivity |].
  cbn [Js.first_match first_match].
  destruct (exec p gcode) as [cap|] eqn:E.
  - f_equal. apply render_capture_agrees. apply (H p cap); [now left | exact E].
  - apply IH. intros q cap Hq. apply H. now right.
Qed.

(** The estimate is the one read on exact integers as long as no pattern
    captures a bare integer of 2^53 or more. *)
Lemma parseEstimatedTime_agrees gcode :
  (forall p cap,
     In p timePatterns -> exec p gcode = Some cap ->
     bare_integer (Str.trim cap) = true ->
     Num.digits_value 0 (Str.trim cap) < 2 ^ 53) ->
  Js.parseEstimatedTime gcode = parseEstimatedTime gcode.
Proof. apply first_match_agrees. Qed.

(** What a bare integer below 2^53 is rendered to parses back to that
    integer. *)
Lemma render_bare_integer_back cap :
  bare_integer (Str.trim cap) = true ->
  Num.digits_value 0 (Str.trim cap) < 2 ^ 53 ->
  Js.parseTimeToSeconds (Js.render_capture cap)
  = Double.Int (Num.digits_value 0 (Str.trim cap)).
Proof.
  intros H Hlt. unfold Js.render_capture. cbv zeta.
  rewrite test_all_digits_spec. fold (bare_integer (Str.trim cap)).
  rewrite H. destruct (parseInt_bare _ H) as (-> & _ & Hn).
  rewrite of_Z_exact by (rewrite Z.abs_eq; lia).
  apply roundtrip_safe. lia.
Qed.

(** X4.  A plate whose estimate comes from a [;TIME] tag with an integer
    below 2^53 counts for exactly the tagged number of seconds: the scanner
    formats the integer and [parseTimeToSeconds] reads the same integer
    back.  The same holds for any capture that is a bare integer below 2^53
    once trimmed. *)
Theorem time_tag_counts_its_seconds (gcode cap : string) :
  exec pat_estimated gcode = None ->
  exec pat_time gcode = Some cap ->
  Num.digits_value 0 cap < 2 ^ 53 ->
  (exists t,
     Js.parseEstimatedTime gcode = Some t /\
     Js.parseTimeToSeconds t = Double.Int (Num.digits_value 0 cap)) /\
  (forall cap',
     bare_integer (Str.trim cap') = true ->
     Num.digits_value 0 (Str.trim cap') < 2 ^ 53 ->
     Js.parseTimeToSeconds (Js.render_capture cap')
     = Double.Int (Num.digits_value 0 (Str.trim cap'))).
Proof.
  intros Ha Hb Hlt. split; [| exact render_bare_integer_back].
  exists (Js.render_capture cap). split.
  - unfold Js.parseEstimatedTime, timePatterns. cbn [Js.first_match].
    now rewrite Ha, Hb.
  - pose proof (pat_time_capture gcode cap Hb) as Hbare.
    assert (Str.trim cap = cap) as Ht.
    { apply trim_digits. unfold bare_integer in Hbare.
      now apply andb_true_iff in Hbare as [_ Hall]. }
    rewrite <- Ht at 2. apply render_bare_integer_back; now rewrite Ht.
Qed.

Lemma time_tag_counts_its_seconds_witness :
  exists t,
    Js.parseEstimatedTime (";TIME:5025" ++ nl ++ "G28") = Some t /\
    Js.parseTimeToSeconds t = Double.Int (Num.digits_value 0 "5025").
Proof.
  apply (time_tag_counts_its_seconds (";TIME:5025" ++ nl ++ "G28") "5025");
    vm_compute; reflexivity.
Defined.

(** A tag of 2^53 + 1 seconds counts for 2^53. *)
Example time_tag_is_rounded :
  Js.parseEstimatedTime ";TIME:9007199254740993"
  = Some "2501999792983h 36m 32s" /\
  Js.parseTimeToSeconds "2501999792983h 36m 32s"
  = Double.Int 9007199254740992.
Proof. vm_compute. split; reflexivity. Qed.

(** X23.  A duration written as hours, minutes and seconds whose sum is
    below 2^53 seconds is read as that sum whatever the spacing and the
    letter case: white space may separate the parts and stand between a
    number and its unit letter, or be absent ("1h23m45s"), and the minutes
    and seconds need not be below 60. *)
Theorem handwritten_duration
        (h m s : Z) (a b c d e : string) (H M S : ascii) :
  0 <= h -> 0 <= m -> 0 <= s ->
  h * 3600 + m * 60 + s < 2 ^ 53 ->
  Str.all Char.is_space a = true -> Str.all Char.is_space b = true ->
  Str.all Char.is_space c = true -> Str.all Char.is_space d = true ->
  Str.all Char.is_space e = true ->
  Char.eq_ci "h" H = true -> Char.eq_ci "m" M = true ->
  Char.eq_ci "s" S = true ->
  Js.parseTimeToSeconds
    (Num.toString h ++ a ++
     String H (b ++ Num.toString m ++ c ++
               String M (d ++ Num.toString s ++ e ++ String S EmptyString)))
  = Double.Int (h * 3600 + m * 60 + s).
Proof.
  intros Hh Hm Hs Hlt Ha Hb Hc Hd He HH HM HS.
  pose proof (handwritten_duration_exact h m s a b c d e H M S
                Hh Hm Hs Ha Hb Hc Hd He HH HM HS) as E.
  rewrite parseTimeToSeconds_agrees; rewrite E; [reflexivity | exact Hlt].
Qed.

Lemma handwritten_duration_witness :
  Js.parseTimeToSeconds "1H 90 m5s" = Double.Int (1 * 3600 + 90 * 60 + 5) /\
  Js.parseTimeToSeconds "1h23m45s" = Double.Int (1 * 3600 + 23 * 60 + 45).
Proof.
  split.
  - apply (handwritten_duration 1 90 5 EmptyString " " " " EmptyString
             EmptyString "H" "m" "s"); try lia; reflexivity.
  - apply (handwritten_duration 1 23 45 EmptyString EmptyString EmptyString
             EmptyString EmptyString "h" "m" "s"); try lia; reflexivity.
Defined.

(** Beyond 2^53 the additions round. *)
Example handwritten_duration_is_rounded :
  Js.parseTimeToSeconds "2501999792984h0m1s" = Double.Int 9007199254742400.
Proof. vm_compute. reflexivity. Qed.

(** ** Totals on doubles *)

Lemma seconds_of_nonneg file a :
  0 <= GCodeFile.copies file -> Js.seconds_of file = Some a -> 0 <= a.
Proof.
  intros Hc. unfold Js.seconds_of.
  destruct (GCodeFile.estimatedTime file) as [e|];
    [| intros H; inversion H; lia].
  destruct (Str.truthy e); [| intros H; inversion H; lia].
  pose proof (seconds_never_negative e) as Hn.
  destruct (Js.parseTimeToSeconds e) as [seconds | | |]; try discriminate.
  cbn [Double.nonneg] in Hn. intros H; inversion H. nia.
Qed.

Lemma exact_total_nonneg files : forall total,
  Forall (fun f => 0 <= GCodeFile.copies f) files ->
  Js.exact_total files = Some total -> 0 <= total.
Proof.
  induction files as [|file rest IH]; intros total Hc; cbn [Js.exact_total].
  - intros H; inversion H; lia.
  - inversion Hc as [|? ? Hf Hr]; subst.
    destruct (Js.seconds_of file) as [a|] eqn:Ea; [| discriminate].
    destruct (Js.exact_total rest) as [b|] eqn:Eb; [| discriminate].
    intros H; inversion H.
    pose proof (seconds_of_nonneg file a Hf Ea). pose proof (IH b Hr eq_refl).
    lia.
Qed.

(** As long as the exact total stays below 2^53, the loop accumulates it
    without rounding. *)
Lemma total_loop_exact files : forall acc hasAnyTime total,
  Forall (fun f => 0 <= GCodeFile.copies f) files ->
  Js.exact_total files = Some total ->
  0 <= acc -> acc + total < 2 ^ 53 ->
  Js.total_loop files (Double.Int acc) hasAnyTime
  = (Double.Int (acc + total),
     hasAnyTime || existsb carries_nonempty_estimate files).
Proof.
  induction files as [|file rest IH]; intros acc hasAnyTime total Hc;
    cbn [Js.exact_total Js.total_loop existsb].
  - intros H _ _; inversion H. now rewrite Z.add_0_r, orb_false_r.
  - inversion Hc as [|? ? Hf Hr]; subst.
    destruct (Js.seconds_of file) as [a|] eqn:Ea; [| discriminate].
    destruct (Js.exact_total rest) as [b|] eqn:Eb; [| discriminate].
    intros H Hacc Hlt; inversion H; subst total.
    pose proof (seconds_of_nonneg file a Hf Ea) as Ha.
    pose proof (exact_total_nonneg rest b Hr Eb) as Hb.
    unfold carries_nonempty_estimate at 1. unfold Js.seconds_of in Ea.
    destruct (GCodeFile.estimatedTime file) as [e|]; cbn [truthy_opt].
    + destruct (Str.truthy e).
      * destruct (Js.parseTimeToSeconds e) as [seconds | | |];
          try discriminate.
        injection Ea as <-.
        rewrite mul_exact by (rewrite Z.abs_eq; lia).
        rewrite add_exact by (rewrite Z.abs_eq; lia).
        rewrite (IH _ true b Hr eq_refl) by lia.
        f_equal; [f_equal; lia | now rewrite orb_true_r].
      * injection Ea as <-. rewrite (IH acc hasAnyTime b Hr eq_refl) by lia.
        reflexivity.
    + injection Ea as <-. rewrite (IH acc hasAnyTime b Hr eq_refl) by lia.
      reflexivity.
Qed.

Lemma calculateTotalTime_exact files total :
  Forall (fun f => 0 <= GCodeFile.copies f) files ->
  Js.exact_total files = Some total -> total < 2 ^ 53 ->
  Js.calculateTotalTime files
  = if existsb carries_nonempty_estimate files
    then Some (Js.formatSeconds (Double.Int total)) else None.
Proof.
  intros Hc Ht Hlt. unfold Js.calculateTotalTime.
  rewrite (total_loop_exact files 0 false total Hc Ht) by lia.
  cbn [orb Z.add]. now destruct (existsb carries_nonempty_estimate files).
Qed.

Lemma exact_total_permutation l l' :
  Permutation l l' -> Js.exact_total l = Js.exact_total l'.
Proof.
  induction 1 as [| x l l' _ IH | x y l | l l' l'' _ IH1 _ IH2];
    cbn [Js.exact_total].
  - reflexivity.
  - now rewrite IH.
  - destruct (Js.seconds_of x), (Js.seconds_of y), (Js.exact_total l);
      try reflexivity. f_equal. lia.
  - congruence.
Qed.

Lemma exact_total_filter (keep : GCodeFile.t -> bool) files : forall total,
  Forall (fun f => 0 <= GCodeFile.copies f) files ->
  Js.exact_total files = Some total ->
  exists total',
    Js.exact_total (filter keep files) = Some total' /\ 0 <= total' <= total.
Proof.
  induction files as [|file rest IH]; intros total Hc;
    cbn [Js.exact_total filter].
  - intros H; inversion H. exists 0. split; [reflexivity | lia].
  - inversion Hc as [|? ? Hf Hr]; subst.
    destruct (Js.seconds_of file) as [a|] eqn:Ea; [| discriminate].
    destruct (Js.exact_total rest) as [b|] eqn:Eb; [| discriminate].
    intros H; inversion H; subst total.
    pose proof (seconds_of_nonneg file a Hf Ea) as Ha.
    destruct (IH b Hr eq_refl) as (b' & Eb' & Hb').
    destruct (keep file).
    + exists (a + b'). cbn [Js.exact_total]. rewrite Ea, Eb'.
      split; [reflexivity | lia].
    + exists b'. split; [exact Eb' | lia].
Qed.

(** Sums of non-negative integers are accumulated without rounding as long
    as the exact sum stays below 2^53. *)
Lemma fold_add_exact {A} (h : A -> Double.t) (g : A -> Z) l : forall acc,
  Forall (fun x => 0 <= g x) l ->
  (forall x, In x l -> g x < 2 ^ 53 -> h x = Double.Int (g x)) ->
  0 <= acc -> acc + sum_Z (map g l) < 2 ^ 53 ->
  fold_left (fun sum x => Double.add sum (h x)) l (Double.Int acc)
  = Double.Int (acc + sum_Z (map g l)).
Proof.
  induction l as [|x l IH]; intros acc Hg Hh Hacc Hlt;
    cbn [fold_left map sum_Z fold_right] in *.
  - now rewrite Z.add_0_r.
  - inversion Hg as [|? ? Hx Hl]; subst.
    fold (sum_Z (map g l)) in *.
    assert (0 <= sum_Z (map g l)) as Hs.
    { clear -Hl. unfold sum_Z. induction Hl; simpl; lia. }
    rewrite (Hh x) by (first [now left | lia]).
    rewrite add_exact by (rewrite Z.abs_eq; lia).
    rewrite IH; [f_equal; lia | exact Hl | | lia | lia].
    intros y Hy. apply Hh. now right.
Qed.

Lemma totalPrints_exact files :
  Forall (fun f => 0 <= GCodeFile.copies f) files ->
  totalPrints files < 2 ^ 53 ->
  Js.totalPrints files = Double.Int (totalPrints files).
Proof.
  intros Hc Hlt. rewrite totalPrints_sum in *. unfold Js.totalPrints.
  now rewrite (fold_add_exact _ GCodeFile.copies).
Qed.

Lemma totalLines_exact files :
  Forall (fun f => 0 <= GCodeFile.copies f) files ->
  Forall (fun f => 0 <= GCodeFile.lineCount f) files ->
  totalLines files < 2 ^ 53 ->
  Js.totalLines files = Double.Int (totalLines files).
Proof.
  intros Hc Hl Hlt. rewrite totalLines_sum in *. unfold Js.totalLines.
  rewrite (fold_add_exact _
             (fun f => GCodeFile.lineCount f * GCodeFile.copies f));
    [reflexivity | | | lia | exact Hlt].
  - rewrite Forall_forall in *. intros f Hf.
    specialize (Hc f Hf). specialize (Hl f Hf). cbn beta in *. nia.
  - intros f Hf Hb. rewrite Forall_forall in *.
    specialize (Hc f Hf). specialize (Hl f Hf). cbn beta in *.
    apply mul_exact. rewrite Z.abs_eq; nia.
Qed.

Lemma copies_ok_nonneg files :
  copies_ok files -> Forall (fun f => 0 <= GCodeFile.copies f) files.
Proof.
  intros H. eapply Forall_impl; [| exact H]. cbn beta. intros f Hf. lia.
Qed.

Lemma prints_below_lines files :
  Forall (fun f => 0 <= GCodeFile.copies f) files ->
  Forall (fun f => 1 <= GCodeFile.lineCount f) files ->
  totalPrints files <= totalLines files.
Proof.
  intros Hc Hl. rewrite totalPrints_sum, totalLines_sum. unfold sum_Z.
  induction files as [|f rest IH]; [simpl; lia |].
  inversion Hc; inversion Hl; subst. cbn [map fold_right].
  specialize (IH ltac:(assumption) ltac:(assumption)). nia.
Qed.

(** X17.  As long as the exact totals stay below 2^53, reordering the
    queue by drag and drop changes none of the totals shown: the estimated
    time, the number of prints and the number of lines stay what they were,
    and nothing is rounded in them. *)
Theorem reorder_keeps_totals
        (dragIndex dragOverIndex : option nat)
        (files reordered : list GCodeFile.t) (total : Z) :
  handleDragEnd dragIndex dragOverIndex files = Some reordered ->
  copies_ok files ->
  Forall (fun f => 1 <= GCodeFile.lineCount f) files ->
  Js.exact_total files = Some total -> total < 2 ^ 53 ->
  totalLines files < 2 ^ 53 ->
  Js.calculateTotalTime reordered = Js.calculateTotalTime files /\
  Js.totalPrints reordered = Js.totalPrints files /\
  Js.totalLines reordered = Js.totalLines files /\
  Js.totalPrints files = Double.Int (totalPrints files) /\
  Js.totalLines files = Double.Int (totalLines files).
Proof.
  intros H Hok Hl Ht Hlt Hlines.
  pose proof (handleDragEnd_ok _ _ _ _ Hok H) as Hok'.
  apply handleDragEnd_permutation in H.
  pose proof (copies_ok_nonneg files Hok) as Hc.
  pose proof (copies_ok_nonneg reordered Hok') as Hc'.
  assert (Forall (fun f => 1 <= GCodeFile.lineCount f) reordered) as Hl'.
  { rewrite Forall_forall in *. intros f Hf. apply Hl.
    eapply Permutation_in; [symmetry; exact H | exact Hf]. }
  assert (forall l, Forall (fun f => 1 <= GCodeFile.lineCount f) l ->
                    Forall (fun f => 0 <= GCodeFile.lineCount f) l) as Hweak.
  { intros l Hx. eapply Forall_impl; [| exact Hx]. cbn beta. intros; lia. }
  pose proof (prints_below_lines files Hc Hl) as Hpl.
  assert (totalPrints reordered = totalPrints files) as Ep.
  { rewrite !totalPrints_sum. symmetry. apply sum_Z_permutation.
    now apply Permutation_map. }
  assert (totalLines reordered = totalLines files) as El.
  { rewrite !totalLines_sum. symmetry. apply sum_Z_permutation.
    now apply Permutation_map. }
  split; [| split; [| split; [| split]]].
  - rewrite (calculateTotalTime_exact files total Hc Ht Hlt).
    rewrite (calculateTotalTime_exact reordered total Hc');
      [| now rewrite <- (exact_total_permutation _ _ H) | exact Hlt].
    now rewrite (existsb_permutation _ _ _ H).
  - rewrite !totalPrints_exact by (first [assumption | lia]). now rewrite Ep.
  - rewrite !totalLines_exact by (first [assumption | now apply Hweak | lia]).
    now rewrite El.
  - apply totalPrints_exact; [assumption | lia].
  - apply totalLines_exact; [assumption | now apply Hweak | lia].
Qed.

Lemma sample_queue_lines :
  Forall (fun f => 1 <= GCodeFile.lineCount f) sample_queue.
Proof. unfold sample_queue. repeat constructor; cbn; lia. Defined.

Lemma reorder_keeps_totals_witness :
  Js.calculateTotalTime
    (insert_at 2 (GCodeFile.Build "a" "a.3mf" "a.3mf" "G1" [] 1 (Some "1h") 2
                                  (Some 1) "a.3mf")
               (remove_at 0 sample_queue))
  = Js.calculateTotalTime sample_queue.
Proof.
  apply (reorder_keeps_totals (Some 0%nat) (Some 2%nat) sample_queue _ 7290
           eq_refl sample_queue_ok sample_queue_lines eq_refl);
    vm_compute; reflexivity.
Defined.

(** Beyond 2^53 the order of the queue shows in the total: 2^53 seconds
    followed by two files of one second, and the same files with the long
    one last. *)
Example total_depends_on_order :
  let long := sample_file (Some "2501999792983h 36m 32s") 1 in
  let short := sample_file (Some "1s") 1 in
  Js.calculateTotalTime [long; short; short]
  = Some "2501999792983h 36m 32s" /\
  Js.calculateTotalTime [short; short; long]
  = Some "2501999792983h 36m 34s".
Proof. vm_compute. split; reflexivity. Qed.

(** X18.  As long as the exact totals stay below 2^53, removing a file
    never raises the totals: with copy counts in [1, 99], the total
    estimate after the removal, read back in seconds, is at most what it
    was before, and so is the number of prints. *)
Theorem removal_never_raises_totals
        (st : AppState.t) (id : string) (before : string) (total : Z) :
  copies_ok (AppState.files st) ->
  Js.exact_total (AppState.files st) = Some total -> total < 2 ^ 53 ->
  totalPrints (AppState.files st) < 2 ^ 53 ->
  Js.calculateTotalTime (AppState.files st) = Some before ->
  match Js.calculateTotalTime (AppState.files (handleRemove id st)) with
  | Some after =>
      exists a b,
        Js.parseTimeToSeconds after = Double.Int a /\
        Js.parseTimeToSeconds before = Double.Int b /\ a <= b
  | None => True
  end /\
  exists p q,
    Js.totalPrints (AppState.files (handleRemove id st)) = Double.Int p /\
    Js.totalPrints (AppState.files st) = Double.Int q /\ p <= q.
Proof.
  intros Hok Ht Hlt Hprints Hbefore. cbn [handleRemove AppState.files].
  set (keep := fun file : GCodeFile.t =>
                 negb (String.eqb (GCodeFile.id file) id)).
  pose proof (copies_ok_nonneg _ Hok) as Hc.
  assert (Forall (fun f => 0 <= GCodeFile.copies f)
                 (filter keep (AppState.files st))) as Hc'
    by now apply Forall_kept.
  pose proof (exact_total_nonneg _ _ Hc Ht) as Hnn.
  destruct (exact_total_filter keep _ _ Hc Ht) as (total' & Ht' & Hle).
  split.
  - rewrite (calculateTotalTime_exact _ total Hc Ht Hlt) in Hbefore.
    destruct (existsb carries_nonempty_estimate (AppState.files st));
      [| discriminate].
    inversion Hbefore; subst before.
    rewrite (calculateTotalTime_exact _ total' Hc' Ht') by lia.
    destruct (existsb carries_nonempty_estimate
                      (filter keep (AppState.files st))); [| exact I].
    exists total', total. rewrite !roundtrip_safe by lia.
    repeat split. lia.
  - assert (0 <= totalPrints (filter keep (AppState.files st))
            <= totalPrints (AppState.files st)) as Hp.
    { rewrite !totalPrints_sum. clear -Hc. unfold sum_Z.
      induction Hc as [|a l Ha Hl IH]; simpl; [lia |].
      destruct (keep a); simpl; lia. }
    exists (totalPrints (filter keep (AppState.files st))),
           (totalPrints (AppState.files st)).
    rewrite !totalPrints_exact by (first [assumption | lia]).
    repeat split. lia.
Qed.

Lemma removal_never_raises_totals_witness :
  Js.calculateTotalTime sample_queue = Some "2h 1m 30s" /\
  match Js.calculateTotalTime
          (AppState.files
             (handleRemove "a"
                (AppState.Build sample_queue ProcessingState.idle None))) with
  | Some after =>
      exists a b,
        Js.parseTimeToSeconds after = Double.Int a /\
        Js.parseTimeToSeconds "2h 1m 30s" = Double.Int b /\ a <= b
  | None => True
  end.
Proof.
  split; [vm_compute; reflexivity |].
  apply (removal_never_raises_totals
           (AppState.Build sample_queue ProcessingState.idle None) "a"
           "2h 1m 30s" 7290 sample_queue_ok);
    vm_compute; reflexivity.
Defined.

(** Beyond 10^21 hours the total can rise when a file is removed: the
    total of the two files is printed in exponent notation and reads back
    as 77840 seconds, the total of the second alone as 360000. *)
Example removal_can_raise_a_rounded_total :
  let huge := sample_file (Some "1000000000000000000000h") 1 in
  let small := sample_file (Some "100h") 1 in
  Js.calculateTotalTime [huge; small] = Some "1e+21h 37m 20s" /\
  Js.parseTimeToSeconds "1e+21h 37m 20s" = Double.Int 77840 /\
  Js.calculateTotalTime [small] = Some "100h" /\
  Js.parseTimeToSeconds "100h" = Double.Int 360000.
Proof. vm_compute. repeat split. Qed.

(** ** Archives whose members can fail to decode *)

Lemma decoded_get zip name :
  JSZip.get (Js.decoded zip) name
  = option_map Js.decoded_member (Js.Archive.get zip name).
Proof.
  induction zip as [|[n o] rest IH]; [reflexivity |].
  cbn [Js.decoded map fst snd JSZip.get Js.Archive.get].
  destruct (String.eqb n name); [reflexivity | exact IH].
Qed.

Lemma decoded_file zip name :
  JSZip.file (Js.decoded zip) name
  = option_map Js.decoded_member (Js.Archive.file zip name).
Proof.
  unfold JSZip.file, Js.Archive.file. rewrite decoded_get.
  destruct (Js.Archive.get zip name) as [o|]; [| reflexivity].
  cbn [option_map Js.decoded_member JSZip.dir].
  now destruct (Js.Archive.dir o).
Qed.

Lemma gcodeFiles_decoded zip : Js.gcodeFiles zip = gcodeFiles (Js.decoded zip).
Proof.
  unfold Js.gcodeFiles, gcodeFiles, JSZip.keys, Js.Archive.keys, Js.decoded.
  rewrite map_map. cbn [fst]. f_equal. apply filter_ext. intros name.
  unfold Js.is_gcode_member, is_gcode_member. f_equal.
  change (map (fun entry => (fst entry, Js.decoded_member (snd entry))) zip)
    with (Js.decoded zip).
  rewrite decoded_get. now destruct (Js.Archive.get zip name).
Qed.

Lemma retimed_record text plateNum :
  Js.retimed (plate_record text plateNum) = Js.plate_record text plateNum.
Proof. reflexivity. Qed.

Lemma file_resolves zip name o text :
  Js.Archive.file zip name = Some o ->
  Js.Archive.async_string o = Js.Resolves text ->
  JSZip.file (Js.decoded zip) name = Some (JSZip.Entry false text) /\
  Js.rejection zip name = None.
Proof.
  intros Hf Ha. rewrite decoded_file, Hf. unfold Js.rejection.
  rewrite Hf, Ha. split; [| reflexivity].
  cbn [option_map]. unfold Js.decoded_member. rewrite Ha.
  unfold Js.Archive.file in Hf.
  destruct (Js.Archive.get zip name) as [o'|]; [| discriminate].
  destruct (Js.Archive.dir o') eqn:D; [discriminate |].
  inversion Hf; subst. now rewrite D.
Qed.

Lemma file_absent zip name :
  Js.Archive.file zip name = None ->
  JSZip.file (Js.decoded zip) name = None /\ Js.rejection zip name = None.
Proof.
  intros Hf. rewrite decoded_file. unfold Js.rejection. now rewrite Hf.
Qed.

(** The probing loop stops at the first conventional member that fails to
    decode; otherwise it returns what it returns on the decoded archive. *)
Lemma js_standard_loop_spec zip : forall n plateNum plates,
  Js.standard_loop zip n plateNum plates =
  match Js.first_rejection zip (map gcodePath (zseq plateNum n)) with
  | Some message => Js.Fails message
  | None =>
      Js.Done (plates
               ++ map Js.retimed
                      (flat_map (probe (Js.decoded zip)) (zseq plateNum n)))%list
  end.
Proof.
  induction n as [|n IH]; intros plateNum plates;
    cbn [Js.standard_loop zseq map Js.first_rejection flat_map].
  - now rewrite app_nil_r.
  - destruct (Js.Archive.file zip (gcodePath plateNum)) as [o|] eqn:Hf.
    + destruct (Js.Archive.async_string o) as [text | message] eqn:Ha.
      * destruct (file_resolves zip _ o text Hf Ha) as [Hd Hr].
        rewrite Hr, IH. unfold probe at 2. rewrite Hd.
        cbn [JSZip.text app map]. rewrite retimed_record.
        destruct (Js.first_rejection zip
                    (map gcodePath (zseq (plateNum + 1) n)));
          [reflexivity |].
        now rewrite <- app_assoc.
      * unfold Js.rejection. now rewrite Hf, Ha.
    + destruct (file_absent zip _ Hf) as [Hd Hr].
      rewrite Hr, IH. unfold probe at 2. rewrite Hd. reflexivity.
Qed.

(** The same for the fallback loop. *)
Lemma js_fallback_loop_spec zip : forall names i plates,
  Js.fallback_loop zip names i plates =
  match Js.first_rejection zip names with
  | Some message => Js.Fails message
  | None =>
      Js.Done (plates
               ++ map Js.retimed
                      (flat_map (fallback_record (Js.decoded zip))
                                (number_from (i + 1) names)))%list
  end.
Proof.
  induction names as [|name rest IH]; intros i plates;
    cbn [Js.fallback_loop number_from Js.first_rejection flat_map map].
  - now rewrite app_nil_r.
  - destruct (Js.Archive.file zip name) as [o|] eqn:Hf.
    + destruct (Js.Archive.async_string o) as [text | message] eqn:Ha.
      * destruct (file_resolves zip _ o text Hf Ha) as [Hd Hr].
        rewrite Hr, IH. unfold fallback_record at 2. cbn [fst snd].
        rewrite Hd. cbn [JSZip.text].
        destruct (Js.first_rejection zip rest); [reflexivity |].
        destruct (Str.truthy text); cbn [app map];
          [now rewrite retimed_record, <- app_assoc | reflexivity].
      * unfold Js.rejection. now rewrite Hf, Ha.
    + destruct (file_absent zip _ Hf) as [Hd Hr].
      rewrite Hr, IH. unfold fallback_record at 2. cbn [fst snd].
      rewrite Hd. reflexivity.
Qed.

Lemma first_rejection_app zip l1 l2 :
  Js.first_rejection zip (l1 ++ l2) =
  match Js.first_rejection zip l1 with
  | Some message => Some message
  | None => Js.first_rejection zip l2
  end.
Proof.
  induction l1 as [|name rest IH]; [reflexivity |].
  cbn [app Js.first_rejection].
  destruct (Js.rejection zip name); [reflexivity | exact IH].
Qed.

Lemma first_rejection_some zip names message :
  Js.first_rejection zip names = Some message ->
  exists name, In name names /\ Js.rejection zip name = Some message.
Proof.
  induction names as [|name rest IH]; cbn [Js.first_rejection];
    [discriminate |].
  destruct (Js.rejection zip name) as [m|] eqn:E.
  - intros H; inversion H; subst. exists name. split; [now left | exact E].
  - intros H. destruct (IH H) as (x & Hx & Hr). exists x. split;
      [now right | exact Hr].
Qed.

Lemma first_rejection_none zip names :
  Js.first_rejection zip names = None <->
  forall name, In name names -> Js.rejection zip name = None.
Proof.
  induction names as [|name rest IH]; cbn [Js.first_rejection].
  - split; [intros _ x [] | reflexivity].
  - destruct (Js.rejection zip name) as [m|] eqn:E.
    + split; [discriminate |]. intros H.
      rewrite (H name) in E by now left. discriminate.
    + rewrite IH. split.
      * intros H x [<- | Hx]; [exact E | now apply H].
      * intros H x Hx. apply H. now right.
Qed.

Lemma is_nil_probes zip l :
  is_nil (flat_map (probe zip) l) = is_nil (filter (conventional_present zip) l).
Proof.
  induction l as [|n l IH]; [reflexivity |]. cbn [flat_map filter].
  unfold probe at 1, conventional_present at 1.
  destruct (JSZip.file zip (gcodePath n)); [reflexivity | exact IH].
Qed.

Lemma is_nil_map {A B} (f : A -> B) l : is_nil (map f l) = is_nil l.
Proof. now destruct l. Qed.

Lemma is_nil_true {A} (l : list A) : is_nil l = true -> l = [].
Proof. now destruct l. Qed.

(** Plate discovery fails with the first rejection among the members it
    awaits; when there is none it returns what it returns on the decoded
    archive, each estimate being printed by the code's own arithmetic. *)
Lemma js_discover_spec zip :
  Js.discover zip =
  match Js.first_rejection zip (Js.visited zip) with
  | Some message => Js.Fails message
  | None => Js.Done (map Js.retimed (discover (Js.decoded zip)))
  end.
Proof.
  unfold Js.discover, Js.visited, discover.
  rewrite js_standard_loop_spec, first_rejection_app, !standard_loop_spec.
  cbn [app].
  destruct (Js.first_rejection zip (map gcodePath (zseq 1 16)));
    [reflexivity |].
  rewrite is_nil_map, is_nil_probes.
  destruct (is_nil (filter (conventional_present (Js.decoded zip))
                           (zseq 1 16))) eqn:E.
  - rewrite <- is_nil_probes in E. apply is_nil_true in E. rewrite E.
    rewrite js_fallback_loop_spec, fallback_loop_spec, <- gcodeFiles_decoded.
    reflexivity.
  - reflexivity.
Qed.

Lemma js_extract_opened loadAsync file buf zip :
  Js.open_archive loadAsync file = Some (buf, zip) ->
  Js.extractAllPlatesFromZip loadAsync file =
  match Js.first_rejection zip (Js.visited zip) with
  | Some message => inl (Js.OtherError message)
  | None =>
      if is_nil (discover (Js.decoded zip))
      then inl (Js.FileProcessingError (no_gcode_message (File.name file)))
      else inr (ExtractedPlates.Build
                  (map Js.retimed (discover (Js.decoded zip)))
                  buf (File.name file))
  end.
Proof.
  intros H. unfold Js.extractAllPlatesFromZip. rewrite H, js_discover_spec.
  destruct (Js.first_rejection zip (Js.visited zip)); [reflexivity |].
  now rewrite is_nil_map.
Qed.

Lemma no_conventional_file zip :
  is_nil (filter (conventional_present (Js.decoded zip)) (zseq 1 16)) = true
  <-> forall n, 1 <= n <= 16 -> Js.Archive.file zip (gcodePath n) = None.
Proof.
  split.
  - intros H n Hn. apply is_nil_true in H.
    destruct (Js.Archive.file zip (gcodePath n)) as [o|] eqn:E;
      [exfalso | reflexivity].
    assert (In n (filter (conventional_present (Js.decoded zip)) (zseq 1 16)))
      as Hin.
    { apply in_filter_present; [exact Hn |]. rewrite decoded_file, E.
      discriminate. }
    rewrite H in Hin. contradiction.
  - intros H.
    destruct (filter (conventional_present (Js.decoded zip)) (zseq 1 16))
      as [|k ks] eqn:E; [reflexivity | exfalso].
    assert (In k (filter (conventional_present (Js.decoded zip)) (zseq 1 16)))
      as Hin by (rewrite E; now left).
    apply filter_In in Hin as [Hk Hp]. apply In_zseq in Hk.
    unfold conventional_present in Hp.
    rewrite decoded_file, (H k) in Hp by lia. discriminate.
Qed.

Lemma in_js_gcodeFiles zip name :
  In name (Js.gcodeFiles zip) <->
  exists o,
    Js.Archive.get zip name = Some o /\ Str.endsWith name ".gcode" = true /\
    Js.Archive.dir o = false.
Proof.
  rewrite gcodeFiles_decoded, In_gcodeFiles. unfold is_gcode_member.
  rewrite decoded_get. split.
  - intros [_ H]. apply andb_true_iff in H as [He Hd].
    destruct (Js.Archive.get zip name) as [o|]; [| discriminate].
    exists o. cbn in Hd. apply negb_true_iff in Hd. auto.
  - intros (o & Hg & He & Hd). split.
    + apply (get_In_keys _ _ (Js.decoded_member o)).
      now rewrite decoded_get, Hg.
    + rewrite Hg, He. cbn. now rewrite Hd.
Qed.

Lemma file_of_get zip name o :
  Js.Archive.get zip name = Some o -> Js.Archive.dir o = false ->
  Js.Archive.file zip name = Some o.
Proof. intros Hg Hd. unfold Js.Archive.file. now rewrite Hg, Hd. Qed.

Lemma rejection_some zip name message :
  Js.rejection zip name = Some message <->
  exists o,
    Js.Archive.file zip name = Some o /\
    Js.Archive.async_string o = Js.Rejects message.
Proof.
  unfold Js.rejection. split.
  - destruct (Js.Archive.file zip name) as [o|]; [| discriminate].
    destruct (Js.Archive.async_string o) eqn:E; [discriminate |].
    intros H; inversion H; subst. now exists o.
  - intros (o & -> & ->). reflexivity.
Qed.

(** Extraction meets a rejection exactly when a member it awaits fails to
    decode. *)
Lemma rejection_iff_undecodable zip :
  (exists message, Js.first_rejection zip (Js.visited zip) = Some message)
  <-> Js.undecodable zip.
Proof.
  unfold Js.visited, Js.undecodable. split.
  - intros [message H]. apply first_rejection_some in H as (name & Hin & Hr).
    apply rejection_some in Hr as (o & Hf & Ha).
    apply in_app_or in Hin as [Hin | Hin].
    + left. apply in_map_iff in Hin as (n & <- & Hn). apply In_zseq in Hn.
      exists n, o, message. repeat split; first [lia | assumption].
    + right.
      destruct (is_nil (filter (conventional_present (Js.decoded zip))
                               (zseq 1 16))) eqn:E; [| contradiction].
      split; [now apply no_conventional_file |].
      apply in_js_gcodeFiles in Hin as (o' & Hg & He & Hd).
      rewrite (file_of_get zip name o' Hg Hd) in Hf. inversion Hf; subst o'.
      exists name, o, message. auto.
  - intros H.
    destruct (Js.first_rejection zip _) as [message|] eqn:E;
      [now exists message | exfalso].
    rewrite first_rejection_none in E.
    destruct H as [(n & o & message & Hn & Hf & Ha)
                  | (Hnone & name & o & message & Hg & He & Hd & Ha)].
    + assert (Js.rejection zip (gcodePath n) = Some message) as Hr
        by (apply rejection_some; now exists o).
      rewrite E in Hr; [discriminate |].
      apply in_or_app. left. apply in_map. apply In_zseq. lia.
    + assert (Js.rejection zip name = Some message) as Hr.
      { apply rejection_some. exists o. split; [| exact Ha].
        now apply file_of_get. }
      rewrite E in Hr; [discriminate |].
      apply in_or_app. right.
      rewrite (proj2 (no_conventional_file zip) Hnone).
      apply in_js_gcodeFiles. now exists o.
Qed.

(** When no awaited member fails to decode, nothing counts as G-code in
    the archive exactly when nothing does in the decoded archive. *)
Lemma no_gcode_decoded zip :
  Js.first_rejection zip (Js.visited zip) = None ->
  (no_gcode (Js.decoded zip) <-> Js.no_gcode zip).
Proof.
  intros Hnone. unfold no_gcode, Js.no_gcode. split.
  - intros [Hconv Hempty].
    assert (forall n, 1 <= n <= 16 -> Js.Archive.file zip (gcodePath n) = None)
      as Hconv'.
    { intros n Hn. specialize (Hconv n Hn). rewrite decoded_file in Hconv.
      now destruct (Js.Archive.file zip (gcodePath n)). }
    split; [exact Hconv' |].
    intros name o Hg He Hd.
    specialize (Hempty name (Js.decoded_member o)).
    rewrite decoded_get, Hg in Hempty. specialize (Hempty eq_refl He Hd).
    cbn [Js.decoded_member JSZip.text] in Hempty.
    destruct (Js.Archive.async_string o) as [text | message] eqn:Ha;
      [now subst text | exfalso].
    rewrite first_rejection_none in Hnone.
    assert (Js.rejection zip name = Some message) as Hr.
    { apply rejection_some. exists o. split; [| exact Ha].
      now apply file_of_get. }
    rewrite Hnone in Hr; [discriminate |].
    unfold Js.visited. apply in_or_app. right.
    rewrite (proj2 (no_conventional_file zip) Hconv').
    apply in_js_gcodeFiles. now exists o.
  - intros [Hconv Hempty]. split.
    + intros n Hn. now rewrite decoded_file, (Hconv n Hn).
    + intros name o' Hg He Hd. rewrite decoded_get in Hg.
      destruct (Js.Archive.get zip name) as [o|] eqn:Eg; [| discriminate].
      inversion Hg; subst o'. cbn [Js.decoded_member JSZip.dir JSZip.text] in *.
      now rewrite (Hempty name o Eg He Hd).
Qed.

Lemma no_gcode_never_rejects zip :
  Js.no_gcode zip -> Js.first_rejection zip (Js.visited zip) = None.
Proof.
  intros Hno.
  destruct (Js.first_rejection zip (Js.visited zip)) as [message|] eqn:E;
    [exfalso | reflexivity].
  assert (Js.undecodable zip) as Hu
    by (apply rejection_iff_undecodable; now exists message).
  destruct Hno as [Hconv Hempty].
  destruct Hu as [(n & o & m & Hn & Hf & Ha)
                 | (_ & name & o & m & Hg & He & Hd & Ha)].
  - rewrite (Hconv n Hn) in Hf. discriminate.
  - rewrite (Hempty name o Hg He Hd) in Ha. discriminate.
Qed.

(** X8.  An archive that opens has one of three outcomes.  Extraction
    throws a plain error, carrying the rejection, exactly when a member it
    awaits fails to decode: a conventional member, or a member ending in
    [.gcode] when no conventional member is a file.  It throws the
    no-G-code error, whose message contains the file's name, exactly when
    no conventional member is a file and every file member ending in
    [.gcode] decodes to the empty text.  In every other case it
    succeeds. *)
Theorem no_gcode_error_iff
        (loadAsync : ArrayBuffer -> option Js.Archive.t)
        (file : File.t) (buf : ArrayBuffer) (zip : Js.Archive.t) :
  Js.open_archive loadAsync file = Some (buf, zip) ->
  ((exists message,
      Js.extractAllPlatesFromZip loadAsync file
      = inl (Js.OtherError message))
   <-> Js.undecodable zip) /\
  (forall message,
     Js.extractAllPlatesFromZip loadAsync file = inl (Js.OtherError message)
     -> exists name o,
          Js.Archive.get zip name = Some o /\ Js.Archive.dir o = false /\
          Js.Archive.async_string o = Js.Rejects message) /\
  (Js.extractAllPlatesFromZip loadAsync file
   = inl (Js.FileProcessingError (no_gcode_message (File.name file)))
   <-> Js.no_gcode zip) /\
  ((exists e, Js.extractAllPlatesFromZip loadAsync file = inr e)
   <-> ~ Js.undecodable zip /\ ~ Js.no_gcode zip) /\
  Str.includes (no_gcode_message (File.name file)) (File.name file) = true.
Proof.
  intros Hopen.
  rewrite (js_extract_opened loadAsync file buf zip Hopen).
  pose proof (rejection_iff_undecodable zip) as Hrej.
  pose proof (no_gcode_decoded zip) as Hdec.
  pose proof (no_gcode_never_rejects zip) as Hnever.
  pose proof (discover_nil_iff (Js.decoded zip)) as Hnil.
  split; [| split; [| split; [| split]]].
  - rewrite <- Hrej.
    destruct (Js.first_rejection zip (Js.visited zip)) as [m|].
    + split; intros _; now exists m.
    + split; intros [m H]; [| discriminate].
      destruct (is_nil (discover (Js.decoded zip))); discriminate.
  - intros message H.
    destruct (Js.first_rejection zip (Js.visited zip)) as [m|] eqn:E.
    + inversion H; subst m.
      apply first_rejection_some in E as (name & _ & Hr).
      apply rejection_some in Hr as (o & Hf & Ha).
      exists name, o. unfold Js.Archive.file in Hf.
      destruct (Js.Archive.get zip name) as [o'|]; [| discriminate].
      destruct (Js.Archive.dir o') eqn:D; [discriminate |].
      inversion Hf; subst o'. auto.
    + destruct (is_nil (discover (Js.decoded zip))); discriminate.
  - split.
    + intros H.
      destruct (Js.first_rejection zip (Js.visited zip)) as [m|] eqn:E;
        [discriminate |].
      apply (Hdec eq_refl), Hnil.
      destruct (discover (Js.decoded zip)); [reflexivity | discriminate].
    + intros Hno. rewrite (Hnever Hno).
      apply (Hdec (Hnever Hno)), Hnil in Hno. now rewrite Hno.
  - split.
    + intros [e He].
      destruct (Js.first_rejection zip (Js.visited zip)) as [m|] eqn:E;
        [discriminate |].
      split.
      * intros Hu. apply Hrej in Hu as [m Hm]. discriminate.
      * intros Hno. apply (Hdec eq_refl), Hnil in Hno.
        rewrite Hno in He. discriminate.
    + intros [Hu Hno].
      destruct (Js.first_rejection zip (Js.visited zip)) as [m|] eqn:E.
      * exfalso. apply Hu, Hrej. now exists m.
      * destruct (discover (Js.decoded zip)) as [|p ps] eqn:Ed.
        -- exfalso. apply Hno, (Hdec eq_refl), Hnil. reflexivity.
        -- eexists. reflexivity.
  - unfold no_gcode_message. apply includes_middle.
Qed.

Lemma no_gcode_error_iff_witness :
  (exists message,
     Js.extractAllPlatesFromZip (Js.Sample.opens_as Js.Sample.corrupt_plate)
                                (Sample.upload "job.3mf")
     = inl (Js.OtherError message))
  <-> Js.undecodable Js.Sample.corrupt_plate.
Proof.
  apply (no_gcode_error_iff (Js.Sample.opens_as Js.Sample.corrupt_plate)
           (Sample.upload "job.3mf") [] Js.Sample.corrupt_plate).
  reflexivity.
Defined.

(** The three outcomes on sample archives: a plate that cannot be decoded
    makes the whole upload fail, although the first plate is fine; a member
    that is not awaited may be undecodable; an archive with only an empty
    plate 17 holds no G-code. *)
Example three_outcomes :
  Js.extractAllPlatesFromZip (Js.Sample.opens_as Js.Sample.corrupt_plate)
                             (Sample.upload "job.3mf")
  = inl (Js.OtherError (Some "Corrupted zip : CRC32 mismatch")) /\
  (exists e,
     Js.extractAllPlatesFromZip
       (Js.Sample.opens_as Js.Sample.corrupt_elsewhere)
       (Sample.upload "job.3mf") = inr e /\
     map ParsedGCodeInfo.plateNumber (ExtractedPlates.plates e) = [1]) /\
  Js.extractAllPlatesFromZip (Js.Sample.opens_as Js.Sample.only_empty)
                             (Sample.upload "job.3mf")
  = inl (Js.FileProcessingError (no_gcode_message "job.3mf")).
Proof.
  split; [vm_compute; reflexivity |]. split; [| vm_compute; reflexivity].
  eexists. split; vm_compute; reflexivity.
Qed.

(** ** A batch of uploads, whatever makes an upload fail *)

Section JsQueueFacts.

Variable loadAsync : ArrayBuffer -> option Js.Archive.t.
Variable generateId : nat -> string.

Lemma js_processUploadedFile_copies file n :
  Forall (fun f => GCodeFile.copies f = 1)
         (match Js.processUploadedFile loadAsync generateId file n with
          | inr (files, _) => files
          | inl _ => []
          end).
Proof.
  unfold Js.processUploadedFile.
  destruct (Js.extractAllPlatesFromZip loadAsync file); [constructor |].
  apply map_plates_copies.
Qed.

Lemma js_processUploadedFile_strip file n :
  map strip (match Js.processUploadedFile loadAsync generateId file n with
             | inr (files, _) => files
             | inl _ => []
             end)
  = Js.files_of_upload loadAsync file.
Proof.
  unfold Js.processUploadedFile, Js.files_of_upload.
  destruct (Js.extractAllPlatesFromZip loadAsync file); [reflexivity |].
  apply map_plates_strip.
Qed.

Lemma js_processUploadedFile_error file n :
  match Js.processUploadedFile loadAsync generateId file n with
  | inr _ => []
  | inl (Js.FileProcessingError message) => [message]
  | inl (Js.OtherError message) => [Js.other_message file message]
  end = Js.errors_of_upload loadAsync file.
Proof.
  unfold Js.processUploadedFile, Js.errors_of_upload.
  now destruct (Js.extractAllPlatesFromZip loadAsync file).
Qed.

(** The loop handles every upload of the batch, whatever happened to the
    ones before it and whatever they failed with. *)
Lemma js_batch_loop_spec selectedFiles : forall n newFiles errors,
  let '(newFiles', errors', _) :=
    Js.batch_loop loadAsync generateId selectedFiles n newFiles errors in
  map strip newFiles'
  = (map strip newFiles
     ++ flat_map (Js.files_of_upload loadAsync) selectedFiles)%list
  /\ errors'
     = (errors ++ flat_map (Js.errors_of_upload loadAsync) selectedFiles)%list
  /\ (Forall (fun f => GCodeFile.copies f = 1) newFiles ->
      Forall (fun f => GCodeFile.copies f = 1) newFiles').
Proof.
  induction selectedFiles as [|file rest IH]; intros n newFiles errors.
  - simpl. now rewrite !app_nil_r.
  - cbn [Js.batch_loop flat_map].
    pose proof (js_processUploadedFile_strip file n) as Hs.
    pose proof (js_processUploadedFile_error file n) as He.
    pose proof (js_processUploadedFile_copies file n) as Hc.
    destruct (Js.processUploadedFile loadAsync generateId file n)
      as [[message | message] | [processedFiles n']].
    + specialize (IH n newFiles (errors ++ [message])%list).
      destruct (Js.batch_loop loadAsync generateId rest n newFiles
                              (errors ++ [message])) as [[newFiles' errors'] k].
      destruct IH as (IH1 & IH2 & IH3).
      rewrite <- Hs, <- He. simpl in *.
      repeat split; [exact IH1 | now rewrite IH2, <- app_assoc | exact IH3].
    + specialize (IH n newFiles
                     (errors ++ [Js.other_message file message])%list).
      destruct (Js.batch_loop loadAsync generateId rest n newFiles
                              (errors ++ [Js.other_message file message]))
        as [[newFiles' errors'] k].
      destruct IH as (IH1 & IH2 & IH3).
      rewrite <- Hs, <- He. simpl in *.
      repeat split; [exact IH1 | now rewrite IH2, <- app_assoc | exact IH3].
    + specialize (IH n' (newFiles ++ processedFiles)%list errors).
      destruct (Js.batch_loop loadAsync generateId rest n'
                              (newFiles ++ processedFiles) errors)
        as [[newFiles' errors'] k].
      destruct IH as (IH1 & IH2 & IH3).
      rewrite <- Hs, <- He. simpl in *.
      repeat split.
      * now rewrite IH1, map_app, <- app_assoc.
      * exact IH2.
      * intros Hn. apply IH3. apply Forall_app. now split.
Qed.

Lemma js_handleFilesSelected_ok selectedFiles st n :
  copies_ok (AppState.files st) ->
  copies_ok
    (AppState.files
       (fst (Js.handleFilesSelected loadAsync generateId selectedFiles st n))).
Proof.
  intros Hok. unfold Js.handleFilesSelected.
  pose proof (js_batch_loop_spec selectedFiles n [] []) as H.
  destruct (Js.batch_loop loadAsync generateId selectedFiles n [] [])
    as [[newFiles errors] n'].
  destruct H as (_ & _ & Hc). simpl.
  apply Forall_app. split; [exact Hok |].
  eapply Forall_impl; [| apply Hc; constructor].
  simpl. intros f Hf. lia.
Qed.

(** Apart from uploads, the events are handled as on decoded archives. *)
Lemma js_step_other loadDecoded s e :
  (forall selectedFiles, e <> FilesSelected selectedFiles) ->
  Js.step loadAsync generateId s e = step loadDecoded generateId s e.
Proof.
  intros H. destruct s as [st n].
  destruct e; try reflexivity. now contradiction (H selectedFiles).
Qed.

(** No event takes a copy count out of [1, 99]. *)
Lemma js_step_ok s e :
  copies_ok (AppState.files (fst s)) ->
  copies_ok (AppState.files (fst (Js.step loadAsync generateId s e))).
Proof.
  intros Hok.
  destruct e as [selectedFiles | index value | index | index | index
                 | dragIndex dragOverIndex | ];
    try (rewrite (js_step_other (fun _ => None)) by discriminate;
         now apply step_ok).
  destruct s as [st n]. now apply js_handleFilesSelected_ok.
Qed.

Lemma js_run_events_ok s events :
  copies_ok (AppState.files (fst s)) ->
  copies_ok
    (AppState.files (fst (Js.run_events loadAsync generateId s events))).
Proof.
  revert s; induction events as [|e rest IH]; intros s Hok; simpl;
    [exact Hok |].
  apply IH. now apply js_step_ok.
Qed.

End JsQueueFacts.

(** One message per failing upload. *)
Lemma js_errors_count loadAsync selectedFiles :
  List.length (flat_map (Js.errors_of_upload loadAsync) selectedFiles)
  = List.length (filter (Js.fails loadAsync) selectedFiles).
Proof.
  induction selectedFiles as [|file rest IH]; simpl; [reflexivity |].
  rewrite length_app. unfold Js.errors_of_upload at 1, Js.fails at 1.
  destruct (Js.extractAllPlatesFromZip loadAsync file) as [[m | m] | e];
    simpl; now rewrite IH.
Qed.

Lemma other_message_names_file file message :
  Str.includes (Js.other_message file message) (File.name file) = true.
Proof.
  unfold Js.other_message.
  rewrite <- (append_assoc "Error processing " quote).
  apply includes_middle.
Qed.

(** What one upload contributes: its files and no message when extraction
    succeeds; no file and one message naming it when extraction fails, be
    it because the upload is not an archive, because the archive holds no
    G-code, or because a member cannot be decoded. *)
Lemma upload_contribution loadAsync file :
  (Js.fails loadAsync file = false ->
   Js.errors_of_upload loadAsync file = [] /\
   Js.files_of_upload loadAsync file <> []) /\
  (Js.fails loadAsync file = true ->
   Js.files_of_upload loadAsync file = [] /\
   exists message,
     Js.errors_of_upload loadAsync file = [message] /\
     Str.includes message (File.name file) = true /\
     (message = invalid_archive_message (File.name file) \/
      message = no_gcode_message (File.name file) \/
      exists thrown, message = Js.other_message file thrown)).
Proof.
  unfold Js.fails, Js.errors_of_upload, Js.files_of_upload.
  destruct (Js.extractAllPlatesFromZip loadAsync file) as [[m | m] | e] eqn:E.
  - split; [discriminate |]. intros _. split; [reflexivity |].
    exists m. split; [reflexivity |].
    unfold Js.extractAllPlatesFromZip in E.
    destruct (Js.open_archive loadAsync file) as [[buf zip]|].
    + destruct (Js.discover zip) as [plates | thrown]; [| discriminate].
      destruct (is_nil plates); [| discriminate].
      inversion E. split; [| auto].
      unfold no_gcode_message. apply includes_middle.
    + inversion E. split; [| auto].
      unfold invalid_archive_message. apply includes_middle.
  - split; [discriminate |]. intros _. split; [reflexivity |].
    exists (Js.other_message file m). split; [reflexivity |].
    split; [apply other_message_names_file |]. right. right. now exists m.
  - split; [| discriminate]. intros _. split; [reflexivity |].
    unfold Js.extractAllPlatesFromZip in E.
    destruct (Js.open_archive loadAsync file) as [[buf zip]|];
      [| discriminate].
    destruct (Js.discover zip) as [plates | thrown]; [| discriminate].
    destruct plates as [|p ps]; [discriminate |].
    inversion E. cbn. discriminate.
Qed.

(** C9.  A batch of uploads is processed in submission order: each upload
    whose extraction fails, whatever it fails with (the upload is not an
    archive, the archive holds no G-code, a member cannot be decoded), adds
    its one message, which names the file, to the error list and no file to
    the queue; every other upload still adds its files to the queue; the
    new files follow the old ones in submission order; and the messages are
    reported together, joined line by line, once the loop is over. *)
Theorem batch_collects_errors
        (loadAsync : ArrayBuffer -> option Js.Archive.t)
        (generateId : nat -> string)
        (selectedFiles : list File.t) (st : AppState.t) (n : nat) :
  let st' :=
    fst (Js.handleFilesSelected loadAsync generateId selectedFiles st n) in
  let messages := flat_map (Js.errors_of_upload loadAsync) selectedFiles in
  map strip (AppState.files st')
  = (map strip (AppState.files st)
     ++ flat_map (Js.files_of_upload loadAsync) selectedFiles)%list /\
  AppState.error st'
  = (if is_nil messages then None else Some (Str.join nl messages)) /\
  List.length messages
  = List.length (filter (Js.fails loadAsync) selectedFiles) /\
  AppState.processing st' = ProcessingState.idle /\
  (forall file,
     Js.fails loadAsync file = false ->
     Js.errors_of_upload loadAsync file = [] /\
     Js.files_of_upload loadAsync file <> []) /\
  (forall file,
     Js.fails loadAsync file = true ->
     Js.files_of_upload loadAsync file = [] /\
     exists message,
       Js.errors_of_upload loadAsync file = [message] /\
       Str.includes message (File.name file) = true /\
       (message = invalid_archive_message (File.name file) \/
        message = no_gcode_message (File.name file) \/
        exists thrown, message = Js.other_message file thrown)).
Proof.
  cbv zeta. unfold Js.handleFilesSelected.
  pose proof (js_batch_loop_spec loadAsync generateId selectedFiles n [] [])
    as H.
  destruct (Js.batch_loop loadAsync generateId selectedFiles n [] [])
    as [[newFiles errors] n'].
  destruct H as (Hf & He & _). simpl in *. subst errors.
  split; [now rewrite map_app, Hf |].
  split; [now destruct (flat_map (Js.errors_of_upload loadAsync)
                                 selectedFiles) |].
  split; [apply js_errors_count |].
  split; [reflexivity |].
  split; intros file; apply upload_contribution.
Qed.

(** An upload with a plate that cannot be decoded and an upload that is not
    an archive, between two good ones: two files reach the queue and two
    messages are reported. *)
Example batch_with_two_failures :
  let st' :=
    fst (Js.handleFilesSelected Js.Sample.loader constant_id
           [Js.Sample.good; Js.Sample.unreadable; Js.Sample.no_zip;
            Js.Sample.good]
           AppState.initial 0) in
  map GCodeFile.displayName (AppState.files st')
  = ["good.gcode.3mf"; "good.gcode.3mf"] /\
  AppState.error st'
  = Some (Js.other_message Js.Sample.unreadable
            (Some "Corrupted zip : CRC32 mismatch")
          ++ nl ++ invalid_archive_message "notes.3mf").
Proof. vm_compute. split; reflexivity. Qed.

(** ** Copy counts, and what an edit does to the queue *)

(** The copies field computes the same number on doubles as on exact
    integers: rounding never crosses 1 or 99. *)
Lemma copies_of_input_agrees value :
  Js.copies_of_input value = Double.Int (copies_of_input value).
Proof.
  unfold Js.copies_of_input, copies_of_input, Double.parseInt. cbv zeta.
  destruct (Num.parseInt value) as [n|]; [| reflexivity].
  destruct (Z_lt_le_dec (Z.abs n) (2 ^ 53)) as [Hs | Hl].
  - rewrite (of_Z_exact n Hs). cbn [Double.truthy].
    destruct (Z.eqb_spec n 0); reflexivity.
  - assert ((n =? 0) = false) as -> by (apply Z.eqb_neq; lia).
    destruct (Z_lt_le_dec n 0) as [Hneg | Hpos].
    + destruct (of_Z_small n ltac:(lia)) as [-> | (m & -> & Hm)].
      * cbn. f_equal. lia.
      * assert ((m =? 0) = false) as E by (apply Z.eqb_neq; lia).
        cbn [Double.truthy Double.min Double.max negb]. rewrite E.
        cbn [negb]. f_equal. lia.
    + destruct (of_Z_large n ltac:(lia)) as [-> | (m & -> & Hm)].
      * cbn. f_equal. lia.
      * assert ((m =? 0) = false) as E by (apply Z.eqb_neq; lia).
        cbn [Double.truthy Double.min Double.max negb]. rewrite E.
        cbn [negb]. f_equal. lia.
Qed.

(** The edit rewrites the copy count of every item that carries the
    identifier of the edited one, and of no other. *)
Lemma handleCopiesChange_nth file value files j other :
  nth_error files j = Some other ->
  nth_error (handleCopiesChange file value files) j
  = Some (if String.eqb (GCodeFile.id other) (GCodeFile.id file)
          then GCodeFile.with_copies other (copies_of_input value)
          else other).
Proof.
  intros H. unfold handleCopiesChange, handleUpdateCopies.
  now rewrite nth_error_map, H.
Qed.

Lemma handleCopiesChange_edited file value files index :
  nth_error files index = Some file ->
  nth_error (handleCopiesChange file value files) index
  = Some (GCodeFile.with_copies file (copies_of_input value)).
Proof.
  intros H. rewrite (handleCopiesChange_nth file value files index file H).
  now rewrite String.eqb_refl.
Qed.

Lemma copies_after_edit loadAsync generateId st n index file value :
  nth_error (AppState.files st) index = Some file ->
  option_map GCodeFile.copies
    (nth_error
       (AppState.files
          (fst (Js.step loadAsync generateId (st, n)
                        (CopiesChange index value))))
       index)
  = Some (copies_of_input value).
Proof.
  intros H. cbn [Js.step fst]. unfold on_item. rewrite H.
  cbn [set_files AppState.files].
  now rewrite (handleCopiesChange_edited file value _ index H).
Qed.

(** C8.  Every file in the work queue has a copy count in [1, 99].  An
    upload creates its files with copy count 1.  The copies field turns
    any text into an integer in [1, 99], the same on doubles as on exact
    integers, and the decimal text of an integer into that integer clamped
    to [1, 99], so that 0, -5 and 150 give 1, 1 and 99.  Editing the field
    of an item sets the copy count of that item to the clamped number
    (requesting 150 leaves 99 in the queue), keeps the length of the queue,
    and changes no item with another identifier.  Every queue event (an
    upload, an edit of the copies field, an increment, a decrement, a
    removal, a drag, a clearing) preserves the bound, which therefore holds
    in every queue reachable from the empty one. *)
Theorem copies_always_in_range
        (loadAsync : ArrayBuffer -> option Js.Archive.t)
        (loadDecoded : ArrayBuffer -> option JSZip.t)
        (generateId : nat -> string) :
  (forall file n,
     Forall (fun f => GCodeFile.copies f = 1)
            (match Js.processUploadedFile loadAsync generateId file n with
             | inr (files, _) => files
             | inl _ => []
             end)) /\
  (forall file n,
     Forall (fun f => GCodeFile.copies f = 1)
            (match processUploadedFile loadDecoded generateId file n with
             | inr (files, _) => files
             | inl _ => []
             end)) /\
  (forall value,
     Js.copies_of_input value = Double.Int (copies_of_input value)) /\
  (forall value, 1 <= copies_of_input value <= 99) /\
  (forall n, copies_of_input (Num.toString n) = Z.max 1 (Z.min 99 n)) /\
  copies_of_input "0" = 1 /\
  copies_of_input "-5" = 1 /\
  copies_of_input "150" = 99 /\
  (forall files index file value,
     nth_error files index = Some file ->
     List.length (handleCopiesChange file value files) = List.length files /\
     nth_error (handleCopiesChange file value files) index
     = Some (GCodeFile.with_copies file (copies_of_input value)) /\
     (forall j other,
        nth_error files j = Some other ->
        nth_error (handleCopiesChange file value files) j
        = Some (if String.eqb (GCodeFile.id other) (GCodeFile.id file)
                then GCodeFile.with_copies other (copies_of_input value)
                else other))) /\
  (forall st n index file,
     nth_error (AppState.files st) index = Some file ->
     let copies_after value :=
       option_map GCodeFile.copies
         (nth_error
            (AppState.files
               (fst (Js.step loadAsync generateId (st, n)
                             (CopiesChange index value))))
            index) in
     (forall value, copies_after value = Some (copies_of_input value)) /\
     copies_after "0" = Some 1 /\
     copies_after "-5" = Some 1 /\
     copies_after "150" = Some 99) /\
  (forall s e,
     copies_ok (AppState.files (fst s)) ->
     copies_ok (AppState.files (fst (Js.step loadAsync generateId s e)))) /\
  (forall events,
     copies_ok
       (AppState.files
          (fst (Js.run_events loadAsync generateId (AppState.initial, O)
                              events)))) /\
  (forall s e,
     copies_ok (AppState.files (fst s)) ->
     copies_ok (AppState.files (fst (step loadDecoded generateId s e)))) /\
  (forall events,
     copies_ok
       (AppState.files
          (fst (run_events loadDecoded generateId (AppState.initial, O)
                           events)))).
Proof.
  split; [apply js_processUploadedFile_copies |].
  split; [apply processUploadedFile_copies |].
  split; [apply copies_of_input_agrees |].
  split; [apply copies_of_input_range |].
  split; [apply copies_of_input_clamps |].
  repeat (split; [reflexivity |]).
  split.
  { intros files index file value H. split; [| split].
    - unfold handleCopiesChange, handleUpdateCopies. apply length_map.
    - now apply handleCopiesChange_edited.
    - intros j other. apply handleCopiesChange_nth. }
  split.
  { intros st n index file H. cbv zeta.
    pose proof (copies_after_edit loadAsync generateId st n index file) as E.
    split; [intros value; now apply E |].
    repeat split; now rewrite E. }
  split; [apply js_step_ok |].
  split; [intros events; apply js_run_events_ok; constructor |].
  split; [apply step_ok |].
  intros events. apply run_events_ok. constructor.
Qed.

(** Requesting 150 copies of the first item of a queue leaves 99 there and
    nothing else changed. *)
Example edit_clamps_in_the_queue :
  map GCodeFile.copies
      (AppState.files
         (fst (Js.step Js.Sample.loader constant_id
                 (AppState.Build sample_queue ProcessingState.idle None, O)
                 (CopiesChange 0 "150"))))
  = [99; 5; 1] /\
  map GCodeFile.copies sample_queue = [2; 5; 1].
Proof. vm_compute. split; reflexivity. Qed.

(** ** The two readings agree

    The properties proved of the estimate scanner, of the total and of
    extraction on exact integers and decoded archives, carried over to
    doubles and to archives whose members can fail to decode. *)

(** The scanner tries the three patterns in order, trims the capture and
    formats a bare integer as seconds, on doubles as on exact integers; the
    integer is first rounded to a double. *)
Lemma js_render_capture_spec cap :
  Js.render_capture cap =
  if bare_integer (Str.trim cap)
  then Js.formatSeconds (Double.of_Z (Num.digits_value 0 (Str.trim cap)))
  else Str.trim cap.
Proof.
  unfold Js.render_capture. cbv zeta. rewrite test_all_digits_spec.
  fold (bare_integer (Str.trim cap)).
  destruct (bare_integer (Str.trim cap)) eqn:E; [| reflexivity].
  now destruct (parseInt_bare _ E) as (-> & _ & _).
Qed.

Lemma js_parseEstimatedTime_priority (gcode : string) :
  Js.parseEstimatedTime gcode =
  match exec pat_estimated gcode with
  | Some cap => Some (Js.render_capture cap)
  | None =>
      match exec pat_time gcode with
      | Some cap =>
          Some (Js.formatSeconds (Double.of_Z (Num.digits_value 0 cap)))
      | None =>
          match exec pat_total gcode with
          | Some cap => Some (Js.render_capture cap)
          | None => None
          end
      end
  end.
Proof.
  unfold Js.parseEstimatedTime, timePatterns. cbn [Js.first_match].
  destruct (exec pat_estimated gcode); [reflexivity |].
  destruct (exec pat_time gcode) as [cap|] eqn:E; [| reflexivity].
  apply pat_time_capture in E.
  rewrite js_render_capture_spec.
  unfold bare_integer in E. apply andb_true_iff in E as [Hne Hall].
  rewrite (trim_digits cap Hall). unfold bare_integer. now rewrite Hne, Hall.
Qed.

(** Which files count towards the total does not depend on the
    arithmetic. *)
Lemma js_total_loop_flag files : forall totalSeconds hasAnyTime,
  snd (Js.total_loop files totalSeconds hasAnyTime)
  = hasAnyTime || existsb carries_nonempty_estimate files.
Proof.
  induction files as [|file rest IH]; intros totalSeconds hasAnyTime;
    cbn [Js.total_loop existsb].
  - cbn. now rewrite orb_false_r.
  - unfold carries_nonempty_estimate at 1.
    destruct (GCodeFile.estimatedTime file) as [e|]; cbn [truthy_opt].
    + destruct (Str.truthy e); rewrite IH; [| reflexivity].
      now rewrite orb_true_r.
    + now rewrite IH.
Qed.

(** On doubles too, the total is absent exactly when no file carries a
    non-empty estimate. *)
Lemma js_total_absent_iff (files : list GCodeFile.t) :
  Js.calculateTotalTime files = None <->
  forall file, In file files ->
    GCodeFile.estimatedTime file = None \/
    GCodeFile.estimatedTime file = Some EmptyString.
Proof.
  unfold Js.calculateTotalTime.
  pose proof (js_total_loop_flag files (Double.Int 0) false) as Hflag.
  destruct (Js.total_loop files (Double.Int 0) false)
    as [totalSeconds hasAnyTime].
  cbn [snd orb] in Hflag. subst hasAnyTime.
  destruct (existsb carries_nonempty_estimate files) eqn:E; cbn [negb].
  - split; [discriminate |]. intros Hall. exfalso.
    apply existsb_exists in E as (file & Hin & Hc).
    unfold carries_nonempty_estimate, truthy_opt in Hc.
    destruct (Hall file Hin) as [H | H]; rewrite H in Hc; discriminate.
  - split; [| reflexivity]. intros _ file Hin.
    assert (carries_nonempty_estimate file = false) as Hc.
    { destruct (carries_nonempty_estimate file) eqn:C; [| reflexivity].
      assert (existsb carries_nonempty_estimate files = true)
        by (apply existsb_exists; eauto).
      congruence. }
    unfold carries_nonempty_estimate, truthy_opt in Hc.
    destruct (GCodeFile.estimatedTime file) as [[|c t]|]; auto; discriminate.
Qed.

(** The exact total of a queue, when every estimate reads below 2^53. *)
Lemma exact_total_sum files :
  Forall (fun f => 0 <= GCodeFile.copies f) files ->
  Forall (fun f => estimate_seconds f < 2 ^ 53) files ->
  Forall (fun f => 1 <= GCodeFile.copies f) files ->
  Js.exact_total files
  = Some (sum_Z (map estimate_seconds
                     (filter carries_nonempty_estimate files))).
Proof.
  induction files as [|file rest IH]; intros Hc Hb Hp; [reflexivity |].
  inversion Hc as [|? ? Hc1 Hc2]; inversion Hb as [|? ? Hb1 Hb2];
    inversion Hp as [|? ? Hp1 Hp2]; subst.
  cbn [Js.exact_total filter]. rewrite (IH Hc2 Hb2 Hp2).
  assert (0 <= sum_Z (map estimate_seconds
                          (filter carries_nonempty_estimate rest))) as Hs.
  { clear -Hc2. unfold sum_Z.
    induction Hc2 as [|g l Hg Hl IH]; simpl; [lia |].
    destruct (carries_nonempty_estimate g); simpl; [| exact IH].
    pose proof (estimate_seconds_nonneg g Hg). lia. }
  assert (carries_nonempty_estimate file
          = truthy_opt (GCodeFile.estimatedTime file)) as C by reflexivity.
  rewrite C. unfold Js.seconds_of.
  destruct (GCodeFile.estimatedTime file) as [e|] eqn:E; cbn [truthy_opt];
    [| reflexivity].
  destruct (Str.truthy e); [| reflexivity].
  unfold estimate_seconds in Hb1. rewrite E in Hb1.
  pose proof (seconds_nonneg e).
  rewrite parseTimeToSeconds_agrees by nia.
  assert (estimate_seconds file
          = parseTimeToSeconds e * GCodeFile.copies file) as Es
    by (unfold estimate_seconds; now rewrite E).
  cbn [map]. unfold sum_Z. cbn [fold_right]. now rewrite Es.
Qed.

(** Below 2^53 the total is the one computed on exact integers. *)
Lemma calculateTotalTime_agrees files :
  copies_ok files ->
  sum_Z (map estimate_seconds (filter carries_nonempty_estimate files))
  < 2 ^ 53 ->
  Js.calculateTotalTime files = calculateTotalTime files.
Proof.
  intros Hok Hlt.
  pose proof (copies_ok_nonneg files Hok) as Hc.
  assert (Forall (fun f => 1 <= GCodeFile.copies f) files) as Hp.
  { eapply Forall_impl; [| exact Hok]. cbn beta. intros f Hf. lia. }
  assert (Forall (fun f => estimate_seconds f < 2 ^ 53) files) as Hb.
  { clear Hp. revert Hlt. unfold sum_Z.
    induction Hc as [|f l Hf Hl IH]; intros Hlt; constructor.
    - pose proof (estimate_seconds_nonneg f Hf).
      assert (0 <= fold_right Z.add 0
                     (map estimate_seconds
                          (filter carries_nonempty_estimate l))) as Hs.
      { clear -Hl. induction Hl as [|g l Hg Hl IH]; simpl; [lia |].
        destruct (carries_nonempty_estimate g); simpl; [| exact IH].
        pose proof (estimate_seconds_nonneg g Hg). lia. }
      cbn [filter] in Hlt.
      destruct (carries_nonempty_estimate f) eqn:C.
      + cbn [map fold_right] in Hlt. lia.
      + rewrite (estimate_seconds_empty f C). lia.
    - apply IH; [now inversion Hok |]. cbn [filter] in Hlt.
      destruct (carries_nonempty_estimate f); [| exact Hlt].
      cbn [map fold_right] in Hlt.
      pose proof (estimate_seconds_nonneg f Hf). lia. }
  rewrite (calculateTotalTime_exact files _ Hc (exact_total_sum files Hc Hb Hp)
             Hlt).
  rewrite calculateTotalTime_sum.
  destruct (existsb carries_nonempty_estimate files); [| reflexivity].
  f_equal. apply formatSeconds_agrees. split; [| exact Hlt].
  clear -Hc. unfold sum_Z. induction Hc as [|g l Hg Hl IH]; simpl; [lia |].
  destruct (carries_nonempty_estimate g); simpl; [| exact IH].
  pose proof (estimate_seconds_nonneg g Hg). lia.
Qed.

(** When every member that extraction awaits decodes, extraction returns
    what it returns on the decoded archive, each estimate being printed by
    the code's own arithmetic. *)
Lemma extraction_agrees loadAsync file :
  (forall buf zip,
     Js.open_archive loadAsync file = Some (buf, zip) ->
     Js.first_rejection zip (Js.visited zip) = None) ->
  Js.extractAllPlatesFromZip loadAsync file =
  match extractAllPlatesFromZip
          (fun buf => option_map Js.decoded (loadAsync buf)) file with
  | inl (FileProcessingError message) =>
      inl (Js.FileProcessingError message)
  | inr e =>
      inr (ExtractedPlates.Build
             (map Js.retimed (ExtractedPlates.plates e))
             (ExtractedPlates.originalZip e) (ExtractedPlates.fileName e))
  end.
Proof.
  intros Hdec.
  destruct (Js.open_archive loadAsync file) as [[buf zip]|] eqn:Hopen.
  - rewrite (js_extract_opened loadAsync file buf zip Hopen).
    rewrite (Hdec buf zip eq_refl).
    rewrite (extract_opened _ file buf (Js.decoded zip)).
    + now destruct (is_nil (discover (Js.decoded zip))).
    + unfold open_archive, Js.open_archive in *.
      destruct (File.arrayBuffer file) as [arrayBuffer|]; [| discriminate].
      destruct (loadAsync arrayBuffer); [| discriminate].
      now inversion Hopen.
  - unfold Js.extractAllPlatesFromZip, extractAllPlatesFromZip. rewrite Hopen.
    unfold open_archive, Js.open_archive in *.
    destruct (File.arrayBuffer file) as [arrayBuffer|]; [| reflexivity].
    destruct (loadAsync arrayBuffer); [discriminate | reflexivity].
Qed.

(** A record is the one built on exact integers as soon as its estimate
    is. *)
Lemma plate_record_agrees text plateNum :
  Js.parseEstimatedTime text = parseEstimatedTime text ->
  Js.plate_record text plateNum = plate_record text plateNum.
Proof. intros H. unfold Js.plate_record, plate_record. now rewrite H. Qed.

(** ** The estimate and the total, on exact integers and on doubles *)

(** C6, amended.  The scanner tries the three patterns in the fixed order
    "estimated printing time ... = value", "TIME tag with an integer",
    "total estimated time"; the first pattern that matches anywhere in the
    text decides, whatever the later ones would match and wherever.  The
    capture is stripped of surrounding white space; if that leaves a bare
    integer it is read as seconds and formatted, otherwise the stripped
    text is the result.  No match gives no result.  This holds on exact
    integers and on the doubles of the code, where the integer is rounded
    to a double before it is formatted; the two give the same estimate as
    long as no captured integer reaches 2^53. *)
Theorem parseEstimatedTime_priority (gcode : string) :
  parseEstimatedTime gcode =
  match exec pat_estimated gcode with
  | Some cap => Some (render_capture cap)
  | None =>
      match exec pat_time gcode with
      | Some cap => Some (formatSeconds (Num.digits_value 0 cap))
      | None =>
          match exec pat_total gcode with
          | Some cap => Some (render_capture cap)
          | None => None
          end
      end
  end /\
  (forall cap,
     render_capture cap =
     if bare_integer (Str.trim cap)
     then formatSeconds (Num.digits_value 0 (Str.trim cap))
     else Str.trim cap) /\
  Js.parseEstimatedTime gcode =
  match exec pat_estimated gcode with
  | Some cap => Some (Js.render_capture cap)
  | None =>
      match exec pat_time gcode with
      | Some cap =>
          Some (Js.formatSeconds (Double.of_Z (Num.digits_value 0 cap)))
      | None =>
          match exec pat_total gcode with
          | Some cap => Some (Js.render_capture cap)
          | None => None
          end
      end
  end /\
  (forall cap,
     Js.render_capture cap =
     if bare_integer (Str.trim cap)
     then Js.formatSeconds (Double.of_Z (Num.digits_value 0 (Str.trim cap)))
     else Str.trim cap) /\
  ((forall p cap,
      In p timePatterns -> exec p gcode = Some cap ->
      bare_integer (Str.trim cap) = true ->
      Num.digits_value 0 (Str.trim cap) < 2 ^ 53) ->
   Js.parseEstimatedTime gcode = parseEstimatedTime gcode).
Proof.
  assert (forall cap,
            exec pat_time gcode = Some cap ->
            bare_integer (Str.trim cap) = true /\ Str.trim cap = cap) as Htag.
  { intros cap E. apply pat_time_capture in E.
    assert (Str.trim cap = cap) as Ht.
    { apply trim_digits. unfold bare_integer in E.
      now apply andb_true_iff in E as [_ Hall]. }
    now rewrite Ht. }
  split; [| split; [exact render_capture_spec |
                    split; [| split; [exact js_render_capture_spec |
                                      apply parseEstimatedTime_agrees]]]].
  - unfold parseEstimatedTime, timePatterns. cbn [first_match].
    destruct (exec pat_estimated gcode); [reflexivity |].
    destruct (exec pat_time gcode) as [cap|] eqn:E; [| reflexivity].
    destruct (Htag cap eq_refl) as [Hb Ht].
    now rewrite render_capture_spec, Hb, Ht.
  - unfold Js.parseEstimatedTime, timePatterns. cbn [Js.first_match].
    destruct (exec pat_estimated gcode); [reflexivity |].
    destruct (exec pat_time gcode) as [cap|] eqn:E; [| reflexivity].
    destruct (Htag cap eq_refl) as [Hb Ht].
    now rewrite js_render_capture_spec, Hb, Ht.
Qed.

(** C6 as stated fails: a capture that is not a bare integer is not returned
    as captured but trimmed, and a capture that only becomes a bare integer
    by trimming is formatted as seconds. *)
Lemma capture_not_returned_verbatim :
  exec pat_estimated "; estimated printing time = 1h 2m " = Some "1h 2m " /\
  parseEstimatedTime "; estimated printing time = 1h 2m " = Some "1h 2m" /\
  parseEstimatedTime "; estimated printing time = 1h 2m " <> Some "1h 2m " /\
  exec pat_total ("; total estimated time: 90 " ++ nl ++ "G28") = Some "90 " /\
  parseEstimatedTime ("; total estimated time: 90 " ++ nl ++ "G28")
  = Some "1m 30s" /\
  Js.parseEstimatedTime "; estimated printing time = 1h 2m " = Some "1h 2m" /\
  Js.parseEstimatedTime "; estimated printing time = 1h 2m "
  <> Some "1h 2m " /\
  Js.parseEstimatedTime ("; total estimated time: 90 " ++ nl ++ "G28")
  = Some "1m 30s".
Proof.
  repeat split; try (vm_compute; reflexivity); vm_compute; discriminate.
Qed.

(** X6.  In a text where every line, the last included, ends in a carriage
    return and a line feed, the comments "estimated printing time" and
    "total estimated time" are never recognised: their value must run up
    to a line feed or the end of the text, and [.] does not match the
    carriage return.  Only a [;TIME] tag gives such a text an estimate, on
    exact integers and on doubles. *)
Theorem crlf_text_estimate (gcode : string) :
  cr_before_line_ends gcode = true ->
  exec pat_estimated gcode = None /\
  exec pat_total gcode = None /\
  parseEstimatedTime gcode
  = match exec pat_time gcode with
    | Some cap => Some (formatSeconds (Num.digits_value 0 cap))
    | None => None
    end /\
  Js.parseEstimatedTime gcode
  = match exec pat_time gcode with
    | Some cap =>
        Some (Js.formatSeconds (Double.of_Z (Num.digits_value 0 cap)))
    | None => None
    end.
Proof.
  intros Hcr.
  assert (exec pat_estimated gcode = None) as Ha
    by (now apply dots_to_line_end_never_match).
  assert (exec pat_total gcode = None) as Hc
    by (now apply dots_to_line_end_never_match).
  split; [exact Ha |]. split; [exact Hc |].
  rewrite js_parseEstimatedTime_priority, Ha, Hc.
  split; [| now destruct (exec pat_time gcode)].
  unfold parseEstimatedTime, timePatterns. cbn [first_match].
  rewrite Ha, Hc.
  destruct (exec pat_time gcode) as [cap|] eqn:Hb; [| reflexivity].
  pose proof (pat_time_capture gcode cap Hb) as Hbare.
  rewrite render_capture_spec.
  assert (Str.trim cap = cap) as ->; [| now rewrite Hbare].
  apply trim_digits. unfold bare_integer in Hbare.
  now apply andb_true_iff in Hbare as [_ Hall].
Qed.

Lemma crlf_text_estimate_witness :
  let gcode := "; estimated printing time (normal mode) = 1h 2m" ++ CR ++ nl ++
               "G28" ++ CR ++ nl in
  cr_before_line_ends gcode = true /\
  exec pat_estimated gcode = None /\
  parseEstimatedTime gcode = None /\
  parseEstimatedTime
    ("; estimated printing time (normal mode) = 1h 2m" ++ nl ++ "G28" ++ nl)
  = Some "1h 2m".
Proof.
  cbv zeta. split; [reflexivity |].
  split; [| split; vm_compute; reflexivity].
  apply (crlf_text_estimate
           ("; estimated printing time (normal mode) = 1h 2m" ++ CR ++ nl ++
            "G28" ++ CR ++ nl)).
  reflexivity.
Defined.

(** The loop on doubles adds, from left to right, what each file with a
    non-empty estimate counts for. *)
Lemma js_total_loop_spec files : forall totalSeconds hasAnyTime,
  Js.total_loop files totalSeconds hasAnyTime
  = (fold_left Double.add
       (map Js.estimate_seconds (filter carries_nonempty_estimate files))
       totalSeconds,
     hasAnyTime || existsb carries_nonempty_estimate files).
Proof.
  induction files as [|file rest IH]; intros totalSeconds hasAnyTime;
    cbn [Js.total_loop filter existsb].
  - cbn. now rewrite orb_false_r.
  - assert (carries_nonempty_estimate file
            = truthy_opt (GCodeFile.estimatedTime file)) as C by reflexivity.
    rewrite C.
    assert (forall e, GCodeFile.estimatedTime file = Some e ->
              Js.estimate_seconds file
              = Double.mul (Js.parseTimeToSeconds e)
                           (Double.Int (GCodeFile.copies file))) as Hs.
    { intros e E. unfold Js.estimate_seconds. now rewrite E. }
    destruct (GCodeFile.estimatedTime file) as [e|]; cbn [truthy_opt].
    + destruct (Str.truthy e); rewrite IH; [| reflexivity].
      cbn [map fold_left]. rewrite (Hs e eq_refl).
      now rewrite orb_true_r.
    + now rewrite IH.
Qed.

(** C7, amended.  The total is absent exactly when no file of the list
    carries a non-empty estimate; otherwise it is the formatted sum, over
    the files that carry an estimate, of the estimate parsed to seconds
    times the copy count.  Files without an estimate add nothing and do not
    suppress the result.  This holds on exact integers and on the doubles
    of the code, where the sum is taken in queue order; the two give the
    same total as long as the exact sum is below 2^53. *)
Theorem calculateTotalTime_spec (files : list GCodeFile.t) :
  calculateTotalTime files =
  (if existsb carries_nonempty_estimate files
   then Some (formatSeconds
                (sum_Z (map estimate_seconds (filter carries_estimate files))))
   else None) /\
  (calculateTotalTime files = None <->
   forall file, In file files ->
     GCodeFile.estimatedTime file = None \/
     GCodeFile.estimatedTime file = Some EmptyString) /\
  Js.calculateTotalTime files =
  (if existsb carries_nonempty_estimate files
   then Some (Js.formatSeconds
                (Js.sum_in_order
                   (map Js.estimate_seconds
                        (filter carries_nonempty_estimate files))))
   else None) /\
  (Js.calculateTotalTime files = None <->
   forall file, In file files ->
     GCodeFile.estimatedTime file = None \/
     GCodeFile.estimatedTime file = Some EmptyString) /\
  (copies_ok files ->
   sum_Z (map estimate_seconds (filter carries_estimate files)) < 2 ^ 53 ->
   Js.calculateTotalTime files = calculateTotalTime files).
Proof.
  assert (calculateTotalTime files =
          if existsb carries_nonempty_estimate files
          then Some (formatSeconds
                       (sum_Z (map estimate_seconds
                                   (filter carries_estimate files))))
          else None) as Hcalc.
  { unfold calculateTotalTime. rewrite total_loop_spec. simpl.
    rewrite sum_nonempty_estimates.
    now destruct (existsb carries_nonempty_estimate files). }
  assert (existsb carries_nonempty_estimate files = false <->
          forall file, In file files ->
            GCodeFile.estimatedTime file = None \/
            GCodeFile.estimatedTime file = Some EmptyString) as Hnone.
  { destruct (existsb carries_nonempty_estimate files) eqn:E.
    - split; [discriminate |]. intros Hall. exfalso.
      apply existsb_exists in E as (file & Hin & Hc).
      unfold carries_nonempty_estimate, truthy_opt in Hc.
      destruct (Hall file Hin) as [H | H]; rewrite H in Hc; discriminate.
    - split; [| reflexivity]. intros _ file Hin.
      assert (carries_nonempty_estimate file = false) as Hc.
      { destruct (carries_nonempty_estimate file) eqn:C; [| reflexivity].
        assert (existsb carries_nonempty_estimate files = true)
          by (apply existsb_exists; eauto).
        congruence. }
      unfold carries_nonempty_estimate, truthy_opt in Hc.
      destruct (GCodeFile.estimatedTime file) as [[|c t]|]; auto;
        discriminate. }
  assert (Js.calculateTotalTime files =
          if existsb carries_nonempty_estimate files
          then Some (Js.formatSeconds
                       (Js.sum_in_order
                          (map Js.estimate_seconds
                               (filter carries_nonempty_estimate files))))
          else None) as Hjs.
  { unfold Js.calculateTotalTime. rewrite js_total_loop_spec. cbn [orb].
    now destruct (existsb carries_nonempty_estimate files). }
  split; [exact Hcalc |]. split; [| split; [exact Hjs | split]].
  - rewrite Hcalc, <- Hnone.
    destruct (existsb carries_nonempty_estimate files);
      split; first [discriminate | reflexivity].
  - rewrite Hjs, <- Hnone.
    destruct (existsb carries_nonempty_estimate files);
      split; first [discriminate | reflexivity].
  - intros Hok Hlt. apply calculateTotalTime_agrees; [exact Hok |].
    now rewrite sum_nonempty_estimates.
Qed.

(** C7 as stated fails: a G-code whose estimate comment has a label and no
    value gives the plate the empty string as its estimate, and a queue
    holding only that file has no total although the file carries an
    estimate, where the stated rule would give the total "0s". *)
Lemma empty_estimate_has_no_total :
  parseEstimatedTime ";total estimated time: " = Some EmptyString /\
  (exists file,
     processUploadedFile (Sample.opens_as estimate_only_label) constant_id
                         (Sample.upload "job.3mf") 0
     = inr ([file], 1%nat) /\
     GCodeFile.estimatedTime file = Some EmptyString /\
     carries_estimate file = true /\
     calculateTotalTime [file] = None /\
     formatSeconds (sum_Z (map estimate_seconds (filter carries_estimate [file])))
     = "0s") /\
  ~ (calculateTotalTime [sample_file (Some EmptyString) 1] = None <->
     forall file, In file [sample_file (Some EmptyString) 1] ->
                  GCodeFile.estimatedTime file = None) /\
  Js.parseEstimatedTime ";total estimated time: " = Some EmptyString /\
  (exists file,
     Js.processUploadedFile
       (Js.Sample.opens_as
          [Js.Sample.member "Metadata/plate_1.gcode" ";total estimated time: "])
       constant_id (Sample.upload "job.3mf") 0
     = inr ([file], 1%nat) /\
     GCodeFile.estimatedTime file = Some EmptyString /\
     Js.calculateTotalTime [file] = None /\
     Js.formatSeconds
       (Js.sum_in_order (map Js.estimate_seconds (filter carries_estimate [file])))
     = "0s") /\
  ~ (Js.calculateTotalTime [sample_file (Some EmptyString) 1] = None <->
     forall file, In file [sample_file (Some EmptyString) 1] ->
                  GCodeFile.estimatedTime file = None).
Proof.
  split; [vm_compute; reflexivity |].
  split.
  { eexists. split; [vm_compute; reflexivity |].
    repeat split; vm_compute; reflexivity. }
  split.
  { intros [H _]. specialize (H eq_refl _ (or_introl eq_refl)).
    discriminate H. }
  split; [vm_compute; reflexivity |].
  split.
  { eexists. split; [vm_compute; reflexivity |].
    repeat split; vm_compute; reflexivity. }
  intros [H _]. specialize (H eq_refl _ (or_introl eq_refl)). discriminate H.
Qed.

(** ** What the formatter prints, whatever the number *)

Lemma digit_visible c : Char.is_digit c = true -> Js.visible c = true.
Proof. each_char c. Qed.

Lemma visible_is_dot c : Js.visible c = true -> Char.is_dot c = true.
Proof. each_char c. Qed.

(** The decimal text of an integer is not empty and holds no white
    space. *)
Lemma num_toString_visible n :
  Str.all Js.visible (Num.toString n) = true /\
  Num.toString n <> EmptyString.
Proof.
  unfold Num.toString. destruct (Z.ltb_spec n 0).
  - split; [| discriminate]. cbn [Str.all].
    rewrite (all_impl Char.is_digit Js.visible _ digit_visible);
      [reflexivity |].
    apply digits_all_digit. lia.
  - split; [| apply digits_nonempty].
    apply (all_impl Char.is_digit Js.visible _ digit_visible).
    now apply digits_all_digit.
Qed.

Lemma exponent_notation_visible v :
  Str.all Js.visible (Double.exponent_notation v) = true /\
  Double.exponent_notation v <> EmptyString.
Proof.
  unfold Double.exponent_notation. cbv zeta.
  destruct (num_toString_visible v) as [Hall Hne].
  pose proof (all_drop_while_end Js.visible (Ascii.eqb "0")
                (Num.toString v) Hall) as Hd.
  destruct (Str.drop_while_end (Ascii.eqb "0") (Num.toString v))
    as [|d rest]; [now split |].
  cbn [Str.all] in Hd. apply andb_true_iff in Hd as [Hd Hrest].
  destruct (num_toString_visible
              (Z.of_nat (String.length (Num.toString v)) - 1)) as [He _].
  destruct rest as [|r rest']; (split; [| discriminate]).
  - cbn [Str.all append]. rewrite Hd. cbn. exact He.
  - cbn [Str.all]. rewrite Hd. cbn [andb].
    change ("." ++ String r rest' ++ "e+" ++
            Num.toString (Z.of_nat (String.length (Num.toString v)) - 1))
      with (String "." (String r rest' ++ "e+" ++
            Num.toString (Z.of_nat (String.length (Num.toString v)) - 1))).
    cbn [Str.all]. rewrite all_append, Hrest. cbn. exact He.
Qed.

(** Whatever the number, what it prints as is not empty and holds no white
    space. *)
Lemma toString_visible x :
  Str.all Js.visible (Double.toString x) = true /\
  Double.toString x <> EmptyString.
Proof.
  assert (forall v,
            Str.all Js.visible (Double.toString_large v) = true /\
            Double.toString_large v <> EmptyString) as Hlarge.
  { intros v. unfold Double.toString_large. cbv zeta.
    destruct (Double.shortest v <? 10 ^ 21);
      [apply num_toString_visible | apply exponent_notation_visible]. }
  destruct x as [z | | |]; cbn [Double.toString];
    try (split; [reflexivity | discriminate]).
  destruct (Z.abs z <? 2 ^ 53); [apply num_toString_visible |].
  destruct (z <? 0); [| apply Hlarge].
  split; [| discriminate]. cbn [Str.all]. now rewrite (proj1 (Hlarge (- z))).
Qed.

Lemma visible_head (s : string) :
  Str.all Js.visible s = true -> s <> EmptyString ->
  exists a t, s = String a t /\ Char.is_space a = false.
Proof.
  destruct s as [|a t]; [congruence |]. intros H _.
  cbn [Str.all] in H. apply andb_true_iff in H as [Ha _].
  exists a, t. split; [reflexivity |].
  unfold Js.visible in Ha. now apply negb_true_iff in Ha.
Qed.

(** A number followed by its unit letter. *)
Lemma unit_part x (u : ascii) rest :
  Char.is_space u = false -> Char.is_dot u = true ->
  exists a t,
    Double.toString x ++ String u rest = String a t /\
    Char.is_space a = false /\
    Str.all Char.is_dot (Double.toString x ++ String u rest)
    = Str.all Char.is_dot rest.
Proof.
  intros Hu Hd. destruct (toString_visible x) as [Hall Hne].
  destruct (visible_head _ Hall Hne) as (a & t & E & Ha).
  exists a, (t ++ String u rest). split; [now rewrite E |].
  split; [exact Ha |].
  rewrite all_append.
  rewrite (all_impl Js.visible Char.is_dot _ visible_is_dot Hall).
  cbn [Str.all andb]. now rewrite Hd.
Qed.

(** Whatever the number, what [formatSeconds] prints starts and ends with
    a character that is not white space, and holds no line terminator. *)
Lemma js_formatSeconds_shape (x : Double.t) :
  exists a t c,
    Js.formatSeconds x = String a t /\ Char.is_space a = false /\
    last_char (Js.formatSeconds x) = Some c /\ Char.is_space c = false /\
    Str.all Char.is_dot (Js.formatSeconds x) = true.
Proof.
  unfold Js.formatSeconds. cbv zeta.
  set (h := Double.floor_div x 3600).
  set (m := Double.floor_div (Double.rem x 3600) 60).
  set (s := Double.rem x 60).
  destruct (Double.gt0 h), (Double.gt0 m), (Double.gt0 s);
    cbn [push_if app List.length Nat.eqb orb Str.join];
    rewrite ?append_assoc; cbn [append];
    match goal with
    | |- exists a t c, Double.toString ?n ++ String ?u ?rest = _ /\ _ =>
        destruct (unit_part n u rest eq_refl eq_refl) as (a & t & Heq & Ha & Hd);
        exists a, t
    end;
    rewrite Hd;
    repeat first
      [ rewrite last_char_append
          by first [discriminate | apply append_nonempty]
      | rewrite last_char_cons
          by first [discriminate | apply append_nonempty] ];
    eexists; (split; [exact Heq |]); (split; [exact Ha |]);
    (split; [reflexivity |]); (split; [reflexivity |]);
    cbn [Str.all andb];
    repeat match goal with
    | |- context [Double.toString ?n ++ String ?u ?rest] =>
        let a' := fresh "a" in let t' := fresh "t" in
        let H1 := fresh "H" in let H2 := fresh "H" in let H3 := fresh "H" in
        destruct (unit_part n u rest eq_refl eq_refl)
          as (a' & t' & H1 & H2 & H3);
        rewrite H3; clear a' t' H1 H2 H3; cbn [Str.all andb]
    end;
    reflexivity.
Qed.

Lemma js_first_match_render patterns gcode t :
  Js.first_match patterns gcode = Some t ->
  exists pattern cap,
    In pattern patterns /\ exec pattern gcode = Some cap /\
    t = Js.render_capture cap.
Proof.
  induction patterns as [|p rest IH]; simpl; [discriminate |].
  destruct (exec p gcode) as [cap|] eqn:E.
  - intros H; inversion H; subst. exists p, cap. auto.
  - intros H. destruct (IH H) as (q & cap & Hq & He & Ht).
    exists q, cap. auto.
Qed.

Lemma floor_quotient_nonpos a d :
  a <= 0 -> 0 < d -> Double.floor_quotient a d <= 0.
Proof.
  intros Ha Hd. unfold Double.floor_quotient.
  destruct (Z.eqb_spec a 0); [lia |]. cbv zeta.
  rewrite (proj2 (Z.sgn_neg_iff a)) by lia.
  set (sh := Double.exponent (Z.abs a) d - 52).
  destruct (Z.leb_spec 0 sh) as [Hs | Hs].
  - assert (0 < d * 2 ^ sh)
      by (apply Z.mul_pos_pos; [lia | apply Z.pow_pos_nonneg; lia]).
    pose proof (rne_nonneg (Z.abs a) (d * 2 ^ sh) (Z.abs_nonneg a)
                  ltac:(assumption)).
    assert (0 <= 2 ^ sh) by (apply Z.pow_nonneg; lia). nia.
  - assert (0 < 2 ^ (- sh)) as Hp by (apply Z.pow_pos_nonneg; lia).
    assert (0 <= Z.abs a * 2 ^ (- sh))
      by (apply Z.mul_nonneg_nonneg; [apply Z.abs_nonneg | lia]).
    pose proof (rne_nonneg (Z.abs a * 2 ^ (- sh)) d ltac:(assumption) Hd).
    apply Z.div_le_upper_bound; lia.
Qed.

(** X3.  On a negative number [formatSeconds] prints the remainder of the
    division by 60 alone, followed by "s": the hours and minutes are not
    positive and are left out, so the magnitude is lost (-3600 prints as
    "0s").  This holds on exact integers and on doubles. *)
Theorem formatSeconds_negative (s : Z) :
  s < 0 ->
  formatSeconds s = Num.toString (Z.rem s 60) ++ "s" /\
  Js.formatSeconds (Double.Int s) = Num.toString (Z.rem s 60) ++ "s".
Proof.
  intros Hs. split.
  - unfold formatSeconds. cbv zeta.
    assert (forall x, x <= 0 -> (x >? 0) = false) as Hle.
    { intros x Hx. rewrite Z.gtb_ltb. now apply Z.ltb_ge. }
    rewrite (Hle (s / 3600)), (Hle (Z.rem s 3600 / 60)), (Hle (Z.rem s 60));
      try (Z.to_euclidean_division_equations; lia).
    reflexivity.
  - unfold Js.formatSeconds. cbv zeta. cbn [Double.floor_div Double.rem].
    assert (forall x, x <= 0 -> Double.gt0 (Double.Int x) = false) as Hle.
    { intros x Hx. cbn [Double.gt0]. now apply Z.ltb_ge. }
    assert (Z.rem s 3600 <= 0 /\ -60 < Z.rem s 60 <= 0) as [H1 H2]
      by (Z.to_euclidean_division_equations; lia).
    rewrite (Hle (Double.floor_quotient s 3600))
      by (apply floor_quotient_nonpos; lia).
    rewrite (Hle (Double.floor_quotient (Z.rem s 3600) 60))
      by (apply floor_quotient_nonpos; lia).
    rewrite (Hle (Z.rem s 60)) by lia.
    cbn [push_if app List.length Nat.eqb orb Str.join].
    now rewrite toString_exact by lia.
Qed.

Lemma formatSeconds_negative_witness :
  formatSeconds (-3600) = "0s" /\ formatSeconds (-61) = "-1s" /\
  Js.formatSeconds (Double.Int (-61)) = "-1s".
Proof.
  split; [| split].
  - apply (formatSeconds_negative (-3600)). lia.
  - apply (formatSeconds_negative (-61)). lia.
  - apply (formatSeconds_negative (-61)). lia.
Defined.

(** X5.  The estimate the scanner returns never starts or ends with white
    space: trimming it changes nothing.  This holds on exact integers and
    on doubles, whatever the number that is formatted. *)
Theorem estimate_is_trimmed (gcode t : string) :
  (parseEstimatedTime gcode = Some t -> Str.trim t = t) /\
  (Js.parseEstimatedTime gcode = Some t -> Str.trim t = t).
Proof.
  split; intros H.
  - apply first_match_render in H as (p & cap & _ & _ & ->).
    rewrite render_capture_spec.
    destruct (bare_integer (Str.trim cap)); [| apply trim_idempotent].
    destruct (formatSeconds_shape (Num.digits_value 0 (Str.trim cap)))
      as (a & t & c & Heq & Ha & Hl & Hc).
    { apply digits_value_nonneg. lia. }
    apply (trim_fixed _ a t c); try assumption.
    now apply digit_not_space.
  - apply js_first_match_render in H as (p & cap & _ & _ & ->).
    rewrite js_render_capture_spec.
    destruct (bare_integer (Str.trim cap)); [| apply trim_idempotent].
    destruct (js_formatSeconds_shape
                (Double.of_Z (Num.digits_value 0 (Str.trim cap))))
      as (a & t & c & Heq & Ha & Hl & Hc & _).
    now apply (trim_fixed _ a t c).
Qed.

Lemma estimate_is_trimmed_witness :
  parseEstimatedTime ("; estimated printing time =   1h 2m   " ++ nl)
  = Some "1h 2m" /\
  Str.trim "1h 2m" = "1h 2m".
Proof.
  split; [vm_compute; reflexivity |].
  apply (estimate_is_trimmed
           ("; estimated printing time =   1h 2m   " ++ nl) "1h 2m").
  vm_compute. reflexivity.
Defined.

(** X24.  The estimate the scanner returns is a single line: it contains
    neither a line feed nor a carriage return.  This holds on exact
    integers and on doubles, whatever the number that is formatted. *)
Theorem estimate_is_one_line (gcode t : string) :
  (parseEstimatedTime gcode = Some t -> Str.all Char.is_dot t = true) /\
  (Js.parseEstimatedTime gcode = Some t -> Str.all Char.is_dot t = true).
Proof.
  assert (forall p cap,
            In p timePatterns -> exec p gcode = Some cap ->
            Str.all Char.is_dot cap = true) as Hcap.
  { intros p cap Hp He. unfold timePatterns in Hp.
    destruct Hp as [<- | [<- | [<- | []]]].
    - now apply (plus_capture pat_estimated false Char.is_dot gcode).
    - destruct (plus_capture pat_time true Char.is_digit gcode cap eq_refl He)
        as [Hd _].
      revert Hd. apply all_impl. exact digit_is_dot.
    - now apply (plus_capture pat_total false Char.is_dot gcode). }
  split; intros H.
  - apply first_match_render in H as (p & cap & Hp & He & ->).
    rewrite render_capture_spec.
    destruct (bare_integer (Str.trim cap)).
    + apply formatSeconds_one_line, digits_value_nonneg. lia.
    + unfold Str.trim. apply all_drop_while_end, all_drop_while.
      now apply (Hcap p).
  - apply js_first_match_render in H as (p & cap & Hp & He & ->).
    rewrite js_render_capture_spec.
    destruct (bare_integer (Str.trim cap)).
    + destruct (js_formatSeconds_shape
                  (Double.of_Z (Num.digits_value 0 (Str.trim cap))))
        as (a & t & c & _ & _ & _ & _ & Hd).
      exact Hd.
    + unfold Str.trim. apply all_drop_while_end, all_drop_while.
      now apply (Hcap p).
Qed.

Lemma estimate_is_one_line_witness :
  Str.all Char.is_dot "1h 2m" = true.
Proof.
  apply (estimate_is_one_line
           ("; estimated printing time =   1h 2m   " ++ nl ++ "G28") "1h 2m").
  vm_compute. reflexivity.
Defined.

(** An integer of hundreds of digits is read as the infinity and printed
    as such; the estimate is still a single trimmed line. *)
Example estimate_of_an_overflowing_tag :
  Js.parseEstimatedTime
    (";TIME:1000000000000000000000000000000000000000000000000000000000000" ++
     "00000000000000000000000000000000000000000000000000000000000000000000" ++
     "00000000000000000000000000000000000000000000000000000000000000000000" ++
     "00000000000000000000000000000000000000000000000000000000000000000000" ++
     "0000000000000000000000000000000000000000000000")
  = Some "Infinityh".
Proof. vm_compute. reflexivity. Qed.
